(** * probe-finder.c (perf, linux-2.6.35): a shallow embedding

    The C functions of [tools/perf/util/probe-finder.c] are transcribed as
    Rocq functions that keep the names of the source.

    - Machine integers are [Z] with the wrap-around of the C type written
      out ([to_int], [to_long], [to_uint], [to_Dwarf_Word]).
    - A [char *] is an [option string]: [None] is the NULL pointer, and a
      string stands for the bytes before the terminating NUL.
    - Functions that allocate, log or write through pointers live in the
      monad [M], a state monad over [World] whose outcomes also record a
      crash (a write through NULL, a read past a buffer) and running out
      of loop budget.
    - libdw, libc and the parts of perf that are not in this file are the
      fields of [Env] and of [Libdw]. *)

From Stdlib Require Import ZArith Lia String Ascii List Sorted Bool.
From Stdlib Require Import Numbers.DecimalString.
From stdpp Require Import base list strings.

Set Warnings "-register-all".
Open Scope Z_scope.

(** ** Machine integers *)

Definition wrap_unsigned (bits z : Z) : Z := z mod 2 ^ bits.
Definition wrap_signed (bits z : Z) : Z :=
  (z + 2 ^ (bits - 1)) mod 2 ^ bits - 2 ^ (bits - 1).

Definition to_int (z : Z) : Z := wrap_signed 32 z.
Definition to_uint (z : Z) : Z := wrap_unsigned 32 z.
Definition to_long (z : Z) : Z := wrap_signed 64 z.
Definition to_ulong (z : Z) : Z := wrap_unsigned 64 z.
Definition to_Dwarf_Word (z : Z) : Z := wrap_unsigned 64 z.
Definition INT_MAX : Z := 2147483647.
Definition INT_MIN : Z := - 2147483648.

(** errno.h *)
Definition ENOENT : Z := 2.
Definition E2BIG : Z := 7.
Definition EBADF : Z := 9.
Definition ENOMEM : Z := 12.
Definition EFAULT : Z := 14.
Definition EINVAL : Z := 22.
Definition EROFS : Z := 30.
Definition ERANGE : Z := 34.
Definition ENAMETOOLONG : Z := 36.
Definition ENOTSUP : Z := 95.

(** Kprobe tracer basic type is up to u64 *)
Definition MAX_BASIC_TYPE_BITS : Z := 64.

(** ** C strings *)

(** The value of a [char] in an [int] expression ([char] is signed on x86). *)
Definition char_to_int (c : ascii) : Z :=
  let n := Z.of_N (N_of_ascii c) in
  if n <? 128 then n else n - 256.

Definition strlen (s : string) : nat := String.length s.

(** [s[i]]: the terminating NUL is read at [i = strlen s]. *)
Definition char_at (s : string) (i : nat) : ascii :=
  match String.get i s with
  | Some c => c
  | None => zero
  end.

(** [strchr s c] is the suffix of [s] that starts at the first [c]. *)
Fixpoint strchr (s : string) (c : ascii) : option string :=
  match s with
  | EmptyString => None
  | String a rest => if Ascii.eqb a c then Some s else strchr rest c
  end.

Fixpoint strcmp (s1 s2 : string) : Z :=
  match s1, s2 with
  | EmptyString, EmptyString => 0
  | EmptyString, String b _ => 0 - Z.of_N (N_of_ascii b)
  | String a _, EmptyString => Z.of_N (N_of_ascii a)
  | String a r1, String b r2 =>
      if Ascii.eqb a b then strcmp r1 r2
      else Z.of_N (N_of_ascii a) - Z.of_N (N_of_ascii b)
  end.

(** printf's [%d] *)
Definition fmt_d (z : Z) : string := NilZero.string_of_int (Z.to_int z).

(** Compare the tail of two strings.
    Return 0 if whole of either string is same as another's tail part.
    [strtailcmp_loop s1 s2 i1 i2] is the [while] loop entered with the
    indices [i1] and [i2] not yet decremented. *)
Fixpoint strtailcmp_loop (s1 s2 : string) (i1 i2 : nat) : Z :=
  match i1, i2 with
  | S i1', S i2' =>
      if Ascii.eqb (char_at s1 i1') (char_at s2 i2')
      then strtailcmp_loop s1 s2 i1' i2'
      else char_to_int (char_at s1 i1') - char_to_int (char_at s2 i2')
  | _, _ => 0
  end.

Definition strtailcmp (s1 s2 : string) : Z :=
  strtailcmp_loop s1 s2 (strlen s1) (strlen s2).

(** [split_on sep cur s] cuts [s] at every [sep]; [cur] is the piece
    collected so far. *)
Fixpoint split_on (sep : ascii) (cur : string) (s : string) : list string :=
  match s with
  | EmptyString => [cur]
  | String c rest =>
      if Ascii.eqb c sep
      then cur :: split_on sep EmptyString rest
      else split_on sep (cur +:+ String c EmptyString) rest
  end.

(** A string of the embedding stands for a C string when it holds no NUL. *)
Fixpoint no_nul (s : string) : bool :=
  match s with
  | EmptyString => true
  | String c rest => negb (Ascii.eqb c zero) && no_nul rest
  end.

Definition opt_no_nul (o : option string) : bool :=
  match o with
  | Some s => no_nul s
  | None => true
  end.

(** ** The world: heap of reference nodes, allocator, log *)

(** Modelled from the spec: [struct kprobe_trace_arg_ref] of
    probe-event.h, one indirection frame of section 3.  A pointer to one is
    an index into the heap, NULL is [None]. *)
Record kprobe_trace_arg_ref := mk_ref {
  ref_next : option nat;
  ref_offset : Z
}.

Inductive log_level := LDebug | LInfo | LWarning | LErr.
Inductive log_arg := AStr (s : option string) | AInt (z : Z).
Record log_entry := mk_log {
  log_lvl : log_level;
  log_fmt : string;
  log_args : list log_arg
}.

Record World := mk_World {
  w_refs : list kprobe_trace_arg_ref;   (* the heap of reference nodes *)
  w_nalloc : nat;                        (* allocations requested so far *)
  w_log : list log_entry                 (* newest first *)
}.

(** The ways a run leaves defined C: a NULL pointer is read or written, an
    array or string is read or written outside its bounds, an [int]
    operation has a result that no [int] holds. *)
Inductive fault := NullDeref | OutOfBounds | SignedOverflow.

Inductive Outcome (A : Type) :=
| Done (a : A) (w : World)
| Crash (f : fault)
| OutOfFuel.
Arguments Done {A} a w.
Arguments Crash {A} f.
Arguments OutOfFuel {A}.

Definition M (A : Type) : Type := World -> Outcome A.

Definition ret {A} (a : A) : M A := fun w => Done a w.
Definition bind {A B} (m : M A) (k : A -> M B) : M B :=
  fun w => match m w with
           | Done a w' => k a w'
           | Crash f => Crash f
           | OutOfFuel => OutOfFuel
           end.
Definition crash {A} (f : fault) : M A := fun _ => Crash f.
Definition out_of_fuel {A} : M A := fun _ => OutOfFuel.

Notation "x <- m ;; k" := (bind m (fun x => k))
  (at level 100, m at level 99, k at level 200, right associativity).
Notation "m ;;; k" := (bind m (fun _ => k))
  (at level 100, k at level 200, right associativity).

(** The result [z] of a [+], [-] or [*] on two [int]s.  A result that does
    not fit an [int] is undefined in C: the run stops there, with no value. *)
Definition int_arith (z : Z) : M Z :=
  if (INT_MIN <=? z) && (z <=? INT_MAX) then ret z else crash SignedOverflow.

Definition pr (lvl : log_level) (fmt : string) (args : list log_arg) : M unit :=
  fun w => Done tt (mk_World (w_refs w) (w_nalloc w) (mk_log lvl fmt args :: w_log w)).
Definition pr_debug := pr LDebug.
Definition pr_debug2 := pr LDebug.
Definition pr_info := pr LInfo.
Definition pr_warning := pr LWarning.
Definition pr_err := pr LErr.

(** ** Injected collaborators: libc, the architecture, perf, libdw *)

Definition Dwarf_Addr := Z.
Definition Dwarf_Off := Z.

(** [Dwarf_Op]: one operation of a location expression. *)
Record Dwarf_Op := mk_op {
  atom : Z;
  number : Z;      (* Dwarf_Word *)
  number2 : Z      (* Dwarf_Word *)
}.

(** dwarf.h *)
Definition DW_OP_addr : Z := 0x03.
Definition DW_OP_plus_uconst : Z := 0x23.
Definition DW_OP_reg0 : Z := 0x50.
Definition DW_OP_reg31 : Z := 0x6f.
Definition DW_OP_breg0 : Z := 0x70.
Definition DW_OP_breg31 : Z := 0x8f.
Definition DW_OP_regx : Z := 0x90.
Definition DW_OP_fbreg : Z := 0x91.
Definition DW_OP_bregx : Z := 0x92.
Definition DW_OP_call_frame_cfa : Z := 0x9c.

Definition DW_TAG_array_type : Z := 0x01.
Definition DW_TAG_formal_parameter : Z := 0x05.
Definition DW_TAG_member : Z := 0x0d.
Definition DW_TAG_pointer_type : Z := 0x0f.
Definition DW_TAG_structure_type : Z := 0x13.
Definition DW_TAG_typedef : Z := 0x16.
Definition DW_TAG_inlined_subroutine : Z := 0x1d.
Definition DW_TAG_base_type : Z := 0x24.
Definition DW_TAG_const_type : Z := 0x26.
Definition DW_TAG_subprogram : Z := 0x2e.
Definition DW_TAG_variable : Z := 0x34.
Definition DW_TAG_volatile_type : Z := 0x35.
Definition DW_TAG_restrict_type : Z := 0x37.
Definition DW_TAG_shared_type : Z := 0x40.

Definition DW_ATE_signed : Z := 0x5.
Definition DW_ATE_signed_char : Z := 0x6.
Definition DW_ATE_signed_fixed : Z := 0xd.

(** libdw.h *)
Definition DWARF_CB_OK : Z := 0.
Definition DWARF_CB_ABORT : Z := 1.

(** What [DW_AT_data_member_location] holds: a constant that
    [dwarf_formudata] reads, or a block for [dwarf_getlocation] ([None]
    when that call fails). *)
Inductive member_location :=
| MemberUdata (offs : Z)
| MemberExpr (expr : option (list Dwarf_Op)).

(** A DIE as libdw shows it: each field is the answer of the libdw call
    of that name on the DIE, [None] standing for its failure. *)
Inductive Dwarf_Die := mk_Dwarf_Die {
  dwarf_dieoffset : Dwarf_Off;
  dwarf_tag : Z;
  dwarf_diename : option string;
  at_type : option Dwarf_Off;             (* dwarf_attr DW_AT_type *)
  at_byte_size : option Z;                (* DW_AT_byte_size, dwarf_formudata *)
  at_encoding : option Z;                 (* DW_AT_encoding, dwarf_formudata *)
  at_data_member_location : option member_location;
  (* dwarf_attr DW_AT_location, then dwarf_getlocation_addr (.., 1): the
     operations of the first expression that covers the address; [None]
     when the attribute is missing or the call returns [<= 0] *)
  at_location : Dwarf_Addr -> option (list Dwarf_Op);
  at_frame_base : Dwarf_Addr -> option (list Dwarf_Op);
  dwarf_haspc : Dwarf_Addr -> Z;
  dwarf_entrypc : option Dwarf_Addr;
  dwarf_decl_line : option Z;
  die_children : list Dwarf_Die           (* dwarf_child, dwarf_siblingof *)
}.

(** [Dwarf_Line] *)
Record Dwarf_Line := mk_line {
  dwarf_lineaddr : option Dwarf_Addr;
  dwarf_lineno : option Z;
  dwarf_linesrc : option string
}.

(** [Dwarf *]: an opened debug-info file. *)
Record Dwarf := mk_Dwarf {
  dwarf_addrdie : Dwarf_Addr -> option Dwarf_Die;
  dwarf_getsrc_die : Dwarf_Die -> Dwarf_Addr -> option Dwarf_Line
}.

(** [Dwarf_CFI *]: [dwarf_cfi_addrframe] followed by [dwarf_frame_cfa];
    [None] when either fails. *)
Definition Dwarf_CFI := Dwarf_Addr -> option (list Dwarf_Op).

(** Modelled from the spec: the structures of probe-event.h, a header that
    is not part of this file.  [perf_probe_arg_field] is the FieldStep of
    section 3, [perf_probe_arg] the ArgSpec, [perf_probe_point] and
    [perf_probe_event] the ProbeRequest, [kprobe_trace_arg] the TraceArg
    and [kprobe_trace_event] the ProbeResult; the members are the ones
    that probe-finder.c reads and writes. *)
Inductive perf_probe_arg_field := mk_field {
  field_next : option perf_probe_arg_field;   (* Next field *)
  field_name : string;                        (* Name of the field *)
  field_index : Z;                            (* Array index number (long) *)
  field_ref : bool                            (* Referencing flag *)
}.

Record perf_probe_arg := mk_parg {
  parg_name : option string;                  (* Argument name *)
  parg_var : string;                          (* Variable name *)
  parg_type : option string;                  (* Type name *)
  parg_field : option perf_probe_arg_field    (* Structure fields *)
}.

Record perf_probe_point := mk_ppoint {
  pp_file : option string;
  pp_function : option string;
  pp_line : Z;                                (* int *)
  pp_retprobe : bool;
  pp_lazy_line : option string;
  pp_offset : Z                               (* unsigned long *)
}.

Record perf_probe_event := mk_pev {
  pev_point : perf_probe_point;
  pev_nargs : Z;
  pev_args : list perf_probe_arg
}.

Record kprobe_trace_point := mk_tpoint {
  tp_symbol : option string;
  tp_offset : Z;                              (* unsigned long *)
  tp_retprobe : bool
}.

Record kprobe_trace_arg := mk_targ {
  targ_name : option string;
  targ_value : option string;
  targ_type : option string;
  targ_ref : option nat                       (* struct kprobe_trace_arg_ref * *)
}.

Record kprobe_trace_event := mk_tev {
  tev_point : kprobe_trace_point;
  tev_nargs : Z;
  tev_args : option (list kprobe_trace_arg)
}.

(** A source file as [open], [fstat] and [read] show it. *)
Record file := mk_file {
  f_fstat_errno : option Z;     (* errno of a failing fstat *)
  f_read_errno : option Z;      (* errno of a failing read *)
  f_data : string               (* the st_size bytes that read delivers *)
}.

Record Env := mk_Env {
  (* libc *)
  alloc_ok : nat -> bool;       (* does the k-th allocation succeed? *)
  access_R_OK : string -> Z;    (* 0, or the errno of access(path, R_OK) *)
  sys_open : string -> Z + file;  (* O_RDONLY: errno or the file *)
  (* symbol_conf.source_prefix *)
  source_prefix : option string;
  (* dwarf-regs.h *)
  get_arch_regstr : Z -> option string;
  (* util/string.c, probe-event.c *)
  strlazymatch : string -> string -> bool;
  is_c_varname : string -> bool;
  synthesize_perf_probe_arg : perf_probe_arg -> Z * string;
  (* libdw *)
  dwarf_begin : Z -> option Dwarf;
  dwarf_formref_die : Dwarf_Off -> option Dwarf_Die;
  dwarf_getscopes_die : Dwarf_Die -> option (list Dwarf_Die);
  dwarf_getscopevar : list Dwarf_Die -> string -> option Dwarf_Die;
  (* how many qualifier or typedef links die_get_real_type may follow *)
  type_chain_bound : nat
}.

(** Modelled from the spec: [struct probe_finder] of probe-finder.h, a
    header that is not part of this file; the members are the ones that
    the functions below use.  [pvar] and [tvar] point to the argument
    being converted; the pointee is kept in the field, and
    [convert_probe_point] stores [tvar] back into [args[i]] of the event
    it belongs to. *)
Record probe_finder := mk_pf {
  pf_pev : perf_probe_event;            (* Target probe event *)
  pf_tevs : list kprobe_trace_event;    (* Result trace events *)
  pf_ntevs : Z;                         (* Number of trace events *)
  pf_max_tevs : Z;                      (* Max number of trace events *)
  pf_lno : Z;                           (* Line number *)
  pf_addr : Dwarf_Addr;                 (* Address *)
  pf_fname : option string;             (* Real file name *)
  pf_cu_die : Dwarf_Die;                (* Current CU *)
  pf_lcache : list Z;                   (* Line cache for lazy match *)
  pf_cfi : option Dwarf_CFI;            (* Call Frame Information *)
  pf_fb_ops : option (list Dwarf_Op);   (* Frame base attribute *)
  pf_pvar : perf_probe_arg;             (* Current target variable *)
  pf_tvar : kprobe_trace_arg            (* Current result variable *)
}.

Definition set_tevs (pf : probe_finder) (v : list kprobe_trace_event) :=
  mk_pf (pf_pev pf) v (pf_ntevs pf) (pf_max_tevs pf) (pf_lno pf) (pf_addr pf)
        (pf_fname pf) (pf_cu_die pf) (pf_lcache pf) (pf_cfi pf) (pf_fb_ops pf)
        (pf_pvar pf) (pf_tvar pf).
Definition set_ntevs (pf : probe_finder) (v : Z) :=
  mk_pf (pf_pev pf) (pf_tevs pf) v (pf_max_tevs pf) (pf_lno pf) (pf_addr pf)
        (pf_fname pf) (pf_cu_die pf) (pf_lcache pf) (pf_cfi pf) (pf_fb_ops pf)
        (pf_pvar pf) (pf_tvar pf).
Definition set_fb_ops (pf : probe_finder) (v : option (list Dwarf_Op)) :=
  mk_pf (pf_pev pf) (pf_tevs pf) (pf_ntevs pf) (pf_max_tevs pf) (pf_lno pf)
        (pf_addr pf) (pf_fname pf) (pf_cu_die pf) (pf_lcache pf) (pf_cfi pf) v
        (pf_pvar pf) (pf_tvar pf).
Definition set_pvar (pf : probe_finder) (v : perf_probe_arg) :=
  mk_pf (pf_pev pf) (pf_tevs pf) (pf_ntevs pf) (pf_max_tevs pf) (pf_lno pf)
        (pf_addr pf) (pf_fname pf) (pf_cu_die pf) (pf_lcache pf) (pf_cfi pf)
        (pf_fb_ops pf) v (pf_tvar pf).
Definition set_tvar (pf : probe_finder) (v : kprobe_trace_arg) :=
  mk_pf (pf_pev pf) (pf_tevs pf) (pf_ntevs pf) (pf_max_tevs pf) (pf_lno pf)
        (pf_addr pf) (pf_fname pf) (pf_cu_die pf) (pf_lcache pf) (pf_cfi pf)
        (pf_fb_ops pf) (pf_pvar pf) v.

Definition set_targ_name (t : kprobe_trace_arg) (v : option string) :=
  mk_targ v (targ_value t) (targ_type t) (targ_ref t).
Definition set_targ_value (t : kprobe_trace_arg) (v : option string) :=
  mk_targ (targ_name t) v (targ_type t) (targ_ref t).
Definition set_targ_type (t : kprobe_trace_arg) (v : option string) :=
  mk_targ (targ_name t) (targ_value t) v (targ_ref t).
Definition set_targ_ref (t : kprobe_trace_arg) (v : option nat) :=
  mk_targ (targ_name t) (targ_value t) (targ_type t) v.

Definition set_ppt_file (p : perf_probe_point) (v : option string) :=
  mk_ppoint v (pp_function p) (pp_line p) (pp_retprobe p) (pp_lazy_line p)
            (pp_offset p).
Definition set_ppt_function (p : perf_probe_point) (v : option string) :=
  mk_ppoint (pp_file p) v (pp_line p) (pp_retprobe p) (pp_lazy_line p)
            (pp_offset p).
Definition set_ppt_line (p : perf_probe_point) (v : Z) :=
  mk_ppoint (pp_file p) (pp_function p) v (pp_retprobe p) (pp_lazy_line p)
            (pp_offset p).
Definition set_ppt_offset (p : perf_probe_point) (v : Z) :=
  mk_ppoint (pp_file p) (pp_function p) (pp_line p) (pp_retprobe p)
            (pp_lazy_line p) v.

(** A zeroed [struct kprobe_trace_event], as [zalloc] leaves it. *)
Definition tev_zero : kprobe_trace_event :=
  mk_tev (mk_tpoint None 0 false) 0 None.
Definition targ_zero : kprobe_trace_arg := mk_targ None None None None.

Section Finder.

Variable env : Env.

(** *** Allocation *)

(** Every [malloc], [zalloc] and [strdup] asks the allocator once. *)
Definition alloc : M bool :=
  fun w => Done (alloc_ok env (w_nalloc w))
                (mk_World (w_refs w) (S (w_nalloc w)) (w_log w)).

Definition strdup (s : string) : M (option string) :=
  ok <- alloc ;; ret (if ok then Some s else None).

(** [zalloc(sizeof(struct kprobe_trace_arg_ref))]: a fresh zeroed node. *)
Definition zalloc_ref : M (option nat) :=
  ok <- alloc ;;
  if ok then
    fun w => Done (Some (length (w_refs w)))
                  (mk_World (w_refs w ++ [mk_ref None 0]) (w_nalloc w) (w_log w))
  else ret None.

(** [ref->offset = v], [ref->offset += v], [ref->next = n]. *)
Definition ref_update (ref : option nat)
    (f : kprobe_trace_arg_ref -> kprobe_trace_arg_ref) : M unit :=
  fun w =>
    match ref with
    | None => Crash NullDeref
    | Some a =>
        match w_refs w !! a with
        | None => Crash OutOfBounds
        | Some node =>
            Done tt (mk_World (<[a := f node]> (w_refs w)) (w_nalloc w) (w_log w))
        end
    end.

Definition ref_set_offset (ref : option nat) (v : Z) : M unit :=
  ref_update ref (fun n => mk_ref (ref_next n) v).
Definition ref_add_offset (ref : option nat) (v : Z) : M unit :=
  ref_update ref (fun n => mk_ref (ref_next n) (to_long (ref_offset n + v))).
Definition ref_set_next (ref : option nat) (nx : option nat) : M unit :=
  ref_update ref (fun n => mk_ref nx (ref_offset n)).

(** *** get_real_path *)

(** One turn of the [for (;;)] loop of [get_real_path]: either the
    function returns, or the loop continues with a new [raw_path]. *)
Inductive path_step :=
| PathReturn (r : Z) (new_path : option string)
| PathRetry (raw_path : string)
| PathFault.

Definition get_real_path_step (prefix raw_path : string) : path_step :=
  (* sprintf of "%s/%s" with symbol_conf.source_prefix and raw_path *)
  let new_path := prefix +:+ "/" +:+ raw_path in
  let errno := access_R_OK env new_path in
  if errno =? 0 then PathReturn 0 (Some new_path)
  else if (errno =? ENAMETOOLONG) || (errno =? ENOENT) ||
          (errno =? EROFS) || (errno =? EFAULT) then
    (* raw_path = strchr(++raw_path, '/') *)
    match raw_path with
    | EmptyString => PathFault       (* ++raw_path steps over the NUL *)
    | String _ raw_path1 =>
        match strchr raw_path1 "/"%char with
        | None => PathReturn (- ENOENT) None
        | Some raw_path' => PathRetry raw_path'
        end
    end
  else PathReturn (- errno) None.

Fixpoint get_real_path_loop (fuel : nat) (prefix raw_path : string)
  : M (Z * option string) :=
  match fuel with
  | O => out_of_fuel
  | S fuel' =>
      match get_real_path_step prefix raw_path with
      | PathReturn r new_path => ret (r, new_path)
      | PathRetry raw_path' => get_real_path_loop fuel' prefix raw_path'
      | PathFault => crash OutOfBounds
      end
  end.

(** Find a src file from a DWARF tag path.  The result pairs the return
    value with what is left in [*new_path]; [fuel] bounds the number of
    turns of the loop. *)
Definition get_real_path (fuel : nat) (raw_path : string)
  : M (Z * option string) :=
  match source_prefix env with
  | None =>
      let errno := access_R_OK env raw_path in
      if errno =? 0 then
        new_path <- strdup raw_path ;;
        ret (0, new_path)
      else ret (- errno, None)
  | Some prefix =>
      ok <- alloc ;;
      if negb ok then ret (- ENOMEM, None)
      else get_real_path_loop fuel prefix raw_path
  end.

(** *** Line number list operations *)

(** The list is kept from head to tail.  [line_list__search r line] walks
    the nodes from the tail ([r] is the list reversed) and answers [None]
    when [line] already exists, and else how many nodes stay behind the
    new one. *)
Fixpoint line_list__search (r : list Z) (line : Z) : option nat :=
  match r with
  | [] => Some O                              (* p = head *)
  | ln :: r' =>
      if ln <? line then Some O               (* p = &ln->list *)
      else if ln =? line then None            (* Already exist *)
      else option_map S (line_list__search r' line)
  end.

(** Add a line to line number list *)
Definition line_list__add_line (head : list Z) (line : Z)
  : M (Z * list Z) :=
  match line_list__search (rev head) line with
  | None => ret (1, head)
  | Some behind =>
      pr_debug "line list: add a line %u\n" [AInt line] ;;;
      ok <- alloc ;;
      if negb ok then ret (- ENOMEM, head)
      else
        let p := (length head - behind)%nat in
        ret (0, take p head ++ line :: drop p head)
  end.

(** Check if the line in line number list *)
Fixpoint line_list__has_line (head : list Z) (line : Z) : Z :=
  match head with
  | [] => 0
  | ln :: rest => if ln =? line then 1 else line_list__has_line rest line
  end.

(** *** Dwarf wrappers *)

(** A C [int] used where a [bool] is expected. *)
Definition int_to_bool (z : Z) : bool := negb (z =? 0).
Definition bool_to_int (b : bool) : Z := if b then 1 else 0.

(** Compare diename and tname *)
Definition die_compare_name (dw_die : Dwarf_Die) (tname : string) : bool :=
  let name := dwarf_diename dw_die in
  int_to_bool (match name with
               | Some name => strcmp tname name
               | None => -1
               end).

Definition is_qualifier_tag (tag : Z) : bool :=
  (tag =? DW_TAG_const_type) || (tag =? DW_TAG_restrict_type) ||
  (tag =? DW_TAG_volatile_type) || (tag =? DW_TAG_shared_type) ||
  (tag =? DW_TAG_typedef).

(** Get type die, but skip qualifiers and typedef.  [fuel] turns of the
    [do ... while] loop are allowed. *)
Fixpoint die_get_real_type_loop (fuel : nat) (vr_die : Dwarf_Die)
  : M (option Dwarf_Die) :=
  match fuel with
  | O => out_of_fuel
  | S fuel' =>
      match at_type vr_die with
      | None => ret None
      | Some off =>
          match dwarf_formref_die env off with
          | None => ret None
          | Some die_mem =>
              let tag := dwarf_tag die_mem in
              if is_qualifier_tag tag
              then die_get_real_type_loop fuel' die_mem
              else ret (Some die_mem)
          end
      end
  end.

Definition die_get_real_type (vr_die : Dwarf_Die) : M (option Dwarf_Die) :=
  die_get_real_type_loop (type_chain_bound env) vr_die.

Definition die_is_signed_type (tp_die : Dwarf_Die) : bool :=
  match at_encoding tp_die with
  | None => false
  | Some r =>
      (r =? DW_ATE_signed_char) || (r =? DW_ATE_signed) ||
      (r =? DW_ATE_signed_fixed)
  end.

Definition die_get_byte_size (tp_die : Dwarf_Die) : Z :=
  match at_byte_size tp_die with
  | None => 0
  | Some r => to_int r
  end.

(** Get data_member_location offset: the return value and [*offs]. *)
Definition die_get_data_member_location (mb_die : Dwarf_Die)
  : M (Z * option Z) :=
  match at_data_member_location mb_die with
  | None => ret (- ENOENT, None)
  | Some (MemberUdata offs) => ret (0, Some offs)
  | Some (MemberExpr None) => ret (- ENOENT, None)
  | Some (MemberExpr (Some [])) => ret (- ENOENT, None)
  | Some (MemberExpr (Some (e0 :: rest))) =>
      (* DW_AT_data_member_location should be DW_OP_plus_uconst *)
      if negb (atom e0 =? DW_OP_plus_uconst) ||
         negb (Z.of_nat (length (e0 :: rest)) =? 1) then
        pr_debug "Unable to get offset:Unexpected OP %x (%zd)\n"
                 [AInt (atom e0); AInt (Z.of_nat (length (e0 :: rest)))] ;;;
        ret (- ENOTSUP, None)
      else ret (0, Some (to_Dwarf_Word (number e0)))
  end.

(** Return values for die_find callbacks *)
Definition DIE_FIND_CB_FOUND : Z := 0.      (* End of Search *)
Definition DIE_FIND_CB_CHILD : Z := 1.      (* Search only children *)
Definition DIE_FIND_CB_SIBLING : Z := 2.    (* Search only siblings *)
Definition DIE_FIND_CB_CONTINUE : Z := 3.   (* Search children and siblings *)

(** Search a child die.  The inner loop is the [do ... while] over the
    siblings, entered at the first child. *)
Fixpoint die_find_child (rt_die : Dwarf_Die) (callback : Dwarf_Die -> Z)
  : option Dwarf_Die :=
  (fix siblings (dies : list Dwarf_Die) : option Dwarf_Die :=
     match dies with
     | [] => None
     | die_mem :: rest =>
         let r := callback die_mem in
         if r =? DIE_FIND_CB_FOUND then Some die_mem
         else
           match (if int_to_bool (Z.land r DIE_FIND_CB_CHILD)
                  then die_find_child die_mem callback else None) with
           | Some child_die => Some child_die
           | None =>
               if int_to_bool (Z.land r DIE_FIND_CB_SIBLING)
               then siblings rest else None
           end
     end) (die_children rt_die).

(** libdw's [dwarf_getfuncs (cudie, callback, arg, 0)]: the callback runs
    on the DW_TAG_subprogram children of the CU until it asks to stop; the
    result is 0 when all were visited and a non-zero resume offset (1
    here) when the callback stopped the walk. *)
Fixpoint dwarf_getfuncs_from {S : Type} (dies : list Dwarf_Die)
    (callback : Dwarf_Die -> S -> Z * S) (arg : S) : Z * S :=
  match dies with
  | [] => (0, arg)
  | die :: rest =>
      if dwarf_tag die =? DW_TAG_subprogram then
        let '(r, arg') := callback die arg in
        if r =? DWARF_CB_OK then dwarf_getfuncs_from rest callback arg'
        else (1, arg')
      else dwarf_getfuncs_from rest callback arg
  end.

Definition dwarf_getfuncs {S : Type} (cu_die : Dwarf_Die)
    (callback : Dwarf_Die -> S -> Z * S) (arg : S) : Z * S :=
  dwarf_getfuncs_from (die_children cu_die) callback arg.

(** [struct __addr_die_search_param]: [ad_die_mem] is what [*die_mem]
    holds. *)
Record addr_die_search_param := mk_ad {
  ad_addr : Dwarf_Addr;
  ad_die_mem : option Dwarf_Die
}.

Definition __die_search_func_cb (fn_die : Dwarf_Die)
    (ad : addr_die_search_param) : Z * addr_die_search_param :=
  if (dwarf_tag fn_die =? DW_TAG_subprogram) &&
     int_to_bool (dwarf_haspc fn_die (ad_addr ad))
  then (DWARF_CB_ABORT, mk_ad (ad_addr ad) (Some fn_die))
  else (DWARF_CB_OK, ad).

(** Search a real subprogram including this line, *)
Definition die_find_real_subprogram (cu_die : Dwarf_Die) (addr : Dwarf_Addr)
  : option Dwarf_Die :=
  let ad := mk_ad addr None in
  (* dwarf_getscopes can't find subprogram. *)
  let '(r, ad) := dwarf_getfuncs cu_die __die_search_func_cb ad in
  if negb (int_to_bool r) then None
  else ad_die_mem ad.

(** die_find callback for inline function search *)
Definition __die_find_inline_cb (addr : Dwarf_Addr) (die_mem : Dwarf_Die) : Z :=
  if (dwarf_tag die_mem =? DW_TAG_inlined_subroutine) &&
     int_to_bool (dwarf_haspc die_mem addr)
  then DIE_FIND_CB_FOUND
  else DIE_FIND_CB_CONTINUE.

(** Similar to dwarf_getfuncs, but returns inlined_subroutine if exists. *)
Definition die_find_inlinefunc (sp_die : Dwarf_Die) (addr : Dwarf_Addr)
  : option Dwarf_Die :=
  die_find_child sp_die (__die_find_inline_cb addr).

Definition __die_find_variable_cb (name : string) (die_mem : Dwarf_Die) : Z :=
  let tag := dwarf_tag die_mem in
  if ((tag =? DW_TAG_formal_parameter) || (tag =? DW_TAG_variable)) &&
     (bool_to_int (die_compare_name die_mem name) =? 0)
  then DIE_FIND_CB_FOUND
  else DIE_FIND_CB_CONTINUE.

(** Find a variable called 'name' *)
Definition die_find_variable (sp_die : Dwarf_Die) (name : string)
  : option Dwarf_Die :=
  die_find_child sp_die (__die_find_variable_cb name).

Definition __die_find_member_cb (name : string) (die_mem : Dwarf_Die) : Z :=
  if (dwarf_tag die_mem =? DW_TAG_member) &&
     (bool_to_int (die_compare_name die_mem name) =? 0)
  then DIE_FIND_CB_FOUND
  else DIE_FIND_CB_SIBLING.

(** Find a member called 'name' *)
Definition die_find_member (st_die : Dwarf_Die) (name : string)
  : option Dwarf_Die :=
  die_find_child st_die (__die_find_member_cb name).

(** *** Probe finder related functions *)

Definition alloc_trace_arg_ref (offs : Z) : M (option nat) :=
  ref <- zalloc_ref ;;
  match ref with
  | Some _ => ref_set_offset ref offs ;;; ret ref
  | None => ret None
  end.

(** The register operand of a location: the chain of tests on
    [op->atom], giving [regn], [offs] and [ref], or nothing for an
    operation that is not supported. *)
Definition location_register (op : Dwarf_Op) (offs : Z) (ref : bool)
  : option (Z * Z * bool) :=
  if (DW_OP_breg0 <=? atom op) && (atom op <=? DW_OP_breg31) then
    Some (to_uint (atom op - DW_OP_breg0),
          to_Dwarf_Word (offs + number op), true)
  else if (DW_OP_reg0 <=? atom op) && (atom op <=? DW_OP_reg31) then
    Some (to_uint (atom op - DW_OP_reg0), offs, ref)
  else if atom op =? DW_OP_bregx then
    Some (to_uint (number op), to_Dwarf_Word (offs + number2 op), true)
  else if atom op =? DW_OP_regx then
    Some (to_uint (number op), offs, ref)
  else None.

(** Show a location *)
Definition convert_variable_location (vr_die : Dwarf_Die) (pf : probe_finder)
  : M (Z * probe_finder) :=
  let tvar := pf_tvar pf in
  (* TODO: handle more than 1 exprs *)
  match at_location vr_die (pf_addr pf) with
  | None | Some [] =>
      (* TODO: Support const_value *)
      pr_err ("Failed to find the location of %s at this address.\n" +:+
              " Perhaps, it has been optimized out.\n")
             [AStr (Some (parg_var (pf_pvar pf)))] ;;;
      ret (- ENOENT, pf)
  | Some (op :: _) =>
      if atom op =? DW_OP_addr then
        (* Static variables on memory (not stack), make @varname *)
        match dwarf_diename vr_die with
        | None => crash NullDeref
        | Some name =>
            ok <- alloc ;;
            if negb ok then ret (- ENOMEM, set_tvar pf (set_targ_value tvar None))
            else
              let tvar := set_targ_value tvar (Some ("@" +:+ name)) in
              ref <- alloc_trace_arg_ref (to_long 0) ;;
              let tvar := set_targ_ref tvar ref in
              match ref with
              | None => ret (- ENOMEM, set_tvar pf tvar)
              | Some _ => ret (0, set_tvar pf tvar)
              end
        end
      else
        (* If this is based on frame buffer, set the offset *)
        fb <- (if atom op =? DW_OP_fbreg then
                 match pf_fb_ops pf with
                 | None =>
                     pr_warning ("The attribute of frame base is not " +:+
                                 "supported.\n") [] ;;;
                     ret (inl (- ENOTSUP))
                 | Some [] => crash OutOfBounds
                 | Some (fb0 :: _) =>
                     ret (inr (true, to_Dwarf_Word (number op), fb0))
                 end
               else ret (inr (false, 0, op))) ;;
        match fb with
        | inl r => ret (r, pf)
        | inr (ref, offs, op) =>
            match location_register op offs ref with
            | None =>
                pr_warning "DW_OP %x is not supported.\n" [AInt (atom op)] ;;;
                ret (- ENOTSUP, pf)
            | Some (regn, offs, ref) =>
                let regs := get_arch_regstr env regn in
                match regs with
                | None =>
                    pr_warning ("Mapping for DWARF register number %u " +:+
                                "missing on this architecture.")
                               [AInt regn] ;;;
                    ret (- ERANGE, pf)
                | Some regs =>
                    value <- strdup regs ;;
                    let tvar := set_targ_value tvar value in
                    match value with
                    | None => ret (- ENOMEM, set_tvar pf tvar)
                    | Some _ =>
                        if ref then
                          r <- alloc_trace_arg_ref (to_long offs) ;;
                          let tvar := set_targ_ref tvar r in
                          match r with
                          | None => ret (- ENOMEM, set_tvar pf tvar)
                          | Some _ => ret (0, set_tvar pf tvar)
                          end
                        else ret (0, set_tvar pf tvar)
                    end
                end
            end
        end
  end.

Definition convert_variable_type (vr_die : Dwarf_Die) (targ : kprobe_trace_arg)
  : M (Z * kprobe_trace_arg) :=
  type <- die_get_real_type vr_die ;;
  match type with
  | None =>
      pr_warning "Failed to get a type information of %s.\n"
                 [AStr (dwarf_diename vr_die)] ;;;
      ret (- ENOENT, targ)
  | Some type =>
      pr_debug "%s type is %s.\n"
               [AStr (dwarf_diename vr_die); AStr (dwarf_diename type)] ;;;
      r <- int_arith (die_get_byte_size type * 8) ;;
      if int_to_bool r then
        (* Check the bitwidth *)
        r <- (if r >? MAX_BASIC_TYPE_BITS then
                pr_info ("%s exceeds max-bitwidth." +:+
                         " Cut down to %d bits.\n")
                        [AStr (dwarf_diename type); AInt MAX_BASIC_TYPE_BITS] ;;;
                ret MAX_BASIC_TYPE_BITS
              else ret r) ;;
        (* snprintf(buf, 16, "%c%d", ...) *)
        let buf := (if die_is_signed_type type then "s" else "u") +:+ fmt_d r in
        let r := Z.of_nat (strlen buf) in
        if (r <? 0) || (r >=? 16) then
          let r := if r >=? 16 then - E2BIG else r in
          pr_warning "Failed to convert variable type: %s\n" [AInt (- r)] ;;;
          ret (r, targ)
        else
          t <- strdup buf ;;
          let targ := set_targ_type targ t in
          match t with
          | None => ret (- ENOMEM, targ)
          | Some _ => ret (0, targ)
          end
      else ret (0, targ)
  end.

(** [zalloc] of a new reference node and its linking:
    [if ( *ref_ptr) ( *ref_ptr)->next = ref; else *ref_ptr = ref;].
    The result is the new [ref] and the new [*ref_ptr]; a NULL [ref]
    makes the caller return [-ENOMEM]. *)
Definition link_new_ref (ref_ptr : option nat) : M (option nat * option nat) :=
  ref <- zalloc_ref ;;
  match ref with
  | None => ret (None, ref_ptr)
  | Some _ =>
      match ref_ptr with
      | Some _ => ref_set_next ref_ptr ref ;;; ret (ref, ref_ptr)
      | None => ret (ref, ref)
      end
  end.

(** The first byte of a name; NUL for the empty name. *)
Definition name0 (s : string) : ascii := char_at s 0.

(** [convert_variable_fields vr_die varname field ref_ptr] gives the
    return value, what [*ref_ptr] holds afterwards, and what [*die_mem]
    holds ([None] while nothing was stored there).  The recursive call
    receives the address of the local [ref], so what it leaves there is
    dropped. *)
Fixpoint convert_variable_fields (vr_die : Dwarf_Die) (varname : string)
    (field : perf_probe_arg_field) (ref_ptr : option nat) {struct field}
  : M (Z * option nat * option Dwarf_Die) :=
  let ref := ref_ptr in
  (* next: Converting next field *)
  let next (ref_ptr : option nat) (ref : option nat) (die_mem : Dwarf_Die)
    : M (Z * option nat * option Dwarf_Die) :=
    match field_next field with
    | Some field' =>
        r <- convert_variable_fields die_mem (field_name field) field' ref ;;
        let '(r, _, die_mem') := r in
        ret (r, ref_ptr, die_mem')
    | None => ret (0, ref_ptr, Some die_mem)
    end in
  (* the member lookup shared by the pointer and the structure branch *)
  let member (type : Dwarf_Die) (ref_ptr : option nat) (ref : option nat)
    : M (Z * option nat * option Dwarf_Die) :=
    match die_find_member type (field_name field) with
    | None =>
        pr_warning "%s(tyep:%s) has no member %s.\n"
                   [AStr (Some varname); AStr (dwarf_diename type);
                    AStr (Some (field_name field))] ;;;
        ret (- EINVAL, ref_ptr, None)
    | Some die_mem =>
        (* Get the offset of the field *)
        r <- die_get_data_member_location die_mem ;;
        let '(r, offs) := r in
        if r <? 0 then
          pr_warning "Failed to get the offset of %s.\n"
                     [AStr (Some (field_name field))] ;;;
          ret (r, ref_ptr, Some die_mem)
        else
          ref_add_offset ref (to_long (default 0 offs)) ;;;
          next ref_ptr ref die_mem
    end in
  pr_debug "converting %s in %s\n"
           [AStr (Some (field_name field)); AStr (Some varname)] ;;;
  type <- die_get_real_type vr_die ;;
  match type with
  | None =>
      pr_warning "Failed to get the type of %s.\n" [AStr (Some varname)] ;;;
      ret (- ENOENT, ref_ptr, None)
  | Some type =>
      pr_debug2 "Var real type: (%x)\n" [AInt (to_uint (dwarf_dieoffset type))] ;;;
      let tag := dwarf_tag type in
      if Ascii.eqb (name0 (field_name field)) "["%char &&
         ((tag =? DW_TAG_array_type) || (tag =? DW_TAG_pointer_type)) then
        (* Save original type for next field *)
        let die_mem := match field_next field with
                       | Some _ => Some type
                       | None => None
                       end in
        (* Get the type of this array *)
        type' <- die_get_real_type type ;;
        match type' with
        | None =>
            pr_warning "Failed to get the type of %s.\n" [AStr (Some varname)] ;;;
            ret (- ENOENT, ref_ptr, die_mem)
        | Some type =>
            pr_debug2 "Array real type: (%x)\n"
                      [AInt (to_uint (dwarf_dieoffset type))] ;;;
            lk <- (if tag =? DW_TAG_pointer_type then
                     l <- link_new_ref ref_ptr ;;
                     let '(ref, ref_ptr) := l in
                     match ref with
                     | None => ret (inl (- ENOMEM))
                     | Some _ => ret (inr (ref, ref_ptr))
                     end
                   else ret (inr (ref, ref_ptr))) ;;
            match lk with
            | inl r => ret (r, ref_ptr, die_mem)
            | inr (ref, ref_ptr) =>
                ref_add_offset ref
                  (to_long (die_get_byte_size type * field_index field)) ;;;
                match die_mem with
                | Some die_mem => next ref_ptr ref die_mem
                | None =>
                    (* Save vr_die for converting types *)
                    next ref_ptr ref vr_die
                end
            end
        end
      else if tag =? DW_TAG_pointer_type then
        (* Check the pointer and dereference *)
        if negb (field_ref field) then
          pr_err "Semantic error: %s must be referred by '->'\n"
                 [AStr (Some (field_name field))] ;;;
          ret (- EINVAL, ref_ptr, None)
        else
          (* Get the type pointed by this pointer *)
          type' <- die_get_real_type type ;;
          match type' with
          | None =>
              pr_warning "Failed to get the type of %s.\n"
                         [AStr (Some varname)] ;;;
              ret (- ENOENT, ref_ptr, None)
          | Some type =>
              (* Verify it is a data structure  *)
              if negb (dwarf_tag type =? DW_TAG_structure_type) then
                pr_warning "%s is not a data structure.\n"
                           [AStr (Some varname)] ;;;
                ret (- EINVAL, ref_ptr, None)
              else
                l <- link_new_ref ref_ptr ;;
                let '(ref, ref_ptr) := l in
                match ref with
                | None => ret (- ENOMEM, ref_ptr, None)
                | Some _ => member type ref_ptr ref
                end
          end
      else
        (* Verify it is a data structure  *)
        if negb (tag =? DW_TAG_structure_type) then
          pr_warning "%s is not a data structure.\n" [AStr (Some varname)] ;;;
          ret (- EINVAL, ref_ptr, None)
        else if Ascii.eqb (name0 (field_name field)) "["%char then
          pr_err "Semantic error: %s is not a pointor nor array."
                 [AStr (Some varname)] ;;;
          ret (- EINVAL, ref_ptr, None)
        else if field_ref field then
          pr_err "Semantic error: %s must be referred by '.'\n"
                 [AStr (Some (field_name field))] ;;;
          ret (- EINVAL, ref_ptr, None)
        else
          match ref with
          | None =>
              pr_warning ("Structure on a register is not " +:+
                          "supported yet.\n") [] ;;;
              ret (- ENOTSUP, ref_ptr, None)
          | Some _ => member type ref_ptr ref
          end
  end.

(** Show a variables in kprobe event format *)
Definition convert_variable (vr_die : Dwarf_Die) (pf : probe_finder)
  : M (Z * probe_finder) :=
  pr_debug "Converting variable %s into trace event.\n"
           [AStr (dwarf_diename vr_die)] ;;;
  r <- convert_variable_location vr_die pf ;;
  let '(r, pf) := r in
  s <- match parg_field (pf_pvar pf) with
       | Some field =>
           if r =? 0 then
             x <- convert_variable_fields vr_die (parg_var (pf_pvar pf)) field
                    (targ_ref (pf_tvar pf)) ;;
             let '(r, ref, die_mem) := x in
             ret (r, set_tvar pf (set_targ_ref (pf_tvar pf) ref), die_mem)
           else ret (r, pf, Some vr_die)
       | None => ret (r, pf, Some vr_die)
       end ;;
  let '(r, pf, vr_die) := s in
  if r =? 0 then
    match parg_type (pf_pvar pf) with
    | Some type =>
        t <- strdup type ;;
        let pf := set_tvar pf (set_targ_type (pf_tvar pf) t) in
        match t with
        | None => ret (- ENOMEM, pf)
        | Some _ => ret (r, pf)
        end
    | None =>
        match vr_die with
        | None => crash OutOfBounds       (* die_mem was never written *)
        | Some vr_die =>
            x <- convert_variable_type vr_die (pf_tvar pf) ;;
            let '(r, tvar) := x in
            ret (r, set_tvar pf tvar)
        end
    end
  else
    (* *expr will be cached in libdw. Don't free it. *)
    ret (r, pf).

(** [ptr = strchr(buf, ':'); if (ptr) *ptr = '_';] *)
Fixpoint replace_first_colon (buf : string) : string :=
  match buf with
  | EmptyString => EmptyString
  | String c rest =>
      if Ascii.eqb c ":"%char then String "_"%char rest
      else String c (replace_first_colon rest)
  end.

(** Find a variable in a subprogram die *)
Definition find_variable (sp_die : Dwarf_Die) (pf : probe_finder)
  : M (Z * probe_finder) :=
  nm <- match parg_name (pf_pvar pf) with
        | Some name =>
            n <- strdup name ;;
            ret (inr n)
        | None =>
            let '(r, buf) := synthesize_perf_probe_arg env (pf_pvar pf) in
            if r <? 0 then ret (inl r)
            else
              (* Change type separator to _ *)
              n <- strdup (replace_first_colon buf) ;;
              ret (inr n)
        end ;;
  match nm with
  | inl r => ret (r, pf)
  | inr name =>
      let pf := set_tvar pf (set_targ_name (pf_tvar pf) name) in
      match name with
      | None => ret (- ENOMEM, pf)
      | Some _ =>
          if negb (is_c_varname env (parg_var (pf_pvar pf))) then
            (* Copy raw parameters *)
            v <- strdup (parg_var (pf_pvar pf)) ;;
            let pf := set_tvar pf (set_targ_value (pf_tvar pf) v) in
            match v with
            | None => ret (- ENOMEM, pf)
            | Some _ => ret (0, pf)
            end
          else
            pr_debug "Searching '%s' variable in context.\n"
                     [AStr (Some (parg_var (pf_pvar pf)))] ;;;
            (* Search child die for local variables and parameters. *)
            x <- match die_find_variable sp_die (parg_var (pf_pvar pf)) with
                 | Some vr_die => convert_variable vr_die pf
                 | None =>
                     (* Search upper class *)
                     match dwarf_getscopes_die env sp_die with
                     | Some (sc :: scopes) =>
                         match dwarf_getscopevar env (sc :: scopes)
                                 (parg_var (pf_pvar pf)) with
                         | Some vr_die => convert_variable vr_die pf
                         | None => ret (- ENOENT, pf)
                         end
                     | _ => ret (- ENOENT, pf)
                     end
                 end ;;
            let '(r, pf) := x in
            (if r <? 0 then
               pr_warning "Failed to find '%s' in this function.\n"
                          [AStr (Some (parg_var (pf_pvar pf)))]
             else ret tt) ;;;
            ret (r, pf)
      end
  end.

(** A write through [tev = &pf->tevs[i]]. *)
Definition tev_update (pf : probe_finder) (i : Z)
    (f : kprobe_trace_event -> kprobe_trace_event) : M probe_finder :=
  if i <? 0 then crash OutOfBounds
  else
    match pf_tevs pf !! Z.to_nat i with
    | None => crash OutOfBounds
    | Some tev => ret (set_tevs pf (<[Z.to_nat i := f tev]> (pf_tevs pf)))
    end.

Definition set_tev_symbol (v : option string) (tev : kprobe_trace_event) :=
  mk_tev (mk_tpoint v (tp_offset (tev_point tev)) (tp_retprobe (tev_point tev)))
         (tev_nargs tev) (tev_args tev).
Definition set_tev_offset (v : Z) (tev : kprobe_trace_event) :=
  mk_tev (mk_tpoint (tp_symbol (tev_point tev)) v (tp_retprobe (tev_point tev)))
         (tev_nargs tev) (tev_args tev).
Definition set_tev_nargs (v : Z) (tev : kprobe_trace_event) :=
  mk_tev (tev_point tev) v (tev_args tev).
Definition set_tev_args (v : option (list kprobe_trace_arg))
    (tev : kprobe_trace_event) :=
  mk_tev (tev_point tev) (tev_nargs tev) v.
Definition set_tev_arg (i : nat) (v : kprobe_trace_arg)
    (tev : kprobe_trace_event) :=
  mk_tev (tev_point tev) (tev_nargs tev)
         (option_map (fun args => <[i := v]> args) (tev_args tev)).

(** A read of [pf->tevs[tev].args[i]]. *)
Definition tev_arg (pf : probe_finder) (tev : Z) (i : nat)
  : option kprobe_trace_arg :=
  match pf_tevs pf !! Z.to_nat tev with
  | Some t =>
      match tev_args t with
      | Some args => args !! i
      | None => None
      end
  | None => None
  end.

(** The [for] loop over the arguments of [convert_probe_point]: [n] turns
    are left and [i] is the index of the next one.  [pf->tvar] is
    [&tev->args[i]] during a turn: the slot is loaded into [pf_tvar] and
    written back after [find_variable]. *)
Fixpoint convert_probe_point_args (n : nat) (i : nat) (sp_die : Dwarf_Die)
    (tev : Z) (pf : probe_finder) : M (Z * probe_finder) :=
  match n with
  | O => ret (0, pf)
  | S n' =>
      match pev_args (pf_pev pf) !! i, tev_arg pf tev i with
      | Some pvar, Some tvar =>
          let pf := set_tvar (set_pvar pf pvar) tvar in
          x <- find_variable sp_die pf ;;
          let '(r, pf) := x in
          pf <- tev_update pf tev (set_tev_arg i (pf_tvar pf)) ;;
          if negb (r =? 0) then ret (r, pf)
          else convert_probe_point_args n' (S i) sp_die tev pf
      | _, _ => crash OutOfBounds
      end
  end.

(** Show a probe point to output buffer *)
Definition convert_probe_point (sp_die : option Dwarf_Die) (pf : probe_finder)
  : M (Z * probe_finder) :=
  if pf_ntevs pf =? pf_max_tevs pf then
    pr_warning "Too many( > %d) probe point found.\n"
               [AInt (pf_max_tevs pf)] ;;;
    ret (- ERANGE, pf)
  else
    (* tev = &pf->tevs[pf->ntevs++] *)
    let tev := pf_ntevs pf in
    let pf := set_ntevs pf (to_int (pf_ntevs pf + 1)) in
    (* If no real subprogram, find a real one *)
    let sp_die :=
      match sp_die with
      | Some d =>
          if negb (dwarf_tag d =? DW_TAG_subprogram)
          then die_find_real_subprogram (pf_cu_die pf) (pf_addr pf)
          else Some d
      | None => die_find_real_subprogram (pf_cu_die pf) (pf_addr pf)
      end in
    match sp_die with
    | None =>
        pr_warning ("Failed to find probe point in any " +:+
                    "functions.\n") [] ;;;
        ret (- ENOENT, pf)
    | Some sp_die =>
        (* Copy the name of probe point *)
        let name := dwarf_diename sp_die in
        nm <- match name with
              | Some name =>
                  match dwarf_entrypc sp_die with
                  | None =>
                      pr_warning "Failed to get entry pc of %s\n"
                                 [AStr (dwarf_diename sp_die)] ;;;
                      ret (inl (- ENOENT, pf))
                  | Some eaddr =>
                      s <- strdup name ;;
                      pf <- tev_update pf tev (set_tev_symbol s) ;;
                      match s with
                      | None => ret (inl (- ENOMEM, pf))
                      | Some _ =>
                          let offset := to_ulong (pf_addr pf - eaddr) in
                          pf <- tev_update pf tev (set_tev_offset offset) ;;
                          ret (inr (pf, offset))
                      end
                  end
              | None =>
                  (* This function has no name. *)
                  let offset := to_ulong (pf_addr pf) in
                  pf <- tev_update pf tev (set_tev_offset offset) ;;
                  ret (inr (pf, offset))
              end ;;
        match nm with
        | inl rp => ret rp
        | inr (pf, offset) =>
            pr_debug "Probe point found: %s+%lu\n" [AStr name; AInt offset] ;;;
            (* Get the frame base attribute/ops *)
            fb <- match at_frame_base sp_die (pf_addr pf) with
                  | None | Some [] => ret (inr (set_fb_ops pf None))
                  | Some (op0 :: ops) =>
                      let pf := set_fb_ops pf (Some (op0 :: ops)) in
                      match ops, pf_cfi pf with
                      | [], Some cfi =>
                          if atom op0 =? DW_OP_call_frame_cfa then
                            match cfi (pf_addr pf) with
                            | None =>
                                pr_warning "Failed to get CFA on 0x%jx\n"
                                           [AInt (pf_addr pf)] ;;;
                                ret (inl (- ENOENT, pf))
                            | Some cfa => ret (inr (set_fb_ops pf (Some cfa)))
                            end
                          else ret (inr pf)
                      | _, _ => ret (inr pf)
                      end
                  end ;;
            match fb with
            | inl rp => ret rp
            | inr pf =>
                (* Find each argument *)
                let nargs := pev_nargs (pf_pev pf) in
                pf <- tev_update pf tev (set_tev_nargs nargs) ;;
                ok <- alloc ;;
                if negb ok then ret (- ENOMEM, pf)
                else
                  pf <- tev_update pf tev
                          (set_tev_args
                             (Some (replicate (Z.to_nat nargs) targ_zero))) ;;
                  x <- convert_probe_point_args (Z.to_nat nargs) 0 sp_die tev pf ;;
                  let '(r, pf) := x in
                  if negb (r =? 0) then ret (r, pf)
                  else
                    (* *pf->fb_ops will be cached in libdw. Don't free it. *)
                    ret (0, set_fb_ops pf None)
            end
        end
    end.

(** [p2 = strchr(p1, '\n')] on the file buffer, followed by [*p2 = '\0']:
    the line that [p1] then is as a C string, and [p2 + 1].  The search
    ends at a NUL byte. *)
Fixpoint split_at_newline (p1 : string) : option (string * string) :=
  match p1 with
  | EmptyString => None
  | String c rest =>
      if Ascii.eqb c "010"%char then Some (EmptyString, rest)
      else if Ascii.eqb c zero then None
      else
        match split_at_newline rest with
        | Some (l, p1') => Some (String c l, p1')
        | None => None
        end
  end.

(** The [while] loop of [find_lazy_match_lines]; [fuel] bounds its turns. *)
Fixpoint find_lazy_match_lines_loop (fuel : nat) (p1 : string) (pat : string)
    (line nlines : Z) (head : list Z) : M (Z * list Z) :=
  match fuel with
  | O => out_of_fuel
  | S fuel' =>
      match split_at_newline p1 with
      | None => ret (nlines, head)
      | Some (l, p1') =>
          if strlazymatch env l pat then
            x <- line_list__add_line head line ;;
            let '(_, head) := x in
            find_lazy_match_lines_loop fuel' p1' pat (to_int (line + 1))
              (to_int (nlines + 1)) head
          else
            find_lazy_match_lines_loop fuel' p1' pat (to_int (line + 1))
              nlines head
      end
  end.

(** Find lines which match lazy pattern *)
Definition find_lazy_match_lines (fuel : nat) (head : list Z)
    (fname : string) (pat : string) : M (Z * list Z) :=
  match sys_open env fname with
  | inl errno =>
      pr_warning "Failed to open %s: %s\n" [AStr (Some fname)] ;;;
      ret (- errno, head)
  | inr fd =>
      match f_fstat_errno fd with
      | Some errno =>
          pr_warning "Failed to get the size of %s: %s\n"
                     [AStr (Some fname); AInt errno] ;;;
          ret (- errno, head)
      | None =>
          ok <- alloc ;;
          if negb ok then ret (- ENOMEM, head)
          else
            match f_read_errno fd with
            | Some errno =>
                pr_warning "Failed to read %s: %s\n"
                           [AStr (Some fname); AInt errno] ;;;
                ret (- errno, head)
            | None =>
                (* fbuf[st.st_size] = '\n' (Dummy line), then the NUL *)
                let fbuf :=
                  f_data fd +:+ String "010"%char (String zero EmptyString) in
                find_lazy_match_lines_loop fuel fbuf pat 1 0 head
            end
      end
  end.

(** Reverse search.  [dwarf_decl_line] answers 0 and stores the line, or
    answers -1. *)
Definition find_perf_probe_point (fd : Z) (addr : Z) (ppt : perf_probe_point)
  : M (Z * perf_probe_point) :=
  (* end: *)
  let finish (r : Z) (found : bool) (ppt : perf_probe_point)
    : M (Z * perf_probe_point) :=
    ret (if r >=? 0 then (if found then 1 else 0) else r, ppt) in
  match dwarf_begin env fd with
  | None => ret (- EBADF, ppt)
  | Some dbg =>
      (* Find cu die *)
      match dwarf_addrdie dbg addr with
      | None => finish (- EINVAL) false ppt
      | Some cudie =>
          (* Find a corresponding line *)
          ln <- match dwarf_getsrc_die dbg cudie addr with
                | Some line =>
                    match dwarf_lineaddr line with
                    | Some laddr =>
                        if addr =? laddr then
                          match dwarf_lineno line with
                          | Some lineno =>
                              match dwarf_linesrc line with
                              | Some tmp =>
                                  let ppt := set_ppt_line ppt lineno in
                                  f <- strdup tmp ;;
                                  let ppt := set_ppt_file ppt f in
                                  match f with
                                  | None => ret (inl ppt)
                                  | Some _ => ret (inr (true, ppt))
                                  end
                              | None => ret (inr (false, ppt))
                              end
                          | None => ret (inr (false, ppt))
                          end
                        else ret (inr (false, ppt))
                    | None => ret (inr (false, ppt))
                    end
                | None => ret (inr (false, ppt))
                end ;;
          match ln with
          | inl ppt => finish (- ENOMEM) false ppt
          | inr (found, ppt) =>
              (* found: *)
              let report (tmp : string) (r : Z) (ppt : perf_probe_point) :=
                f <- strdup tmp ;;
                let ppt := set_ppt_function ppt f in
                match f with
                | None => finish (- ENOMEM) found ppt
                | Some _ => finish r true ppt
                end in
              (* Find a corresponding function *)
              match die_find_real_subprogram cudie addr with
              | None => finish 0 found ppt
              | Some spdie =>
                  match dwarf_diename spdie, dwarf_entrypc spdie with
                  | Some tmp, Some eaddr =>
                      (* We don't have a line number, let's use offset *)
                      let use_offset (tmp : string) (r : Z) :=
                        report tmp r
                          (set_ppt_offset ppt (to_ulong (addr - to_ulong eaddr))) in
                      (* Make a relative line number *)
                      let relative (tmp : string) (lineno : Z) :=
                        l <- int_arith (pp_line ppt - lineno) ;;
                        report tmp 0 (set_ppt_line ppt l) in
                      if int_to_bool (pp_line ppt) then
                        match die_find_inlinefunc spdie addr with
                        | Some indie =>
                            (* addr in an inline function *)
                            match dwarf_diename indie with
                            | None => finish 0 found ppt
                            | Some tmp =>
                                match dwarf_decl_line indie with
                                | Some lineno => relative tmp lineno
                                | None => use_offset tmp (-1)
                                end
                            end
                        | None =>
                            if eaddr =? addr then    (* Function entry *)
                              relative tmp (pp_line ppt)
                            else
                              match dwarf_decl_line spdie with
                              | Some lineno => relative tmp lineno
                              | None => use_offset tmp (-1)
                              end
                        end
                      else use_offset tmp 0
                  | _, _ => finish 0 found ppt
                  end
              end
          end
      end
  end.

End Finder.

(** ** The forward search and the line-range search *)

(** The libdw calls that only the two searches make.  A field is the answer
    of the call of that name, [None] standing for its failure. *)
Record Libdw := mk_Libdw {
  (* dwarf_getsrcfiles, then dwarf_filesrc on each index *)
  dwarf_getsrcfiles : Dwarf_Die -> option (list string);
  (* dwarf_getsrclines, then dwarf_onesrcline on each index *)
  dwarf_getsrclines : Dwarf_Die -> option (list Dwarf_Line);
  dwarf_decl_file : Dwarf_Die -> option string;
  dwarf_func_inline : Dwarf_Die -> Z;
  (* the instances that dwarf_func_inline_instances visits, in its order *)
  inline_instances : Dwarf_Die -> list Dwarf_Die;
  (* dwarf_nextcu (dbg, off, &noff, &cuhl, ..): noff and cuhl when it
     answers 0 *)
  dwarf_nextcu : Dwarf -> Dwarf_Off -> option (Dwarf_Off * Z);
  dwarf_offdie : Dwarf -> Dwarf_Off -> option Dwarf_Die;
  dwarf_getcfi : Dwarf -> option Dwarf_CFI
}.

(** Callback parameter with return value *)
Record dwarf_callback_param (D : Type) := mk_param {
  param_data : D;
  param_retval : Z
}.
Arguments mk_param {D} _ _.
Arguments param_data {D} _.
Arguments param_retval {D} _.

Definition set_lno (pf : probe_finder) (v : Z) :=
  mk_pf (pf_pev pf) (pf_tevs pf) (pf_ntevs pf) (pf_max_tevs pf) v (pf_addr pf)
        (pf_fname pf) (pf_cu_die pf) (pf_lcache pf) (pf_cfi pf) (pf_fb_ops pf)
        (pf_pvar pf) (pf_tvar pf).
Definition set_addr (pf : probe_finder) (v : Dwarf_Addr) :=
  mk_pf (pf_pev pf) (pf_tevs pf) (pf_ntevs pf) (pf_max_tevs pf) (pf_lno pf) v
        (pf_fname pf) (pf_cu_die pf) (pf_lcache pf) (pf_cfi pf) (pf_fb_ops pf)
        (pf_pvar pf) (pf_tvar pf).
Definition set_fname (pf : probe_finder) (v : option string) :=
  mk_pf (pf_pev pf) (pf_tevs pf) (pf_ntevs pf) (pf_max_tevs pf) (pf_lno pf)
        (pf_addr pf) v (pf_cu_die pf) (pf_lcache pf) (pf_cfi pf) (pf_fb_ops pf)
        (pf_pvar pf) (pf_tvar pf).
Definition set_cu_die (pf : probe_finder) (v : Dwarf_Die) :=
  mk_pf (pf_pev pf) (pf_tevs pf) (pf_ntevs pf) (pf_max_tevs pf) (pf_lno pf)
        (pf_addr pf) (pf_fname pf) v (pf_lcache pf) (pf_cfi pf) (pf_fb_ops pf)
        (pf_pvar pf) (pf_tvar pf).
Definition set_lcache (pf : probe_finder) (v : list Z) :=
  mk_pf (pf_pev pf) (pf_tevs pf) (pf_ntevs pf) (pf_max_tevs pf) (pf_lno pf)
        (pf_addr pf) (pf_fname pf) (pf_cu_die pf) v (pf_cfi pf) (pf_fb_ops pf)
        (pf_pvar pf) (pf_tvar pf).
Definition set_cfi (pf : probe_finder) (v : option Dwarf_CFI) :=
  mk_pf (pf_pev pf) (pf_tevs pf) (pf_ntevs pf) (pf_max_tevs pf) (pf_lno pf)
        (pf_addr pf) (pf_fname pf) (pf_cu_die pf) (pf_lcache pf) v (pf_fb_ops pf)
        (pf_pvar pf) (pf_tvar pf).

(** A [Dwarf_Die] and a [struct perf_probe_arg] of zero bytes: what the
    members [cu_die] and [*pvar] of a finder stand for before they are
    set. *)
Definition die_zero : Dwarf_Die :=
  mk_Dwarf_Die 0 0 None None None None None
               (fun _ => None) (fun _ => None) (fun _ => 0) None None [].
Definition parg_zero : perf_probe_arg := mk_parg None EmptyString None None.

(** Modelled from the spec: [struct line_range] of probe-event.h and
    [struct line_finder] of probe-finder.h, the range request and the state
    of the line-range finder of section 4.10; the two headers are not part
    of this file, and the members are the ones that the functions below
    read and write. *)
Record line_range := mk_lr {
  lr_file : option string;              (* File name *)
  lr_function : option string;          (* Function name *)
  lr_start : Z;                         (* Start line number (int) *)
  lr_end : Z;                           (* End line number (int) *)
  lr_offset : Z;                        (* Start line offset (int) *)
  lr_path : option string;              (* Real path name *)
  lr_line_list : list Z                 (* Visible lines *)
}.

Record line_finder := mk_lf {
  lf_lr : line_range;                   (* Target line range *)
  lf_fname : option string;             (* File name *)
  lf_lno_s : Z;                         (* Start line number *)
  lf_lno_e : Z;                         (* End line number *)
  lf_cu_die : Dwarf_Die;                (* Current CU die *)
  lf_found : Z
}.

Definition set_lr_start (lr : line_range) (v : Z) :=
  mk_lr (lr_file lr) (lr_function lr) v (lr_end lr) (lr_offset lr)
        (lr_path lr) (lr_line_list lr).
Definition set_lr_end (lr : line_range) (v : Z) :=
  mk_lr (lr_file lr) (lr_function lr) (lr_start lr) v (lr_offset lr)
        (lr_path lr) (lr_line_list lr).
Definition set_lr_offset (lr : line_range) (v : Z) :=
  mk_lr (lr_file lr) (lr_function lr) (lr_start lr) (lr_end lr) v
        (lr_path lr) (lr_line_list lr).
Definition set_lr_path (lr : line_range) (v : option string) :=
  mk_lr (lr_file lr) (lr_function lr) (lr_start lr) (lr_end lr) (lr_offset lr)
        v (lr_line_list lr).
Definition set_lr_line_list (lr : line_range) (v : list Z) :=
  mk_lr (lr_file lr) (lr_function lr) (lr_start lr) (lr_end lr) (lr_offset lr)
        (lr_path lr) v.

Definition set_lf_lr (lf : line_finder) (v : line_range) :=
  mk_lf v (lf_fname lf) (lf_lno_s lf) (lf_lno_e lf) (lf_cu_die lf) (lf_found lf).
Definition set_lf_fname (lf : line_finder) (v : option string) :=
  mk_lf (lf_lr lf) v (lf_lno_s lf) (lf_lno_e lf) (lf_cu_die lf) (lf_found lf).
Definition set_lf_lno_s (lf : line_finder) (v : Z) :=
  mk_lf (lf_lr lf) (lf_fname lf) v (lf_lno_e lf) (lf_cu_die lf) (lf_found lf).
Definition set_lf_lno_e (lf : line_finder) (v : Z) :=
  mk_lf (lf_lr lf) (lf_fname lf) (lf_lno_s lf) v (lf_cu_die lf) (lf_found lf).
Definition set_lf_cu_die (lf : line_finder) (v : Dwarf_Die) :=
  mk_lf (lf_lr lf) (lf_fname lf) (lf_lno_s lf) (lf_lno_e lf) v (lf_found lf).
Definition set_lf_found (lf : line_finder) (v : Z) :=
  mk_lf (lf_lr lf) (lf_fname lf) (lf_lno_s lf) (lf_lno_e lf) (lf_cu_die lf) v.

Section Search.

Variable env : Env.
Variable dw : Libdw.

(** Init line number list *)
Definition line_list__init : list Z := [].

(** Free line number list: the first node is unlinked and freed until the
    list is empty. *)
Fixpoint line_list__free (head : list Z) : list Z :=
  match head with
  | [] => []
  | _ :: rest => line_list__free rest
  end.

(** The [for] loop of [cu_find_realpath] over the source files. *)
Fixpoint cu_find_realpath_loop (files : list string) (fname : string)
  : option string :=
  match files with
  | [] => None                                  (* i == nfiles *)
  | src :: rest =>
      if strtailcmp src fname =? 0 then Some src
      else cu_find_realpath_loop rest fname
  end.

(** Find the realpath of the target file. *)
Definition cu_find_realpath (cu_die : Dwarf_Die) (fname : option string)
  : option string :=
  match fname with
  | None => None
  | Some fname =>
      match dwarf_getsrcfiles dw cu_die with
      | None => None
      | Some files => cu_find_realpath_loop files fname
      end
  end.

(** [dwarf_getfuncs (cudie, callback, arg, 0)] with a callback that logs
    and allocates: as [dwarf_getfuncs_from], the callback runs on the
    DW_TAG_subprogram children of the CU until it asks to stop. *)
Fixpoint dwarf_getfuncs_M_from {S : Type} (dies : list Dwarf_Die)
    (callback : Dwarf_Die -> S -> M (Z * S)) (arg : S) : M (Z * S) :=
  match dies with
  | [] => ret (0, arg)
  | die :: rest =>
      if dwarf_tag die =? DW_TAG_subprogram then
        x <- callback die arg ;;
        let '(r, arg') := x in
        if r =? DWARF_CB_OK then dwarf_getfuncs_M_from rest callback arg'
        else ret (1, arg')
      else dwarf_getfuncs_M_from rest callback arg
  end.

Definition dwarf_getfuncs_M {S : Type} (cu_die : Dwarf_Die)
    (callback : Dwarf_Die -> S -> M (Z * S)) (arg : S) : M (Z * S) :=
  dwarf_getfuncs_M_from (die_children cu_die) callback arg.

(** [dwarf_func_inline_instances (func, callback, arg)]: the callback runs
    on the inline instances of [func] until it asks to stop. *)
Fixpoint dwarf_func_inline_instances_from {S : Type} (dies : list Dwarf_Die)
    (callback : Dwarf_Die -> S -> M (Z * S)) (arg : S) : M (Z * S) :=
  match dies with
  | [] => ret (0, arg)
  | die :: rest =>
      x <- callback die arg ;;
      let '(r, arg') := x in
      if r =? DWARF_CB_OK
      then dwarf_func_inline_instances_from rest callback arg'
      else ret (r, arg')
  end.

Definition dwarf_func_inline_instances {S : Type} (func : Dwarf_Die)
    (callback : Dwarf_Die -> S -> M (Z * S)) (arg : S) : M (Z * S) :=
  dwarf_func_inline_instances_from (inline_instances dw func) callback arg.

(** [strtailcmp] on two pointers: [strlen] reads through both. *)
Definition strtailcmp_ptr (s1 s2 : option string) : M Z :=
  match s1, s2 with
  | Some s1, Some s2 => ret (strtailcmp s1 s2)
  | _, _ => crash NullDeref
  end.

(** [die_compare_name] on a pointer: [strcmp] reads through [tname] only
    when the DIE has a name. *)
Definition die_compare_name_ptr (dw_die : Dwarf_Die) (tname : option string)
  : M bool :=
  match tname with
  | Some tname => ret (die_compare_name dw_die tname)
  | None =>
      match dwarf_diename dw_die with
      | Some _ => crash NullDeref
      | None => ret (int_to_bool (-1))
      end
  end.

(** *** Probe point finder *)

(** The [for] loop of [find_probe_point_by_line]: the lines from index [i]
    on, with [r] what [ret] holds. *)
Fixpoint find_probe_point_by_line_loop (lines : list Dwarf_Line) (i : Z)
    (r : Z) (pf : probe_finder) : M (Z * probe_finder) :=
  match lines with
  | [] => ret (r, pf)
  | line :: rest =>
      if negb (r =? 0) then ret (r, pf)
      else
        let continue := find_probe_point_by_line_loop rest (i + 1) r pf in
        match dwarf_lineno line with
        | None => continue
        | Some lineno =>
            if negb (lineno =? pf_lno pf) then continue
            else
              (* TODO: Get fileno from line, but how? *)
              c <- strtailcmp_ptr (dwarf_linesrc line) (pf_fname pf) ;;
              if negb (c =? 0) then continue
              else
                match dwarf_lineaddr line with
                | None =>
                    pr_warning "Failed to get the address of the line.\n" [] ;;;
                    ret (- ENOENT, pf)
                | Some addr =>
                    pr_debug "Probe line found: line[%d]:%d addr:0x%jx\n"
                             [AInt (to_int i); AInt lineno; AInt addr] ;;;
                    let pf := set_addr pf addr in
                    x <- convert_probe_point env None pf ;;
                    let '(r, pf) := x in
                    (* Continuing, because target line might be inlined. *)
                    find_probe_point_by_line_loop rest (i + 1) r pf
                end
        end
  end.

(** Find probe point from its line number *)
Definition find_probe_point_by_line (pf : probe_finder)
  : M (Z * probe_finder) :=
  match dwarf_getsrclines dw (pf_cu_die pf) with
  | None =>
      pr_warning "No source lines found in this CU.\n" [] ;;;
      ret (- ENOENT, pf)
  | Some lines => find_probe_point_by_line_loop lines 0 0 pf
  end.

(** The two address filters of the lazy search and of the line-range
    search: does [sp_die] include [addr], and does no child include it? *)
Definition in_function_body (sp_die : Dwarf_Die) (addr : Dwarf_Addr) : bool :=
  int_to_bool (dwarf_haspc sp_die addr) &&
  match die_find_inlinefunc sp_die addr with
  | Some _ => false
  | None => true
  end.

(** The [for] loop of [find_probe_point_lazy]. *)
Fixpoint find_probe_point_lazy_loop (sp_die : option Dwarf_Die)
    (lines : list Dwarf_Line) (i : Z) (r : Z) (pf : probe_finder)
  : M (Z * probe_finder) :=
  match lines with
  | [] => ret (r, pf)
  | line :: rest =>
      if negb (r >=? 0) then ret (r, pf)
      else
        let continue := find_probe_point_lazy_loop sp_die rest (i + 1) r pf in
        match dwarf_lineno line with
        | None => continue
        | Some lineno =>
            if negb (int_to_bool (line_list__has_line (pf_lcache pf) lineno))
            then continue
            else
              (* TODO: Get fileno from line, but how? *)
              c <- strtailcmp_ptr (dwarf_linesrc line) (pf_fname pf) ;;
              if negb (c =? 0) then continue
              else
                match dwarf_lineaddr line with
                | None =>
                    pr_debug "Failed to get the address of line %d.\n"
                             [AInt lineno] ;;;
                    continue
                | Some addr =>
                    if match sp_die with
                       | Some sp_die => negb (in_function_body sp_die addr)
                       | None => false
                       end
                    then continue
                    else
                      pr_debug "Probe line found: line[%d]:%d addr:0x%llx\n"
                               [AInt (to_int i); AInt lineno; AInt addr] ;;;
                      let pf := set_addr pf addr in
                      x <- convert_probe_point env sp_die pf ;;
                      let '(r, pf) := x in
                      (* Continuing, because target line might be inlined. *)
                      find_probe_point_lazy_loop sp_die rest (i + 1) r pf
                end
        end
  end.

(** [find_lazy_match_lines] called with a NULL pattern: [strlazymatch]
    reads through the pattern on the first line, once the file is read. *)
Definition find_lazy_match_lines_no_pat (head : list Z) (fname : string)
  : M (Z * list Z) :=
  match sys_open env fname with
  | inl errno =>
      pr_warning "Failed to open %s: %s\n" [AStr (Some fname)] ;;;
      ret (- errno, head)
  | inr fd =>
      match f_fstat_errno fd with
      | Some errno =>
          pr_warning "Failed to get the size of %s: %s\n"
                     [AStr (Some fname); AInt errno] ;;;
          ret (- errno, head)
      | None =>
          ok <- alloc env ;;
          if negb ok then ret (- ENOMEM, head)
          else
            match f_read_errno fd with
            | Some errno =>
                pr_warning "Failed to read %s: %s\n"
                           [AStr (Some fname); AInt errno] ;;;
                ret (- errno, head)
            | None => crash NullDeref
            end
      end
  end.

(** Find probe points from lazy pattern.  [fuel] bounds the loop of
    [find_lazy_match_lines].  With a NULL file name, [open] fails with
    EFAULT. *)
Definition find_probe_point_lazy (fuel : nat) (sp_die : option Dwarf_Die)
    (pf : probe_finder) : M (Z * probe_finder) :=
  x <- match pf_lcache pf with
       | [] =>
           (* Matching lazy line pattern *)
           y <- match pf_fname pf, pp_lazy_line (pev_point (pf_pev pf)) with
                | Some fname, Some pat =>
                    find_lazy_match_lines env fuel (pf_lcache pf) fname pat
                | Some fname, None =>
                    find_lazy_match_lines_no_pat (pf_lcache pf) fname
                | None, _ =>
                    pr_warning "Failed to open %s: %s\n" [AStr None] ;;;
                    ret (- EFAULT, pf_lcache pf)
                end ;;
           let '(r, lcache) := y in
           let pf := set_lcache pf lcache in
           if r =? 0 then
             pr_debug "No matched lines found in %s.\n"
                      [AStr (pf_fname pf)] ;;;
             ret (inl (0, pf))
           else if r <? 0 then ret (inl (r, pf))
           else ret (inr (r, pf))
       | _ :: _ => ret (inr (0, pf))
       end ;;
  match x with
  | inl rp => ret rp
  | inr (r, pf) =>
      match dwarf_getsrclines dw (pf_cu_die pf) with
      | None =>
          pr_warning "No source lines found in this CU.\n" [] ;;;
          ret (- ENOENT, pf)
      | Some lines => find_probe_point_lazy_loop sp_die lines 0 r pf
      end
  end.

Definition probe_point_inline_cb (fuel : nat) (in_die : Dwarf_Die)
    (param : dwarf_callback_param probe_finder)
  : M (Z * dwarf_callback_param probe_finder) :=
  let pf := param_data param in
  let pp := pev_point (pf_pev pf) in
  match pp_lazy_line pp with
  | Some _ =>
      x <- find_probe_point_lazy fuel (Some in_die) pf ;;
      let '(r, pf) := x in
      ret (DWARF_CB_OK, mk_param pf r)
  | None =>
      (* Get probe address *)
      match dwarf_entrypc in_die with
      | None =>
          pr_warning "Failed to get entry pc of %s.\n"
                     [AStr (dwarf_diename in_die)] ;;;
          ret (DWARF_CB_ABORT, mk_param pf (- ENOENT))
      | Some addr =>
          let pf := set_addr pf addr in
          let pf := set_addr pf (to_Dwarf_Word (pf_addr pf + pp_offset pp)) in
          pr_debug "found inline addr: 0x%jx\n" [AInt (pf_addr pf)] ;;;
          x <- convert_probe_point env (Some in_die) pf ;;
          let '(r, pf) := x in
          if r <? 0 then ret (DWARF_CB_ABORT, mk_param pf r)
          else ret (DWARF_CB_OK, mk_param pf r)
      end
  end.

(** Search function from function name *)
Definition probe_point_search_cb (fuel : nat) (sp_die : Dwarf_Die)
    (param : dwarf_callback_param probe_finder)
  : M (Z * dwarf_callback_param probe_finder) :=
  let pf := param_data param in
  let pp := pev_point (pf_pev pf) in
  (* Check tag and diename *)
  differs <- (if negb (dwarf_tag sp_die =? DW_TAG_subprogram) then ret true
              else
                b <- die_compare_name_ptr sp_die (pp_function pp) ;;
                ret (negb (bool_to_int b =? 0))) ;;
  if (differs : bool) then ret (DWARF_CB_OK, param)
  else
    let pf := set_fname pf (dwarf_decl_file dw sp_die) in
    param <- (if int_to_bool (pp_line pp) then
                (* Function relative line *)
                let pf :=
                  set_lno pf (default (pf_lno pf) (dwarf_decl_line sp_die)) in
                let pf := set_lno pf (to_int (pf_lno pf + pp_line pp)) in
                y <- find_probe_point_by_line pf ;;
                let '(r, pf) := y in
                ret (mk_param pf r)
              else if negb (int_to_bool (dwarf_func_inline dw sp_die)) then
                (* Real function *)
                match pp_lazy_line pp with
                | Some _ =>
                    y <- find_probe_point_lazy fuel (Some sp_die) pf ;;
                    let '(r, pf) := y in
                    ret (mk_param pf r)
                | None =>
                    match dwarf_entrypc sp_die with
                    | None =>
                        pr_warning "Failed to get entry pc of %s.\n"
                                   [AStr (dwarf_diename sp_die)] ;;;
                        ret (mk_param pf (- ENOENT))
                    | Some eaddr =>
                        let pf := set_addr pf eaddr in
                        let pf :=
                          set_addr pf
                            (to_Dwarf_Word (pf_addr pf + pp_offset pp)) in
                        (* TODO: Check the address in this function *)
                        y <- convert_probe_point env (Some sp_die) pf ;;
                        let '(r, pf) := y in
                        ret (mk_param pf r)
                    end
                end
              else
                let _param := mk_param pf 0 in
                (* Inlined function: search instances *)
                y <- dwarf_func_inline_instances sp_die
                       (probe_point_inline_cb fuel) _param ;;
                let '(_, _param) := y in
                ret _param) ;;
    (* Exit; no same symbol in this CU. *)
    ret (DWARF_CB_ABORT, param).

Definition find_probe_point_by_func (fuel : nat) (pf : probe_finder)
  : M (Z * probe_finder) :=
  let _param := mk_param pf 0 in
  x <- dwarf_getfuncs_M (pf_cu_die pf) (probe_point_search_cb fuel) _param ;;
  let '(_, _param) := x in
  ret (param_retval _param, param_data _param).

(** Loop on CUs (Compilation Unit): the [while] loop of
    [find_kprobe_trace_events], [n] bounding its turns. *)
Fixpoint find_kprobe_trace_events_loop (n : nat) (fuel : nat) (dbg : Dwarf)
    (off : Dwarf_Off) (r : Z) (pf : probe_finder) : M (Z * probe_finder) :=
  match n with
  | O => out_of_fuel
  | S n' =>
      match dwarf_nextcu dw dbg off with
      | None => ret (r, pf)
      | Some (noff, cuhl) =>
          if negb (r >=? 0) then ret (r, pf)
          else
            (* Get the DIE(Debugging Information Entry) of this CU *)
            match dwarf_offdie dw dbg (to_Dwarf_Word (off + cuhl)) with
            | None => find_kprobe_trace_events_loop n' fuel dbg off r pf
            | Some cu_die =>
                let pf := set_cu_die pf cu_die in
                let pp := pev_point (pf_pev pf) in
                (* Check if target file is included. *)
                let pf :=
                  match pp_file pp with
                  | Some file =>
                      set_fname pf (cu_find_realpath (pf_cu_die pf) (Some file))
                  | None => set_fname pf None
                  end in
                x <- (if match pp_file pp, pf_fname pf with
                         | Some _, None => false
                         | _, _ => true
                         end
                      then
                        match pp_function pp, pp_lazy_line pp with
                        | Some _, _ => find_probe_point_by_func fuel pf
                        | None, Some _ => find_probe_point_lazy fuel None pf
                        | None, None =>
                            let pf := set_lno pf (pp_line pp) in
                            find_probe_point_by_line pf
                        end
                      else ret (r, pf)) ;;
                let '(r, pf) := x in
                find_kprobe_trace_events_loop n' fuel dbg noff r pf
            end
      end
  end.

(** Find kprobe_trace_events specified by perf_probe_event from debuginfo.
    [tevs] is what [*tevs] holds on entry; the result pairs the return
    value with what it holds on return.  [fuel] bounds the loop on the CUs
    and the loops below it. *)
Definition find_kprobe_trace_events (fuel : nat) (fd : Z)
    (pev : perf_probe_event) (tevs : option (list kprobe_trace_event))
    (max_tevs : Z) : M (Z * option (list kprobe_trace_event)) :=
  ok <- alloc env ;;
  if negb ok then ret (- ENOMEM, tevs)
  else
    let pf := mk_pf pev (replicate (Z.to_nat max_tevs) tev_zero) 0 max_tevs
                    0 0 None die_zero [] None None parg_zero targ_zero in
    match dwarf_begin env fd with
    | None =>
        pr_warning ("No dwarf info found in the vmlinux - " +:+
                    "please rebuild with CONFIG_DEBUG_INFO=y.\n") [] ;;;
        ret (- EBADF, None)
    | Some dbg =>
        (* Get the call frame information from this dwarf *)
        let pf := set_cfi pf (dwarf_getcfi dw dbg) in
        let pf := set_lcache pf line_list__init in
        x <- find_kprobe_trace_events_loop fuel fuel dbg 0 0 pf ;;
        let '(r, pf) := x in
        let pf := set_lcache pf (line_list__free (pf_lcache pf)) in
        ret (if r <? 0 then r else pf_ntevs pf, Some (pf_tevs pf))
    end.

(** *** Line range finder *)

(** Add a line and store the src path.  With a NULL [src],
    [get_real_path] hands it to [access], which fails with EFAULT, when no
    source prefix is set, and to [strlen] when one is. *)
Definition line_range_add_line (fuel : nat) (src : option string)
    (lineno : Z) (lr : line_range) : M (Z * line_range) :=
  (* Copy real path *)
  x <- match lr_path lr with
       | None =>
           match src with
           | None =>
               match source_prefix env with
               | None => ret (- EFAULT, lr)
               | Some _ => crash NullDeref
               end
           | Some src =>
               y <- get_real_path env fuel src ;;
               let '(r, path) := y in
               ret (r, set_lr_path lr path)
           end
       | Some _ => ret (0, lr)
       end ;;
  let '(r, lr) := x in
  if negb (r =? 0) then ret (r, lr)
  else
    y <- line_list__add_line env (lr_line_list lr) (to_int lineno) ;;
    let '(r, line_list) := y in
    ret (r, set_lr_line_list lr line_list).

(** Search function declaration lines *)
Definition line_range_funcdecl_cb (fuel : nat) (sp_die : Dwarf_Die)
    (param : dwarf_callback_param line_finder)
  : M (Z * dwarf_callback_param line_finder) :=
  let lf := param_data param in
  let src := dwarf_decl_file dw sp_die in
  c <- match src with
       | Some _ => strtailcmp_ptr src (lf_fname lf)
       | None => ret 0
       end ;;
  if negb (c =? 0) then ret (DWARF_CB_OK, param)
  else
    match dwarf_decl_line sp_die with
    | None => ret (DWARF_CB_OK, param)
    | Some lineno =>
        if (lf_lno_s lf >? lineno) || (lf_lno_e lf <? lineno)
        then ret (DWARF_CB_OK, param)
        else
          x <- line_range_add_line fuel src (to_uint lineno) (lf_lr lf) ;;
          let '(r, lr) := x in
          let param := mk_param (set_lf_lr lf lr) r in
          if r <? 0 then ret (DWARF_CB_ABORT, param)
          else ret (DWARF_CB_OK, param)
    end.

Definition find_line_range_func_decl_lines (fuel : nat) (lf : line_finder)
  : M (Z * line_finder) :=
  let param := mk_param lf 0 in
  x <- dwarf_getfuncs_M (lf_cu_die lf) (line_range_funcdecl_cb fuel) param ;;
  let '(_, param) := x in
  ret (param_retval param, param_data param).

(** The [for] loop of [find_line_range_by_line]: [inl] is the [return]
    inside the loop, [inr] its regular end with what [ret] holds. *)
Fixpoint find_line_range_by_line_loop (fuel : nat) (sp_die : option Dwarf_Die)
    (lines : list Dwarf_Line) (r : Z) (lf : line_finder)
  : M (Z * line_finder + Z * line_finder) :=
  match lines with
  | [] => ret (inr (r, lf))
  | line :: rest =>
      let continue := find_line_range_by_line_loop fuel sp_die rest r lf in
      match dwarf_lineno line with
      | None => continue
      | Some lineno =>
          if (lf_lno_s lf >? lineno) || (lf_lno_e lf <? lineno) then continue
          else if match sp_die with
                  | Some sp_die =>
                      match dwarf_lineaddr line with
                      | None => true
                      | Some addr => negb (in_function_body sp_die addr)
                      end
                  | None => false
                  end
          then continue
          else
            (* TODO: Get fileno from line, but how? *)
            let src := dwarf_linesrc line in
            c <- strtailcmp_ptr src (lf_fname lf) ;;
            if negb (c =? 0) then continue
            else
              x <- line_range_add_line fuel src (to_uint lineno) (lf_lr lf) ;;
              let '(r, lr) := x in
              let lf := set_lf_lr lf lr in
              if r <? 0 then ret (inl (r, lf))
              else find_line_range_by_line_loop fuel sp_die rest r lf
      end
  end.

(** Find line range from its line number *)
Definition find_line_range_by_line (fuel : nat) (sp_die : option Dwarf_Die)
    (lf : line_finder) : M (Z * line_finder) :=
  let lf := set_lf_lr lf (set_lr_line_list (lf_lr lf) line_list__init) in
  match dwarf_getsrclines dw (lf_cu_die lf) with
  | None =>
      pr_warning "No source lines found in this CU.\n" [] ;;;
      ret (- ENOENT, lf)
  | Some lines =>
      (* Search probable lines on lines list *)
      x <- find_line_range_by_line_loop fuel sp_die lines 0 lf ;;
      match x with
      | inl rp => ret rp
      | inr (r, lf) =>
          (* Dwarf lines doesn't include function declarations. We have to
             check functions list or given function. *)
          y <- match sp_die with
               | Some sp_die =>
                   let src := dwarf_decl_file dw sp_die in
                   match src, dwarf_decl_line sp_die with
                   | Some _, Some lineno =>
                       if (lf_lno_s lf <=? lineno) && (lf_lno_e lf >=? lineno)
                       then
                         z <- line_range_add_line fuel src (to_uint lineno)
                                (lf_lr lf) ;;
                         let '(r, lr) := z in
                         ret (r, set_lf_lr lf lr)
                       else ret (r, lf)
                   | _, _ => ret (r, lf)
                   end
               | None => find_line_range_func_decl_lines fuel lf
               end ;;
          let '(r, lf) := y in
          (* Update status *)
          if r >=? 0 then
            match lr_line_list (lf_lr lf) with
            | _ :: _ => ret (1, set_lf_found lf 1)
            | [] => ret (0, lf)              (* Lines are not found *)
            end
          else ret (r, set_lf_lr lf (set_lr_path (lf_lr lf) None))
      end
  end.

Definition line_range_inline_cb (fuel : nat) (in_die : Dwarf_Die)
    (param : dwarf_callback_param line_finder)
  : M (Z * dwarf_callback_param line_finder) :=
  x <- find_line_range_by_line fuel (Some in_die) (param_data param) ;;
  let '(r, lf) := x in
  (* No need to find other instances *)
  ret (DWARF_CB_ABORT, mk_param lf r).

(** Search function from function name *)
Definition line_range_search_cb (fuel : nat) (sp_die : Dwarf_Die)
    (param : dwarf_callback_param line_finder)
  : M (Z * dwarf_callback_param line_finder) :=
  let lf := param_data param in
  let lr := lf_lr lf in
  same <- (if dwarf_tag sp_die =? DW_TAG_subprogram then
             b <- die_compare_name_ptr sp_die (lr_function lr) ;;
             ret (bool_to_int b =? 0)
           else ret false) ;;
  if (same : bool) then
    let lf := set_lf_fname lf (dwarf_decl_file dw sp_die) in
    let lr := set_lr_offset lr (default (lr_offset lr) (dwarf_decl_line sp_die)) in
    pr_debug "fname: %s, lineno:%d\n" [AStr (lf_fname lf); AInt (lr_offset lr)] ;;;
    let lf := set_lf_lno_s lf (to_int (lr_offset lr + lr_start lr)) in
    let lf := if lf_lno_s lf <? 0          (* Overflow *)
              then set_lf_lno_s lf INT_MAX else lf in
    let lf := set_lf_lno_e lf (to_int (lr_offset lr + lr_end lr)) in
    let lf := if lf_lno_e lf <? 0          (* Overflow *)
              then set_lf_lno_e lf INT_MAX else lf in
    pr_debug "New line range: %d to %d\n"
             [AInt (lf_lno_s lf); AInt (lf_lno_e lf)] ;;;
    let lr := set_lr_start lr (lf_lno_s lf) in
    let lr := set_lr_end lr (lf_lno_e lf) in
    let lf := set_lf_lr lf lr in
    if int_to_bool (dwarf_func_inline dw sp_die) then
      let _param := mk_param lf 0 in
      x <- dwarf_func_inline_instances sp_die (line_range_inline_cb fuel)
             _param ;;
      let '(_, _param) := x in
      ret (DWARF_CB_ABORT, _param)
    else
      x <- find_line_range_by_line fuel (Some sp_die) lf ;;
      let '(r, lf) := x in
      ret (DWARF_CB_ABORT, mk_param lf r)
  else ret (DWARF_CB_OK, param).

Definition find_line_range_by_func (fuel : nat) (lf : line_finder)
  : M (Z * line_finder) :=
  let param := mk_param lf 0 in
  x <- dwarf_getfuncs_M (lf_cu_die lf) (line_range_search_cb fuel) param ;;
  let '(_, param) := x in
  ret (param_retval param, param_data param).

(** Loop on CUs (Compilation Unit): the [while] loop of [find_line_range],
    [n] bounding its turns. *)
Fixpoint find_line_range_loop (n : nat) (fuel : nat) (dbg : Dwarf)
    (off : Dwarf_Off) (r : Z) (lf : line_finder) : M (Z * line_finder) :=
  match n with
  | O => out_of_fuel
  | S n' =>
      if negb (negb (int_to_bool (lf_found lf)) && (r >=? 0)) then ret (r, lf)
      else
        match dwarf_nextcu dw dbg off with
        | None => ret (r, lf)
        | Some (noff, cuhl) =>
            (* Get the DIE(Debugging Information Entry) of this CU *)
            match dwarf_offdie dw dbg (to_Dwarf_Word (off + cuhl)) with
            | None => find_line_range_loop n' fuel dbg off r lf
            | Some cu_die =>
                let lf := set_lf_cu_die lf cu_die in
                (* Check if target file is included. *)
                let lf :=
                  match lr_file (lf_lr lf) with
                  | Some file =>
                      set_lf_fname lf
                        (cu_find_realpath (lf_cu_die lf) (Some file))
                  | None => set_lf_fname lf None
                  end in
                x <- (if match lr_file (lf_lr lf), lf_fname lf with
                         | Some _, None => false
                         | _, _ => true
                         end
                      then
                        match lr_function (lf_lr lf) with
                        | Some _ => find_line_range_by_func fuel lf
                        | None =>
                            let lf := set_lf_lno_s lf (lr_start (lf_lr lf)) in
                            let lf := set_lf_lno_e lf (lr_end (lf_lr lf)) in
                            find_line_range_by_line fuel None lf
                        end
                      else ret (r, lf)) ;;
                let '(r, lf) := x in
                find_line_range_loop n' fuel dbg noff r lf
            end
        end
  end.

Definition find_line_range (fuel : nat) (fd : Z) (lr : line_range)
  : M (Z * line_range) :=
  let lf := mk_lf lr None 0 0 die_zero 0 in
  match dwarf_begin env fd with
  | None =>
      pr_warning ("No dwarf info found in the vmlinux - " +:+
                  "please rebuild with CONFIG_DEBUG_INFO=y.\n") [] ;;;
      ret (- EBADF, lr)
  | Some dbg =>
      x <- find_line_range_loop fuel fuel dbg 0 0 lf ;;
      let '(r, lf) := x in
      pr_debug "path: %lx\n" [AStr (lr_path (lf_lr lf))] ;;;
      ret (if r <? 0 then r else lf_found lf, lf_lr lf)
  end.

End Search.

(** ** Notions used to state the properties *)

(** [t] is the tail of [s]. *)
Definition is_tail_of (t s : string) : Prop := exists p, s = p +:+ t.

(** "Suffix at path-component granularity": cut both paths at every '/',
    and ask that the components of one are the last components of the
    other. *)
Definition path_components (s : string) : list string :=
  split_on "/"%char EmptyString s.

Definition component_tail_match (s1 s2 : string) : Prop :=
  path_components s1 `suffix_of` path_components s2 \/
  path_components s2 `suffix_of` path_components s1.

(** One of two lists is the beginning of the other. *)
Definition comparable (x y : list ascii) : Prop :=
  x `prefix_of` y \/ y `prefix_of` x.

(** The errno values on which [get_real_path] retries. *)
Definition retry_errno (errno : Z) : Prop :=
  errno = ENAMETOOLONG \/ errno = ENOENT \/ errno = EROFS \/ errno = EFAULT.

(** [raw'] is what is left of [raw] once its leading path component is
    gone: [raw] is a first byte and a stretch without '/', then [raw'],
    which starts at a '/'. *)
Definition strips_leading_component (raw raw' : string) : Prop :=
  exists c first rest,
    raw = String c first +:+ raw' /\
    strchr first "/"%char = None /\
    raw' = String "/"%char rest.

(** The lines of a file: the stretches between newlines; the last one is
    the line that no newline ends (empty when the file ends in one). *)
Definition file_lines (data : string) : list string :=
  split_on "010"%char EmptyString data.

(** The numbers, counted from [n], of the lines that match. *)
Fixpoint matching_lines_from (env : Env) (pat : string) (n : Z)
    (lines : list string) : list Z :=
  match lines with
  | [] => []
  | l :: rest =>
      if strlazymatch env l pat
      then n :: matching_lines_from env pat (n + 1) rest
      else matching_lines_from env pat (n + 1) rest
  end.

(** The first line of [data], and what follows its newline if it has one. *)
Fixpoint first_line (data : string) : string * option string :=
  match data with
  | EmptyString => (EmptyString, None)
  | String c rest =>
      if Ascii.eqb c "010"%char then (EmptyString, Some rest)
      else let '(l, o) := first_line rest in (String c l, o)
  end.

(** The two bytes that [find_lazy_match_lines] puts behind the file. *)
Definition sentinel : string := String "010"%char (String zero EmptyString).

(** A file written as lines that each end in a newline. *)
Fixpoint terminated_lines (ls : list string) : string :=
  match ls with
  | [] => EmptyString
  | l :: rest => l +:+ String "010"%char (terminated_lines rest)
  end.

Definition newline_free (s : string) : Prop := strchr s "010"%char = None.

(** The type tag for a width, and the report of a clamped width. *)
Definition type_tag_of (type : Dwarf_Die) (bits : Z) : string :=
  (if die_is_signed_type type then "s" else "u") +:+ fmt_d bits.

Definition clamp_info (type : Dwarf_Die) : log_entry :=
  mk_log LInfo "%s exceeds max-bitwidth. Cut down to %d bits.\n"
         [AStr (dwarf_diename type); AInt MAX_BASIC_TYPE_BITS].

(** The type tags of the kprobe tracer. *)
Definition basic_type_tags : list string :=
  ["s8"; "s16"; "s32"; "s64"; "u8"; "u16"; "u32"; "u64"]%string.

(** What the caller finds in [*ppt] after a line-relative answer and after
    an offset answer. *)
Definition ppt_relative (ppt : perf_probe_point) (file function : string)
    (line : Z) : perf_probe_point :=
  mk_ppoint (Some file) (Some function) line (pp_retprobe ppt)
            (pp_lazy_line ppt) (pp_offset ppt).
Definition ppt_by_offset (ppt : perf_probe_point) (function : string)
    (offset : Z) : perf_probe_point :=
  mk_ppoint (pp_file ppt) (Some function) (pp_line ppt) (pp_retprobe ppt)
            (pp_lazy_line ppt) offset.

(** [pf'] has the counters of [pf] and its events, but for the one at index
    [i]. *)
Definition events_agree_except (i : nat) (pf pf' : probe_finder) : Prop :=
  pf_ntevs pf' = pf_ntevs pf /\
  pf_max_tevs pf' = pf_max_tevs pf /\
  length (pf_tevs pf') = length (pf_tevs pf) /\
  forall j, j <> i -> pf_tevs pf' !! j = pf_tevs pf !! j.

(** [pf'] has the counters and the events of [pf]. *)
Definition same_events (pf pf' : probe_finder) : Prop :=
  pf_ntevs pf' = pf_ntevs pf /\
  pf_max_tevs pf' = pf_max_tevs pf /\
  pf_tevs pf' = pf_tevs pf.

(** The DIEs below [d], in the order in which a depth-first walk meets
    them. *)
Fixpoint descendants (d : Dwarf_Die) : list Dwarf_Die :=
  flat_map (fun c => c :: descendants c) (die_children d).

(** The DIE has the name [name]. *)
Definition named (name : string) (d : Dwarf_Die) : bool :=
  match dwarf_diename d with
  | Some n => String.eqb n name
  | None => false
  end.

(** What the four searches look for. *)
Definition is_member_named (name : string) (d : Dwarf_Die) : bool :=
  (dwarf_tag d =? DW_TAG_member) && named name d.
Definition is_variable_named (name : string) (d : Dwarf_Die) : bool :=
  ((dwarf_tag d =? DW_TAG_formal_parameter) ||
   (dwarf_tag d =? DW_TAG_variable)) && named name d.
Definition is_inline_at (addr : Dwarf_Addr) (d : Dwarf_Die) : bool :=
  (dwarf_tag d =? DW_TAG_inlined_subroutine) &&
  negb (dwarf_haspc d addr =? 0).
Definition is_subprogram_at (addr : Dwarf_Addr) (d : Dwarf_Die) : bool :=
  (dwarf_tag d =? DW_TAG_subprogram) && negb (dwarf_haspc d addr =? 0).

(** The names of the DIEs are C strings. *)
Definition names_no_nul (dies : list Dwarf_Die) : Prop :=
  Forall (fun d => opt_no_nul (dwarf_diename d) = true) dies.

(** The counters of a finder are those of an array of [max_tevs] events of
    which the first [ntevs] are in use. *)
Definition finder_in_bounds (pf : probe_finder) : Prop :=
  0 <= pf_ntevs pf <= pf_max_tevs pf /\ pf_max_tevs pf <= INT_MAX.

(** [pf'] is [pf] after some more events were emitted: the capacity is the
    same, and so is every event that was in use. *)
Definition finder_extends (pf pf' : probe_finder) : Prop :=
  pf_max_tevs pf' = pf_max_tevs pf /\
  length (pf_tevs pf') = length (pf_tevs pf) /\
  pf_ntevs pf <= pf_ntevs pf' <= pf_max_tevs pf /\
  forall j : nat,
    (j < Z.to_nat (pf_ntevs pf))%nat -> pf_tevs pf' !! j = pf_tevs pf !! j.

(** The answers that [convert_variable_location] gives. *)
Definition location_answers : list Z :=
  [0; - ENOENT; - ENOMEM; - ENOTSUP; - ERANGE].

(** The answers that [find_perf_probe_point] gives; -1 is the answer of a
    failing [dwarf_decl_line]. *)
Definition reverse_answers : list Z :=
  [1; 0; -1; - EBADF; - EINVAL; - ENOMEM].



Definition die_find_siblings (callback : Dwarf_Die -> Z)
  : list Dwarf_Die -> option Dwarf_Die :=
  fix siblings (dies : list Dwarf_Die) : option Dwarf_Die :=
    match dies with
    | [] => None
    | die_mem :: rest =>
        let r := callback die_mem in
        if r =? DIE_FIND_CB_FOUND then Some die_mem
        else
          match (if int_to_bool (Z.land r DIE_FIND_CB_CHILD)
                 then die_find_child die_mem callback else None) with
          | Some child_die => Some child_die
          | None =>
              if int_to_bool (Z.land r DIE_FIND_CB_SIBLING)
              then siblings rest else None
          end
    end.

(** [d'] is the DIE that the type attribute of [d] refers to. *)
Definition type_of (env : Env) (d d' : Dwarf_Die) : Prop :=
  exists off, at_type d = Some off /\ dwarf_formref_die env off = Some d'.

(** The type attributes lead from [d] through the DIEs [quals] to [t]. *)
Fixpoint type_path (env : Env) (d : Dwarf_Die) (quals : list Dwarf_Die)
    (t : Dwarf_Die) : Prop :=
  match quals with
  | [] => type_of env d t
  | q :: rest => type_of env d q /\ type_path env q rest t
  end.

(** The offset that [die_get_data_member_location] reads from a member: a
    constant, or the operand of a lone DW_OP_plus_uconst. *)
Definition member_offset (mb_die : Dwarf_Die) : option Z :=
  match at_data_member_location mb_die with
  | Some (MemberUdata offs) => Some offs
  | Some (MemberExpr (Some [e])) =>
      if atom e =? DW_OP_plus_uconst then Some (to_Dwarf_Word (number e))
      else None
  | _ => None
  end.

(** One of two paths is the tail of the other. *)
Definition tail_match (s1 s2 : string) : Prop :=
  is_tail_of s1 s2 \/ is_tail_of s2 s1.

(** [pf'] searches for what [pf] searches, at the same place: it differs
    from [pf] at most in the events, in their count, in the frame base and
    in the argument under conversion. *)
Definition same_search (pf pf' : probe_finder) : Prop :=
  pf_pev pf' = pf_pev pf /\ pf_max_tevs pf' = pf_max_tevs pf /\
  pf_lno pf' = pf_lno pf /\ pf_fname pf' = pf_fname pf /\
  pf_cu_die pf' = pf_cu_die pf /\ pf_lcache pf' = pf_lcache pf /\
  pf_cfi pf' = pf_cfi pf.

(** A finder within its bounds stays so and keeps its events in use. *)
Definition finder_grows (pf pf' : probe_finder) : Prop :=
  finder_in_bounds pf -> finder_extends pf pf'.

(** A row of the line table that the search by line number takes: its
    line is [lno] and its file matches [fname]. *)
Definition line_at (lno : Z) (fname : option string) (line : Dwarf_Line)
  : bool :=
  match dwarf_lineno line, dwarf_linesrc line, fname with
  | Some n, Some src, Some f => (n =? lno) && (strtailcmp src f =? 0)
  | _, _, _ => false
  end.

(** How many rows of the line table the search by line number takes. *)
Definition line_hits (pf : probe_finder) (lines : list Dwarf_Line) : Z :=
  Z.of_nat (length (List.filter (line_at (pf_lno pf) (pf_fname pf)) lines)).

(** The DIE is a subprogram of that name. *)
Definition is_function_named (name : string) (d : Dwarf_Die) : bool :=
  (dwarf_tag d =? DW_TAG_subprogram) && named name d.

(** The relation that the callbacks of the forward search keep. *)
Definition param_grows (a a' : dwarf_callback_param probe_finder) : Prop :=
  finder_grows (param_data a) (param_data a').

(** ** Concrete debug information used by the examples *)

Module Fixture.

(** arch/x86/util/dwarf-regs.c, the x86_64 table. *)
Definition x86_64_regstr_tbl : list string :=
  ["%ax"; "%dx"; "%cx"; "%bx"; "%si"; "%di"; "%bp"; "%sp";
   "%r8"; "%r9"; "%r10"; "%r11"; "%r12"; "%r13"; "%r14"; "%r15"]%string.

Definition x86_64_regstr (n : Z) : option string :=
  if n <? 0 then None else x86_64_regstr_tbl !! Z.to_nat n.

(** A DIE with a tag and nothing else. *)
Definition die (offset tag : Z) : Dwarf_Die :=
  mk_Dwarf_Die offset tag None None None None None
               (fun _ => None) (fun _ => None) (fun _ => 0) None None [].

(** A type DIE. *)
Definition type_die (offset tag : Z) (name : option string)
    (type : option Dwarf_Off) (byte_size encoding : option Z)
    (children : list Dwarf_Die) : Dwarf_Die :=
  mk_Dwarf_Die offset tag name type byte_size encoding None
               (fun _ => None) (fun _ => None) (fun _ => 0) None None children.

(** A variable that lives at [ops] at every address. *)
Definition var_die (offset : Z) (name : string) (type : Dwarf_Off)
    (ops : list Dwarf_Op) : Dwarf_Die :=
  mk_Dwarf_Die offset DW_TAG_variable (Some name) (Some type) None None None
               (fun _ => Some ops) (fun _ => None) (fun _ => 0) None None [].

(** A function that covers [lo <= pc < hi]. *)
Definition func_die (offset tag : Z) (name : string) (lo hi : Dwarf_Addr)
    (decl_line : Z) (frame_base : option (list Dwarf_Op))
    (children : list Dwarf_Die) : Dwarf_Die :=
  mk_Dwarf_Die offset tag (Some name) None None None None
               (fun _ => None) (fun _ => frame_base)
               (fun pc => bool_to_int ((lo <=? pc) && (pc <? hi)))
               (Some lo) (Some decl_line) children.

(** int, a 3-byte structure, a 16-byte integer, int[4]. *)
Definition int_type : Dwarf_Die :=
  type_die 0x40 DW_TAG_base_type (Some "int"%string) None (Some 4)
           (Some DW_ATE_signed) [].
Definition rgb_type : Dwarf_Die :=
  type_die 0x50 DW_TAG_structure_type (Some "rgb"%string) None (Some 3) None [].
Definition uint128_type : Dwarf_Die :=
  type_die 0x60 DW_TAG_base_type (Some "__int128 unsigned"%string) None
           (Some 16) (Some 0x7) [].
Definition int4_type : Dwarf_Die :=
  type_die 0x70 DW_TAG_array_type None (Some 0x40) None None [].

Definition types : list Dwarf_Die :=
  [int_type; rgb_type; uint128_type; int4_type].

Definition formref_die (off : Dwarf_Off) : option Dwarf_Die :=
  find (fun d => dwarf_dieoffset d =? off) types.

(** Variables: [cpu] on the frame, [color], [wide], and the array [vec]
    that lives in register 0. *)
Definition cpu_var : Dwarf_Die :=
  var_die 0x100 "cpu" 0x40 [mk_op DW_OP_fbreg 8 0].
Definition color_var : Dwarf_Die :=
  var_die 0x110 "color" 0x50 [mk_op DW_OP_fbreg 16 0].
Definition wide_var : Dwarf_Die :=
  var_die 0x120 "wide" 0x60 [mk_op DW_OP_fbreg 32 0].
Definition vec_var : Dwarf_Die :=
  var_die 0x130 "vec" 0x70 [mk_op DW_OP_reg0 0 0].

(** kfree: declared on line 10, entry at 0x1000. *)
Definition kfree_die : Dwarf_Die :=
  func_die 0x200 DW_TAG_subprogram "kfree" 0x1000 0x1100 10
           (Some [mk_op (DW_OP_breg0 + 6) 16 0])
           [cpu_var; color_var; wide_var; vec_var].

Definition anon_die : Dwarf_Die := die 0x300 DW_TAG_subprogram.

(** ksize: declared on line 40, entry at 0x2000; its first bytes are an
    inline instance of virt_to_head, declared on line 30. *)
Definition virt_to_head_inline : Dwarf_Die :=
  func_die 0x410 DW_TAG_inlined_subroutine "virt_to_head" 0x2000 0x2010 30
           None [].
Definition ksize_die : Dwarf_Die :=
  func_die 0x400 DW_TAG_subprogram "ksize" 0x2000 0x2100 40 None
           [virt_to_head_inline].

Definition cu_die : Dwarf_Die :=
  mk_Dwarf_Die 0xb 0x11 (Some "mm/slub.c"%string) None None None None
               (fun _ => None) (fun _ => None) (fun _ => 1) None None
               [kfree_die; ksize_die].

(** The line table of mm/slub.c: address and line. *)
Definition line_table : list (Dwarf_Addr * Z) :=
  [(0x1000, 12); (0x1008, 14); (0x100c, 0); (0x2000, 42)].

Definition src_line (addr : Dwarf_Addr) : option Dwarf_Line :=
  match find (fun e => fst e =? addr) line_table with
  | Some (a, l) => Some (mk_line (Some a) (Some l) (Some "mm/slub.c"%string))
  | None => None
  end.

Definition dbg : Dwarf :=
  mk_Dwarf (fun addr => Some cu_die) (fun _ addr => src_line addr).

(** One source file; every other path is missing. *)
Definition sched_c : file :=
  mk_file None None
    ("static void f(void)" +:+ String "010"%char
       ("{" +:+ String "010"%char "rq = cpu_rq(cpu);"))%string.

(** A file with a NUL byte on its first line. *)
Definition nul_c : file :=
  mk_file None None
    (String "a"%char (String zero (String "010"%char "b")))%string.

Definition env : Env :=
  mk_Env (fun _ => true)
         (fun _ => ENOENT)
         (fun path => if String.eqb path "kernel/sched.c" then inr sched_c
                      else if String.eqb path "nul.c" then inr nul_c
                      else inl ENOENT)
         (Some "/usr/src/linux"%string)
         x86_64_regstr
         (fun l pat => String.eqb l pat)
         (fun _ => true)
         (fun parg => (0, parg_var parg))
         (fun _ => Some dbg)
         formref_die
         (fun _ => None)
         (fun _ _ => None)
         8%nat.

Definition world : World := mk_World [] 0 [].

Definition ppt_zero : perf_probe_point :=
  mk_ppoint None None 0 false None 0.

Definition parg (var : string) (field : option perf_probe_arg_field)
  : perf_probe_arg := mk_parg None var None field.

(** A finder with room for [max_tevs] events, stopped at [addr]. *)
Definition finder (args : list perf_probe_arg) (max_tevs : Z)
    (addr : Dwarf_Addr) (fb_ops : option (list Dwarf_Op)) : probe_finder :=
  mk_pf (mk_pev (mk_ppoint None (Some "kfree"%string) 0 false None 0)
                (Z.of_nat (length args)) args)
        (replicate (Z.to_nat max_tevs) tev_zero) 0 max_tevs 0 addr None cu_die
        [] None fb_ops (parg "" None) targ_zero.

(** The frame base of kfree, the step [[1]], and the finder before and
    after the one event it has room for. *)
Definition frame_bp : list Dwarf_Op := [mk_op (DW_OP_breg0 + 6) 16 0].
Definition index_1 : perf_probe_arg_field := mk_field None "[1]" 1 false.

Definition pf_cpu : probe_finder := finder [parg "cpu" None] 1 0x1000 None.
Definition cpu_targ : kprobe_trace_arg :=
  mk_targ (Some "cpu"%string) (Some "%bp"%string) (Some "s32"%string)
          (Some 0%nat).
Definition pf_cpu_full : probe_finder :=
  mk_pf (pf_pev pf_cpu)
        [mk_tev (mk_tpoint (Some "kfree"%string) 0 false) 1 (Some [cpu_targ])]
        1 1 0 0x1000 None cu_die [] None None (parg "cpu" None) cpu_targ.

(** The same debug information read the way libdw reads it inside a
    function: for an address without a row of its own, the row before it. *)
Definition src_line_nearest (addr : Dwarf_Addr) : option Dwarf_Line :=
  match find (fun e => fst e <=? addr) (rev line_table) with
  | Some (a, l) => Some (mk_line (Some a) (Some l) (Some "mm/slub.c"%string))
  | None => None
  end.

Definition dbg_nearest : Dwarf :=
  mk_Dwarf (fun addr => Some cu_die) (fun _ addr => src_line_nearest addr).

Definition env_nearest : Env :=
  mk_Env (alloc_ok env) (access_R_OK env) (sys_open env) (source_prefix env)
         (get_arch_regstr env) (strlazymatch env) (is_c_varname env)
         (synthesize_perf_probe_arg env)
         (fun _ => Some dbg_nearest)
         (dwarf_formref_die env) (dwarf_getscopes_die env)
         (dwarf_getscopevar env) (type_chain_bound env).



(** More types: pid_t, a typedef of const int; struct task_struct with the
    members pid and parent; the pointer to it. *)
Definition member_die (offset : Z) (name : string) (type : Dwarf_Off)
    (location : member_location) : Dwarf_Die :=
  mk_Dwarf_Die offset DW_TAG_member (Some name) (Some type) None None
               (Some location) (fun _ => None) (fun _ => None) (fun _ => 0)
               None None [].

Definition pid_t_type : Dwarf_Die :=
  type_die 0x80 DW_TAG_typedef (Some "pid_t"%string) (Some 0x88) None None [].
Definition const_int_type : Dwarf_Die :=
  type_die 0x88 DW_TAG_const_type None (Some 0x40) None None [].
Definition pid_member : Dwarf_Die := member_die 0x94 "pid" 0x80 (MemberUdata 8).
Definition parent_member : Dwarf_Die :=
  member_die 0x98 "parent" 0xa0
             (MemberExpr (Some [mk_op DW_OP_plus_uconst 16 0])).
Definition task_type : Dwarf_Die :=
  type_die 0x90 DW_TAG_structure_type (Some "task_struct"%string) None
           (Some 24) None [pid_member; parent_member].
Definition task_ptr_type : Dwarf_Die :=
  type_die 0xa0 DW_TAG_pointer_type None (Some 0x90) (Some 8) None [].

Definition more_types : list Dwarf_Die :=
  types ++ [pid_t_type; const_int_type; task_type; task_ptr_type].

Definition more_formref_die (off : Dwarf_Off) : option Dwarf_Die :=
  find (fun d => dwarf_dieoffset d =? off) more_types.

(** do_fork: declared on line 100, entry at 0x3000; the pointer [p] and
    the structure [t] on the frame, the static [jiffies], and [nr] in a
    nested block. *)
Definition p_var : Dwarf_Die :=
  var_die 0x510 "p" 0xa0 [mk_op DW_OP_fbreg 24 0].
Definition t_var : Dwarf_Die :=
  var_die 0x520 "t" 0x90 [mk_op DW_OP_fbreg 32 0].
Definition jiffies_var : Dwarf_Die :=
  var_die 0x530 "jiffies" 0x40 [mk_op DW_OP_addr 0xffffffff81a00000 0].
Definition nr_var : Dwarf_Die :=
  var_die 0x550 "nr" 0x80 [mk_op (DW_OP_breg0 + 3) 4 0].
Definition block_die : Dwarf_Die :=
  mk_Dwarf_Die 0x540 0x0b None None None None None
               (fun _ => None) (fun _ => None) (fun _ => 0) None None [nr_var].
Definition do_fork_die : Dwarf_Die :=
  func_die 0x500 DW_TAG_subprogram "do_fork" 0x3000 0x3100 100
           (Some [mk_op (DW_OP_breg0 + 6) 16 0])
           [p_var; t_var; jiffies_var; block_die].

Definition fork_cu_die : Dwarf_Die :=
  mk_Dwarf_Die 0x4b 0x11 (Some "kernel/fork.c"%string) None None None None
               (fun _ => None) (fun _ => None) (fun _ => 1) None None
               [do_fork_die].

(** A second environment: the larger set of types, a source tree in which
    mm/slub.c can be read, and register names that are not C variable
    names. *)
Definition src_env : Env :=
  mk_Env (fun _ => true)
         (fun path => if String.eqb path "/usr/src/linux//mm/slub.c"
                      then 0 else ENOENT)
         (fun _ => inl ENOENT)
         (Some "/usr/src/linux"%string)
         x86_64_regstr
         (fun l pat => String.eqb l pat)
         (fun var => negb (String.prefix "%" var))
         (fun parg => (0, parg_var parg))
         (fun _ => Some dbg)
         more_formref_die
         (fun _ => None)
         (fun _ _ => None)
         8%nat.

(** The line table and the files of mm/slub.c as libdw shows them, and
    debug information of one CU. *)
Definition src_lines : list Dwarf_Line :=
  map (fun e => mk_line (Some (fst e)) (Some (snd e)) (Some "mm/slub.c"%string))
      line_table.

Definition libdw : Libdw :=
  mk_Libdw (fun _ => Some ["include/linux/slab.h"; "mm/slub.c"]%string)
           (fun _ => Some src_lines)
           (fun _ => Some "mm/slub.c"%string)
           (fun _ => 0)
           (fun _ => [])
           (fun _ off => if off =? 0 then Some (0x200, 11) else None)
           (fun _ off => if off =? 11 then Some cu_die else None)
           (fun _ => None).

(** A finder with room for two events that searches line 14 of
    mm/slub.c. *)
Definition pf_line14 : probe_finder :=
  set_fname (set_lno (finder [parg "cpu" None] 2 0 None) 14)
            (Some "mm/slub.c"%string).

(** A finder with room for two events that searches kernel/sched.c for the
    lines that match a lazy pattern. *)
Definition pf_lazy : probe_finder :=
  mk_pf (mk_pev (mk_ppoint None None 0 false
                           (Some "rq = cpu_rq(cpu);"%string) 0) 0 [])
        (replicate 2 tev_zero) 0 2 0 0 (Some "kernel/sched.c"%string) cu_die
        [] None None (parg "" None) targ_zero.

End Fixture.

(** * Properties *)

(** ** The monad *)

Lemma bind_Done {A B} (m : M A) (k : A -> M B) (w w' : World) (a : A) :
  m w = Done a w' -> bind m k w = k a w'.
Proof. unfold bind. now intros ->. Qed.

Lemma bind_Crash {A B} (m : M A) (k : A -> M B) (w : World) (f : fault) :
  m w = Crash f -> bind m k w = Crash f.
Proof. unfold bind. now intros ->. Qed.

Lemma bind_ret_l {A B} (a : A) (k : A -> M B) : bind (ret a) k = k a.
Proof. reflexivity. Qed.

Lemma bind_pr {B} (lvl : log_level) (fmt : string) (args : list log_arg)
    (k : unit -> M B) (w : World) :
  bind (pr lvl fmt args) k w
  = k tt (mk_World (w_refs w) (w_nalloc w) (mk_log lvl fmt args :: w_log w)).
Proof. reflexivity. Qed.

Lemma bind_inv {A B} (m : M A) (k : A -> M B) (w w' : World) (b : B) :
  bind m k w = Done b w' ->
  exists a w1, m w = Done a w1 /\ k a w1 = Done b w'.
Proof.
  unfold bind. destruct (m w) as [a w1| |]; try discriminate. eauto.
Qed.

Ltac msimpl :=
  unfold strdup, alloc_trace_arg_ref, zalloc_ref, alloc,
         pr_debug, pr_debug2, pr_info, pr_warning, pr_err, pr, bind, ret;
  cbv beta iota; cbn [w_refs w_nalloc w_log].
Ltac msimpl_in H :=
  unfold strdup, alloc_trace_arg_ref, zalloc_ref, alloc,
         pr_debug, pr_debug2, pr_info, pr_warning, pr_err, pr, bind, ret in H;
  cbv beta iota in H; cbn [w_refs w_nalloc w_log] in H.

(** Case analysis along a run that is known to return. *)
Ltac split_run H :=
  repeat (msimpl_in H;
          match type of H with
          | context [match ?x with _ => _ end] =>
              destruct x eqn:?; try discriminate H
          end).

(** ** Machine integers *)

Lemma to_int_small (z : Z) : 0 <= z <= INT_MAX -> to_int z = z.
Proof.
  unfold to_int, wrap_signed, INT_MAX. intros H.
  change (2 ^ (32 - 1)) with 2147483648. change (2 ^ 32) with 4294967296.
  rewrite Z.mod_small; lia.
Qed.

Lemma to_uint_small (z : Z) : 0 <= z < 2 ^ 32 -> to_uint z = z.
Proof. intros H. unfold to_uint, wrap_unsigned. now apply Z.mod_small. Qed.

Lemma to_long_small (z : Z) : - 2 ^ 63 <= z < 2 ^ 63 -> to_long z = z.
Proof.
  unfold to_long, wrap_signed. change (64 - 1) with 63.
  change (2 ^ 64) with (2 * 2 ^ 63). intros H.
  rewrite Z.mod_small; lia.
Qed.

Lemma to_long_Dwarf_Word (z : Z) : to_long (to_Dwarf_Word z) = to_long z.
Proof.
  unfold to_long, to_Dwarf_Word, wrap_signed, wrap_unsigned.
  change (2 ^ (64 - 1)) with 9223372036854775808.
  change (2 ^ 64) with (2 * 9223372036854775808).
  f_equal. rewrite Z.add_mod_idemp_l by lia. reflexivity.
Qed.

Lemma to_Dwarf_Word_add_l (a b : Z) :
  to_Dwarf_Word (to_Dwarf_Word a + b) = to_Dwarf_Word (a + b).
Proof.
  unfold to_Dwarf_Word, wrap_unsigned. apply Z.add_mod_idemp_l.
  change (2 ^ 64) with 18446744073709551616. lia.
Qed.

(** [int] arithmetic that stays in range gives its result and changes
    nothing; any other stops the run. *)
Lemma int_arith_ok (z : Z) (w : World) :
  INT_MIN <= z <= INT_MAX -> int_arith z w = Done z w.
Proof.
  intros [Hlo Hhi]. unfold int_arith.
  destruct (Z.leb_spec INT_MIN z); [|lia].
  destruct (Z.leb_spec z INT_MAX); [|lia]. reflexivity.
Qed.

Lemma int_arith_inv (z a : Z) (w w' : World) :
  int_arith z w = Done a w' -> a = z /\ w' = w /\ INT_MIN <= z <= INT_MAX.
Proof.
  unfold int_arith.
  destruct (Z.leb_spec INT_MIN z); [|discriminate].
  destruct (Z.leb_spec z INT_MAX); [|discriminate].
  cbn [andb]. unfold ret. intros Hrun. injection Hrun as <- <-. auto.
Qed.

Lemma int_arith_overflow (z : Z) (w : World) :
  ~ INT_MIN <= z <= INT_MAX -> int_arith z w = Crash SignedOverflow.
Proof.
  intros H. unfold int_arith.
  destruct (Z.leb_spec INT_MIN z); [|reflexivity].
  destruct (Z.leb_spec z INT_MAX); [lia|reflexivity].
Qed.

(** ** C strings *)

Lemma strlen_list (s : string) :
  strlen s = length (list_ascii_of_string s).
Proof. induction s as [|c s IH]; simpl; [reflexivity | now rewrite <- IH]. Qed.

Lemma strlen_app (p t : string) : strlen (p +:+ t) = (strlen p + strlen t)%nat.
Proof.
  unfold strlen. induction p as [|c p IH]; simpl; [reflexivity | now rewrite IH].
Qed.

Lemma append_assoc (a b c : string) : (a +:+ b) +:+ c = a +:+ (b +:+ c).
Proof.
  induction a as [|x a IH]; [reflexivity|].
  change (String x ((a +:+ b) +:+ c) = String x (a +:+ (b +:+ c))).
  now rewrite IH.
Qed.

Lemma append_nil_r (a : string) : a +:+ EmptyString = a.
Proof.
  induction a as [|x a IH]; [reflexivity|].
  change (String x (a +:+ EmptyString) = String x a). now rewrite IH.
Qed.

Lemma char_at_list (s : string) (i : nat) :
  char_at s i = nth i (list_ascii_of_string s) zero.
Proof.
  unfold char_at. revert i.
  induction s as [|c s IH]; intros [|i]; simpl; try reflexivity.
  apply IH.
Qed.

Lemma list_ascii_app (p t : string) :
  list_ascii_of_string (p +:+ t) =
  list_ascii_of_string p ++ list_ascii_of_string t.
Proof. induction p as [|c p IH]; simpl; [reflexivity | now rewrite IH]. Qed.

Lemma N_of_ascii_zero (c : ascii) : N_of_ascii c = 0%N -> c = zero.
Proof. intros H. rewrite <- (ascii_N_embedding c), H. reflexivity. Qed.

Lemma char_to_int_inj (a b : ascii) :
  char_to_int a - char_to_int b = 0 -> a = b.
Proof.
  intros H.
  assert (Hn : N_of_ascii a = N_of_ascii b).
  { unfold char_to_int in H.
    pose proof (N_ascii_bounded a). pose proof (N_ascii_bounded b).
    destruct (Z.ltb_spec (Z.of_N (N_of_ascii a)) 128),
             (Z.ltb_spec (Z.of_N (N_of_ascii b)) 128); lia. }
  rewrite <- (ascii_N_embedding a), <- (ascii_N_embedding b). now rewrite Hn.
Qed.

Lemma strchr_Some (s : string) (c : ascii) (s' : string) :
  strchr s c = Some s' ->
  exists pre rest, s = pre +:+ s' /\ strchr pre c = None /\ s' = String c rest.
Proof.
  induction s as [|a s IH]; simpl; [discriminate|].
  destruct (Ascii.eqb_spec a c) as [->|Hne].
  - intros H. injection H as <-. exists EmptyString, s. auto.
  - intros H. destruct (IH H) as (pre & rest & -> & Hpre & ->).
    exists (String a pre), rest. simpl.
    destruct (Ascii.eqb_spec a c); [contradiction|]. auto.
Qed.

Lemma strcmp_zero_iff (s1 s2 : string) :
  no_nul s1 = true -> no_nul s2 = true -> strcmp s1 s2 = 0 <-> s1 = s2.
Proof.
  revert s2. induction s1 as [|a s1 IH]; intros [|b s2]; simpl; intros H1 H2.
  - tauto.
  - apply andb_prop in H2. destruct H2 as [Hb _].
    split; [|discriminate]. intros H.
    assert (E : b = zero) by (apply N_of_ascii_zero; lia).
    subst b. discriminate Hb.
  - apply andb_prop in H1. destruct H1 as [Ha _].
    split; [|discriminate]. intros H.
    assert (E : a = zero) by (apply N_of_ascii_zero; lia).
    subst a. discriminate Ha.
  - apply andb_prop in H1. destruct H1 as [_ H1].
    apply andb_prop in H2. destruct H2 as [_ H2].
    destruct (Ascii.eqb_spec a b) as [->|Hne].
    + rewrite (IH s2 H1 H2). split; [now intros -> | intros E; now injection E].
    + split.
      * intros H. exfalso. apply Hne.
        rewrite <- (ascii_N_embedding a), <- (ascii_N_embedding b).
        f_equal. lia.
      * intros E. injection E as E _. contradiction.
Qed.

(** ** strtailcmp *)

Lemma is_tail_of_suffix (t s : string) :
  is_tail_of t s <->
  list_ascii_of_string t `suffix_of` list_ascii_of_string s.
Proof.
  split.
  - intros [p ->]. exists (list_ascii_of_string p). apply list_ascii_app.
  - intros [k Hk]. exists (string_of_list_ascii k).
    rewrite <- (string_of_list_ascii_of_string s), Hk.
    rewrite <- (string_of_list_ascii_of_string t) at 2.
    clear Hk. induction k as [|c k IH]; simpl.
    + reflexivity.
    + now rewrite IH.
Qed.

Lemma comparable_nil_l (y : list ascii) : comparable [] y.
Proof. left. apply prefix_nil. Qed.

Lemma comparable_nil_r (x : list ascii) : comparable x [].
Proof. right. apply prefix_nil. Qed.

Lemma comparable_cons (a b : ascii) (x y : list ascii) :
  comparable (a :: x) (b :: y) <-> a = b /\ comparable x y.
Proof.
  unfold comparable. split.
  - intros [H|H].
    + pose proof (prefix_cons_inv_1 _ _ _ _ H) as ->.
      apply prefix_cons_inv_2 in H. auto.
    + pose proof (prefix_cons_inv_1 _ _ _ _ H) as ->.
      apply prefix_cons_inv_2 in H. auto.
  - intros [-> [H|H]]; [left|right]; now apply prefix_cons.
Qed.

Lemma take_S_nth (l : list ascii) (i : nat) :
  (i < length l)%nat -> take (S i) l = take i l ++ [nth i l zero].
Proof.
  revert i. induction l as [|a l IH]; intros i Hi; simpl in Hi; [lia|].
  destruct i as [|i]; simpl; [reflexivity|].
  f_equal. apply IH. lia.
Qed.

(** The loop entered at [i1], [i2] answers 0 exactly when the bytes below
    these indices, read from the right, agree as far as both go. *)
Lemma strtailcmp_loop_spec (s1 s2 : string) (i1 i2 : nat) :
  (i1 <= strlen s1)%nat -> (i2 <= strlen s2)%nat ->
  strtailcmp_loop s1 s2 i1 i2 = 0 <->
  comparable (reverse (take i1 (list_ascii_of_string s1)))
             (reverse (take i2 (list_ascii_of_string s2))).
Proof.
  rewrite !strlen_list. revert i2.
  induction i1 as [|i1 IH]; intros i2 H1 H2.
  - simpl. split; [intros _; apply comparable_nil_l | reflexivity].
  - destruct i2 as [|i2].
    + simpl. split; [intros _ | reflexivity].
      rewrite take_0. apply comparable_nil_r.
    + cbn [strtailcmp_loop].
      rewrite (take_S_nth _ i1), (take_S_nth _ i2) by lia.
      rewrite !reverse_snoc, comparable_cons, <- !char_at_list.
      destruct (Ascii.eqb_spec (char_at s1 i1) (char_at s2 i2)) as [E|E].
      * rewrite IH by lia. tauto.
      * split; [|tauto]. intros H. apply char_to_int_inj in H. contradiction.
Qed.

(** C5, as amended: [strtailcmp] returns 0 if and only if one of the two
    strings is a tail of the other, byte by byte; nothing ties the match to
    the '/' that separate path components. *)
Theorem strtailcmp_zero_iff_tail (s1 s2 : string) :
  strtailcmp s1 s2 = 0 <-> is_tail_of s1 s2 \/ is_tail_of s2 s1.
Proof.
  unfold strtailcmp.
  rewrite strtailcmp_loop_spec by lia.
  rewrite !strlen_list, !firstn_all, !is_tail_of_suffix, !suffix_prefix_reverse.
  reflexivity.
Qed.

(** C5, as stated, fails: "kernel/mysched.c" and "sched.c" match although
    the match cuts the component "mysched.c" in two. *)
Lemma strtailcmp_splits_component :
  ~ (strtailcmp "kernel/mysched.c" "sched.c" = 0 <->
     component_tail_match "kernel/mysched.c" "sched.c").
Proof.
  intros [H _]. specialize (H eq_refl).
  unfold component_tail_match in H.
  change (path_components "kernel/mysched.c")
    with ["kernel"; "mysched.c"]%string in H.
  change (path_components "sched.c") with ["sched.c"]%string in H.
  destruct H as [[k Hk]|[k Hk]].
  - destruct k as [|? [|? ?]]; discriminate Hk.
  - destruct k as [|? [|? [|? ?]]]; simpl in Hk; discriminate Hk.
Qed.

(** ** get_real_path *)

Section GetRealPath.

Variable env : Env.
Variable prefix : string.

Lemma get_real_path_step_retry (raw raw' : string) :
  get_real_path_step env prefix raw = PathRetry raw' ->
  retry_errno (access_R_OK env (prefix +:+ "/" +:+ raw)) /\
  strips_leading_component raw raw' /\
  (strlen raw' < strlen raw)%nat.
Proof.
  unfold get_real_path_step, retry_errno.
  destruct (Z.eqb_spec (access_R_OK env (prefix +:+ "/" +:+ raw)) 0);
    [discriminate|].
  destruct (Z.eqb_spec (access_R_OK env (prefix +:+ "/" +:+ raw)) ENAMETOOLONG)
    as [E1|E1];
  destruct (Z.eqb_spec (access_R_OK env (prefix +:+ "/" +:+ raw)) ENOENT)
    as [E2|E2];
  destruct (Z.eqb_spec (access_R_OK env (prefix +:+ "/" +:+ raw)) EROFS)
    as [E3|E3];
  destruct (Z.eqb_spec (access_R_OK env (prefix +:+ "/" +:+ raw)) EFAULT)
    as [E4|E4];
  simpl; try discriminate;
  (destruct raw as [|c raw1]; [discriminate|];
   destruct (strchr raw1 "/"%char) as [s|] eqn:Es; [|discriminate];
   intros H; injection H as ->;
   destruct (strchr_Some _ _ _ Es) as (pre & rest & Hraw & Hpre & Hrest);
   split; [tauto|]; split;
   [ exists c, pre, rest; rewrite Hraw; auto
   | rewrite Hraw; simpl; rewrite strlen_app; lia ]).
Qed.

Lemma get_real_path_step_no_fault (raw : string) :
  raw <> EmptyString -> get_real_path_step env prefix raw <> PathFault.
Proof.
  intros Hne Es. unfold get_real_path_step in Es.
  destruct raw; [contradiction|].
  destruct (_ =? 0); [discriminate|].
  destruct (_ || _); [|discriminate].
  destruct (strchr raw "/"%char); discriminate.
Qed.

Lemma get_real_path_loop_returns (fuel : nat) (raw : string) (w : World) :
  raw <> EmptyString -> (strlen raw < fuel)%nat ->
  exists r new_path,
    get_real_path_loop env fuel prefix raw w = Done (r, new_path) w.
Proof.
  revert raw. induction fuel as [|fuel IH]; intros raw Hne Hlen; [lia|].
  simpl. destruct (get_real_path_step env prefix raw) as [r p|raw'|] eqn:Es.
  - eauto.
  - destruct (get_real_path_step_retry _ _ Es)
      as (_ & (c & first & rest & _ & _ & Hr) & Hlt).
    apply IH; [rewrite Hr; discriminate | lia].
  - now apply get_real_path_step_no_fault in Es.
Qed.

Lemma get_real_path_loop_exhausted (fuel : nat) (raw : string) (w : World) :
  (forall path, retry_errno (access_R_OK env path)) ->
  raw <> EmptyString -> (strlen raw < fuel)%nat ->
  get_real_path_loop env fuel prefix raw w = Done (- ENOENT, None) w.
Proof.
  intros Hall. revert raw.
  induction fuel as [|fuel IH]; intros raw Hne Hlen; [lia|].
  simpl. destruct (get_real_path_step env prefix raw) as [r p|raw'|] eqn:Es.
  - unfold get_real_path_step in Es.
    specialize (Hall (prefix +:+ "/" +:+ raw)). unfold retry_errno in Hall.
    destruct raw as [|c raw1]; [contradiction|].
    destruct Hall as [E|[E|[E|E]]]; rewrite E in Es; simpl in Es;
      (destruct (strchr raw1 "/"%char); [discriminate|];
       injection Es as <- <-; reflexivity).
  - destruct (get_real_path_step_retry _ _ Es)
      as (_ & (c & first & rest & _ & _ & Hr) & Hlt).
    apply IH; [rewrite Hr; discriminate | lia].
  - now apply get_real_path_step_no_fault in Es.
Qed.

End GetRealPath.

(** C8: with a source prefix configured, [get_real_path] returns for every
    path that is not empty: a retry happens only on ENAMETOOLONG, ENOENT,
    EROFS or EFAULT, it strips the leading component of the remaining
    suffix and so makes it strictly shorter, a budget of more turns than
    the path has bytes is never used up, and when every candidate is
    missing the answer is -ENOENT. *)
Theorem get_real_path_terminates
    (env : Env) (prefix raw_path : string) (fuel : nat) (w : World)
    (Hprefix : source_prefix env = Some prefix)
    (Hraw : raw_path <> EmptyString)
    (Hfuel : (strlen raw_path < fuel)%nat) :
  (forall raw raw',
     get_real_path_step env prefix raw = PathRetry raw' ->
     retry_errno (access_R_OK env (prefix +:+ "/" +:+ raw)) /\
     strips_leading_component raw raw' /\
     (strlen raw' < strlen raw)%nat) /\
  (exists r new_path w',
     get_real_path env fuel raw_path w = Done (r, new_path) w') /\
  ((forall path, retry_errno (access_R_OK env path)) ->
   alloc_ok env (w_nalloc w) = true ->
   exists w', get_real_path env fuel raw_path w = Done (- ENOENT, None) w').
Proof.
  split; [intros raw raw'; apply get_real_path_step_retry|].
  unfold get_real_path. rewrite Hprefix. unfold bind, alloc.
  split.
  - destruct (alloc_ok env (w_nalloc w)); simpl.
    + destruct (get_real_path_loop_returns env prefix fuel raw_path
                  (mk_World (w_refs w) (S (w_nalloc w)) (w_log w)) Hraw Hfuel)
        as (r & p & ->). eauto.
    + unfold ret. eauto.
  - intros Hall ->. simpl. eexists.
    apply get_real_path_loop_exhausted; assumption.
Qed.

Lemma get_real_path_terminates_witness :
  exists w',
    get_real_path Fixture.env 15 "kernel/sched.c" Fixture.world
    = Done (- ENOENT, None) w'.
Proof.
  apply (get_real_path_terminates Fixture.env "/usr/src/linux"
           "kernel/sched.c" 15 Fixture.world).
  - reflexivity.
  - discriminate.
  - simpl. lia.
  - intros path. right. left. reflexivity.
  - reflexivity.
Defined.

(** The empty path is left out above: when its first candidate is
    missing, [++raw_path] steps over the terminating NUL. *)
Lemma get_real_path_empty_path :
  get_real_path Fixture.env 5 "" Fixture.world = Crash OutOfBounds.
Proof. reflexivity. Qed.

(** ** Line number list *)

(** Shape of a successful search from the tail. *)
Lemma line_list__search_Some (r : list Z) (line : Z) (k : nat) :
  line_list__search r line = Some k ->
  exists big rest,
    r = big ++ rest /\ length big = k /\
    Forall (fun x => line < x) big /\
    match rest with [] => True | y :: _ => y < line end.
Proof.
  revert k. induction r as [|ln r IH]; intros k H; simpl in H.
  - injection H as <-. exists [], []. repeat split; constructor.
  - destruct (Z.ltb_spec ln line) as [Hlt|Hge].
    + injection H as <-. exists [], (ln :: r).
      repeat split; [constructor | exact Hlt].
    + destruct (Z.eqb_spec ln line) as [Heq|Hne]; [discriminate|].
      destruct (line_list__search r line) as [k'|] eqn:E; [|discriminate].
      injection H as <-.
      destruct (IH k' eq_refl) as (big & rest & -> & Hlen & Hbig & Hrest).
      exists (ln :: big), rest. repeat split; simpl; auto.
      constructor; [lia | exact Hbig].
Qed.

Lemma line_list__search_skip (big rest : list Z) (line : Z) :
  Forall (fun x => line < x) big ->
  line_list__search (big ++ line :: rest) line = None.
Proof.
  induction 1 as [|x big Hx _ IH]; simpl.
  - destruct (Z.ltb_spec line line); [lia|]. now rewrite Z.eqb_refl.
  - destruct (Z.ltb_spec x line); [lia|].
    destruct (Z.eqb_spec x line); [lia|]. now rewrite IH.
Qed.

(** What [line_list__add_line] leaves in the list when it inserts. *)
Lemma line_list__insert_shape (head : list Z) (line : Z) (k : nat) :
  line_list__search (rev head) line = Some k ->
  exists small big,
    head = small ++ big /\
    take (length head - k) head ++ line :: drop (length head - k) head
      = small ++ line :: big /\
    Forall (fun x => line < x) big /\
    (small = [] \/ exists small' y, small = small' ++ [y] /\ y < line).
Proof.
  intros H. apply line_list__search_Some in H.
  destruct H as (big & rest & Hr & Hlen & Hbig & Hrest).
  assert (Hhead : head = rev rest ++ rev big).
  { rewrite <- (rev_involutive head), Hr. apply rev_app_distr. }
  exists (rev rest), (rev big). split; [exact Hhead|].
  assert (Hp : (length head - k)%nat = length (rev rest)).
  { rewrite Hhead, length_app, !length_rev. lia. }
  rewrite Hp, Hhead, take_app_length, drop_app_length.
  repeat split.
  - apply Forall_forall. intros x Hx. apply (proj1 (Forall_forall _ _) Hbig).
    apply list_elem_of_In, in_rev, list_elem_of_In, Hx.
  - destruct rest as [|y rest]; [left; reflexivity|].
    right. exists (rev rest), y. split; [reflexivity | exact Hrest].
Qed.

Lemma StronglySorted_insert (small big : list Z) (line : Z) :
  StronglySorted Z.lt (small ++ big) ->
  Forall (fun x => line < x) big ->
  (small = [] \/ exists small' y, small = small' ++ [y] /\ y < line) ->
  StronglySorted Z.lt (small ++ line :: big).
Proof.
  intros Hs Hbig Hsmall.
  assert (Hlt : Forall (fun x => x < line) small).
  { destruct Hsmall as [->|(small' & y & -> & Hy)]; [constructor|].
    apply Forall_app. split; [|repeat constructor; exact Hy].
    rewrite <- app_assoc in Hs. simpl in Hs.
    induction small' as [|a small' IH]; [constructor|].
    simpl in Hs. apply StronglySorted_inv in Hs. destruct Hs as [Hs Ha].
    constructor; [|apply IH, Hs].
    apply Forall_app in Ha. destruct Ha as [_ Ha].
    apply Forall_inv in Ha. lia. }
  clear Hsmall. induction small as [|a small IH]; simpl in *.
  - constructor; [exact Hs | exact Hbig].
  - apply StronglySorted_inv in Hs. destruct Hs as [Hs Ha].
    constructor.
    + apply IH; [exact Hs | exact (Forall_inv_tail Hlt)].
    + apply Forall_app in Ha. destruct Ha as [Ha1 Ha2].
      apply Forall_app. split; [exact Ha1|].
      constructor; [exact (Forall_inv Hlt) | exact Ha2].
Qed.

(** C6: on a strictly ascending list, [line_list__add_line] returns and
    leaves a strictly ascending list (so one without duplicates), changed
    only when it answers 0; after it answered 0 for [line], the list holds
    [line], and a second call for [line] answers 1 and changes neither
    the list nor anything else. *)
Theorem line_list__add_line_ascending_idempotent
    (env : Env) (head : list Z) (line : Z) (w : World)
    (Hsorted : StronglySorted Z.lt head) :
  exists r head' w',
    line_list__add_line env head line w = Done (r, head') w' /\
    StronglySorted Z.lt head' /\
    (r = 0 \/ head' = head) /\
    (r = 0 ->
     In line head' /\
     forall w2, line_list__add_line env head' line w2 = Done (1, head') w2).
Proof.
  unfold line_list__add_line.
  destruct (line_list__search (rev head) line) as [k|] eqn:E.
  - destruct (line_list__insert_shape _ _ _ E)
      as (small & big & Hhead & Hins & Hbig & Hsmall).
    unfold bind, pr_debug, pr, alloc, ret. simpl.
    destruct (alloc_ok env (w_nalloc w)); simpl.
    + eexists _, _, _. split; [reflexivity|]. rewrite Hins.
      split; [apply StronglySorted_insert;
              [now rewrite <- Hhead | exact Hbig | exact Hsmall]|].
      split; [now left|].
      intros _. split; [apply in_or_app; right; left; reflexivity|].
      intros w2.
      assert (Hrev : rev (small ++ line :: big) = rev big ++ line :: rev small).
      { rewrite rev_app_distr. simpl. now rewrite <- app_assoc. }
      rewrite Hrev, line_list__search_skip; [reflexivity|].
      apply Forall_forall. intros x Hx. apply (proj1 (Forall_forall _ _) Hbig).
      apply list_elem_of_In, in_rev, list_elem_of_In, Hx.
    + eexists _, _, _. split; [reflexivity|]. split; [exact Hsorted|].
      split; [now right|]. unfold ENOMEM. intros H. discriminate H.
  - eexists _, _, _. split; [reflexivity|]. split; [exact Hsorted|].
    split; [now right|]. intros H. discriminate H.
Qed.

Lemma line_list__add_line_ascending_idempotent_witness :
  StronglySorted Z.lt [3; 7] /\
  exists r head' w',
    line_list__add_line Fixture.env [3; 7] 5 Fixture.world = Done (r, head') w' /\
    StronglySorted Z.lt head' /\
    (r = 0 \/ head' = [3; 7]) /\
    (r = 0 ->
     In 5 head' /\
     forall w2,
       line_list__add_line Fixture.env head' 5 w2 = Done (1, head') w2).
Proof.
  assert (H : StronglySorted Z.lt [3; 7]) by (repeat constructor; lia).
  split; [exact H|].
  exact (line_list__add_line_ascending_idempotent
           Fixture.env [3; 7] 5 Fixture.world H).
Defined.

(** ** die_compare_name *)

(** C4, as amended: [die_compare_name] follows [strcmp]: it returns false
    (0) exactly when the DIE has a name and that name equals the expected
    string, and it returns true when the names differ and when the DIE has
    no name; its callers test the result against 0. *)
Theorem die_compare_name_zero_iff_equal (dw_die : Dwarf_Die) (tname : string)
    (Htname : no_nul tname = true)
    (Hname : opt_no_nul (dwarf_diename dw_die) = true) :
  (die_compare_name dw_die tname = false <-> dwarf_diename dw_die = Some tname) /\
  (dwarf_diename dw_die = None -> die_compare_name dw_die tname = true).
Proof.
  unfold die_compare_name, int_to_bool.
  destruct (dwarf_diename dw_die) as [name|];
    [|split; [split; discriminate | reflexivity]].
  split; [|discriminate]. simpl in Hname.
  rewrite negb_false_iff, Z.eqb_eq, strcmp_zero_iff by auto.
  split; [now intros -> | intros E; now injection E].
Qed.

Lemma die_compare_name_zero_iff_equal_witness :
  (die_compare_name Fixture.kfree_die "kfree" = false <->
   dwarf_diename Fixture.kfree_die = Some "kfree"%string) /\
  (dwarf_diename Fixture.kfree_die = None ->
   die_compare_name Fixture.kfree_die "kfree" = true).
Proof.
  apply (die_compare_name_zero_iff_equal Fixture.kfree_die "kfree");
    reflexivity.
Defined.

(** C4, as stated, fails: on a DIE named "kfree" and the expected name
    "kfree" the result is not true but false, and on a DIE without a name
    it is not false but true. *)
Lemma die_compare_name_equal_is_false :
  ~ (die_compare_name Fixture.kfree_die "kfree" = true <->
     dwarf_diename Fixture.kfree_die = Some "kfree"%string) /\
  dwarf_diename Fixture.anon_die = None /\
  die_compare_name Fixture.anon_die "kfree" <> false.
Proof.
  split; [|split; [reflexivity | discriminate]].
  intros [_ H]. specialize (H eq_refl). discriminate H.
Qed.

(** ** convert_variable_location *)

(** C1: for a variable whose location at the probe address is
    [DW_OP_fbreg n]: when the frame base is the single operation
    [DW_OP_bregN m] and register N has a name on the architecture, the
    value is that register, [ref] is set, and the one new reference node
    carries the offset n + m (as a [long]); when no frame base is
    available the answer is -ENOTSUP and nothing is written. *)
Theorem convert_variable_location_fbreg
    (env : Env) (vr_die : Dwarf_Die) (pf : probe_finder) (w : World) (n n2 : Z)
    (Hloc : at_location vr_die (pf_addr pf) = Some [mk_op DW_OP_fbreg n n2]) :
  (forall (N m m2 : Z) (regs : string),
     0 <= N <= 31 ->
     pf_fb_ops pf = Some [mk_op (DW_OP_breg0 + N) m m2] ->
     get_arch_regstr env N = Some regs ->
     (forall k, alloc_ok env k = true) ->
     convert_variable_location env vr_die pf w
     = Done (0, set_tvar pf (set_targ_ref
                               (set_targ_value (pf_tvar pf) (Some regs))
                               (Some (length (w_refs w)))))
            (mk_World (w_refs w ++ [mk_ref None (to_long (n + m))])
                      (S (S (w_nalloc w))) (w_log w))) /\
  (pf_fb_ops pf = None ->
   exists msg,
     convert_variable_location env vr_die pf w
     = Done (- ENOTSUP, pf)
            (mk_World (w_refs w) (w_nalloc w) (msg :: w_log w))).
Proof.
  split.
  - intros N m m2 regs HN Hfb Hreg Halloc.
    unfold convert_variable_location. rewrite Hloc. cbn [atom number].
    change (DW_OP_fbreg =? DW_OP_addr) with false.
    change (DW_OP_fbreg =? DW_OP_fbreg) with true. cbv iota.
    rewrite Hfb. unfold location_register.
    assert (Hin : (DW_OP_breg0 <=? DW_OP_breg0 + N) &&
                  (DW_OP_breg0 + N <=? DW_OP_breg31) = true).
    { unfold DW_OP_breg0, DW_OP_breg31.
      apply andb_true_intro. split; apply Z.leb_le; lia. }
    rewrite bind_ret_l. cbn [atom number number2]. rewrite Hin.
    replace (DW_OP_breg0 + N - DW_OP_breg0) with N by lia.
    rewrite to_uint_small by (change (2 ^ 32) with 4294967296; lia).
    rewrite Hreg. msimpl. rewrite !Halloc. cbv beta iota.
    unfold ref_set_offset, ref_update. cbn [w_refs w_nalloc w_log].
    rewrite lookup_app_r by lia. rewrite Nat.sub_diag. cbn [lookup list_lookup].
    rewrite to_Dwarf_Word_add_l, to_long_Dwarf_Word.
    f_equal. f_equal.
    replace (length (w_refs w)) with (length (w_refs w) + 0)%nat at 1 by lia.
    rewrite insert_app_r. reflexivity.
  - intros Hfb. unfold convert_variable_location. rewrite Hloc. cbn [atom].
    change (DW_OP_fbreg =? DW_OP_addr) with false.
    change (DW_OP_fbreg =? DW_OP_fbreg) with true. cbv iota.
    rewrite Hfb. eexists. reflexivity.
Qed.

Lemma convert_variable_location_fbreg_witness :
  convert_variable_location Fixture.env Fixture.cpu_var
    (Fixture.finder [] 1 0x1000 (Some Fixture.frame_bp)) Fixture.world
  = Done (0, set_tvar (Fixture.finder [] 1 0x1000 (Some Fixture.frame_bp))
                (mk_targ None (Some "%bp"%string) None (Some 0%nat)))
         (mk_World [mk_ref None 24] 2 []) /\
  exists msg,
    convert_variable_location Fixture.env Fixture.cpu_var
      (Fixture.finder [] 1 0x1000 None) Fixture.world
    = Done (- ENOTSUP, Fixture.finder [] 1 0x1000 None)
           (mk_World [] 0 [msg]).
Proof.
  split.
  - apply (proj1 (convert_variable_location_fbreg Fixture.env Fixture.cpu_var
                    (Fixture.finder [] 1 0x1000 (Some Fixture.frame_bp))
                    Fixture.world 8 0 eq_refl) 6 16 0 "%bp"%string).
    + lia.
    + reflexivity.
    + reflexivity.
    + intros k. reflexivity.
  - apply (proj2 (convert_variable_location_fbreg Fixture.env Fixture.cpu_var
                    (Fixture.finder [] 1 0x1000 None)
                    Fixture.world 8 0 eq_refl)).
    reflexivity.
Defined.

(** The side condition on the register: without a name for register N
    the answer is -ERANGE and nothing is written. *)
Lemma convert_variable_location_fbreg_no_regstr
    (env : Env) (vr_die : Dwarf_Die) (pf : probe_finder) (w : World)
    (n n2 N m m2 : Z)
    (Hloc : at_location vr_die (pf_addr pf) = Some [mk_op DW_OP_fbreg n n2])
    (HN : 0 <= N <= 31)
    (Hfb : pf_fb_ops pf = Some [mk_op (DW_OP_breg0 + N) m m2])
    (Hreg : get_arch_regstr env N = None) :
  exists msg,
    convert_variable_location env vr_die pf w
    = Done (- ERANGE, pf) (mk_World (w_refs w) (w_nalloc w) (msg :: w_log w)).
Proof.
  unfold convert_variable_location. rewrite Hloc. cbn [atom number].
  change (DW_OP_fbreg =? DW_OP_addr) with false.
  change (DW_OP_fbreg =? DW_OP_fbreg) with true. cbv iota.
  rewrite Hfb. unfold location_register.
  assert (Hin : (DW_OP_breg0 <=? DW_OP_breg0 + N) &&
                (DW_OP_breg0 + N <=? DW_OP_breg31) = true).
  { unfold DW_OP_breg0, DW_OP_breg31.
    apply andb_true_intro. split; apply Z.leb_le; lia. }
  rewrite bind_ret_l. cbn [atom number number2]. rewrite Hin.
  replace (DW_OP_breg0 + N - DW_OP_breg0) with N by lia.
  rewrite to_uint_small by (change (2 ^ 32) with 4294967296; lia).
  rewrite Hreg. eexists. reflexivity.
Qed.

(** A variable that lives in a register leaves [ref] as it was. *)
Lemma convert_variable_location_reg
    (env : Env) (vr_die : Dwarf_Die) (pf : probe_finder) (w : World)
    (N : Z) (regs : string)
    (Hloc : at_location vr_die (pf_addr pf) = Some [mk_op (DW_OP_reg0 + N) 0 0])
    (HN : 0 <= N <= 31)
    (Hreg : get_arch_regstr env N = Some regs)
    (Halloc : forall k, alloc_ok env k = true) :
  convert_variable_location env vr_die pf w
  = Done (0, set_tvar pf (set_targ_value (pf_tvar pf) (Some regs)))
         (mk_World (w_refs w) (S (w_nalloc w)) (w_log w)).
Proof.
  unfold convert_variable_location. rewrite Hloc. cbn [atom].
  assert (H1 : (DW_OP_reg0 + N =? DW_OP_addr) = false)
    by (unfold DW_OP_reg0, DW_OP_addr; apply Z.eqb_neq; lia).
  assert (H2 : (DW_OP_reg0 + N =? DW_OP_fbreg) = false)
    by (unfold DW_OP_reg0, DW_OP_fbreg; apply Z.eqb_neq; lia).
  rewrite H1, H2, bind_ret_l. unfold location_register. cbn [atom].
  assert (H3 : (DW_OP_breg0 <=? DW_OP_reg0 + N) = false)
    by (unfold DW_OP_reg0, DW_OP_breg0; apply Z.leb_gt; lia).
  assert (H4 : (DW_OP_reg0 <=? DW_OP_reg0 + N) &&
               (DW_OP_reg0 + N <=? DW_OP_reg31) = true).
  { unfold DW_OP_reg0, DW_OP_reg31. apply andb_true_intro.
    split; apply Z.leb_le; lia. }
  rewrite H3, H4. cbn [andb].
  replace (DW_OP_reg0 + N - DW_OP_reg0) with N by lia.
  rewrite to_uint_small by (change (2 ^ 32) with 4294967296; lia).
  rewrite Hreg. msimpl. rewrite Halloc. reflexivity.
Qed.

(** ** convert_variable_type *)

(** [die_get_real_type] reads the debug information only. *)
Lemma die_get_real_type_loop_world (env : Env) (fuel : nat) :
  forall (vr_die : Dwarf_Die) (w w' : World) (x : option Dwarf_Die),
    die_get_real_type_loop env fuel vr_die w = Done x w' -> w' = w.
Proof.
  induction fuel as [|fuel IH]; intros vr_die w w' x; simpl; [discriminate|].
  destruct (at_type vr_die) as [off|]; [|intros H; now injection H].
  destruct (dwarf_formref_die env off) as [d|]; [|intros H; now injection H].
  destruct (is_qualifier_tag (dwarf_tag d)); [apply IH|].
  intros H. now injection H.
Qed.

(** C3, as amended.  Let [n] be the byte size of the resolved type as
    [die_get_byte_size] gives it: DW_AT_byte_size converted to [int], 0
    without the attribute.  When [convert_variable_type] sets a type tag,
    [8 * n] fits an [int] and the tag is 's' or 'u' followed by the width
    [8 * n], cut down to 64: a multiple of 8, not 0 and at most 64, but not
    always one of 8, 16, 32, 64; the width is more than 0 when [n] is and
    less than 0 when [n] is.  A width [8 * n] of more than 64 that fits an
    [int] is cut down to 64 with a report at the info level, and the call
    succeeds. *)
Theorem convert_variable_type_width
    (env : Env) (vr_die : Dwarf_Die) (targ : kprobe_trace_arg) (w : World) :
  (forall (r : Z) (targ' : kprobe_trace_arg) (w' : World) (t : string),
     targ_type targ = None ->
     convert_variable_type env vr_die targ w = Done (r, targ') w' ->
     targ_type targ' = Some t ->
     exists type bits,
       die_get_real_type env vr_die w = Done (Some type) w /\
       INT_MIN <= die_get_byte_size type * 8 <= INT_MAX /\
       bits = Z.min (die_get_byte_size type * 8) MAX_BASIC_TYPE_BITS /\
       t = type_tag_of type bits /\
       r = 0 /\ bits <> 0 /\ bits mod 8 = 0 /\ bits <= 64 /\
       (0 < die_get_byte_size type -> 0 < bits) /\
       (die_get_byte_size type < 0 -> bits < 0)) /\
  (forall (type : Dwarf_Die),
     die_get_real_type env vr_die w = Done (Some type) w ->
     MAX_BASIC_TYPE_BITS < die_get_byte_size type * 8 <= INT_MAX ->
     (forall k, alloc_ok env k = true) ->
     exists w',
       convert_variable_type env vr_die targ w
       = Done (0, set_targ_type targ (Some (type_tag_of type 64))) w' /\
       In (clamp_info type) (w_log w')).
Proof.
  split.
  - intros r targ' w' t Hnone Hrun Ht.
    unfold convert_variable_type in Hrun.
    unfold bind at 1 in Hrun.
    destruct (die_get_real_type env vr_die w) as [[type|] w1| |] eqn:Ety;
      try discriminate.
    2:{ msimpl_in Hrun. injection Hrun as _ <- _. congruence. }
    pose proof (die_get_real_type_loop_world _ _ _ _ _ _ Ety) as ->.
    unfold pr_debug in Hrun. rewrite bind_pr in Hrun.
    apply bind_inv in Hrun as (bits0 & w2 & Hbits0 & Hrun).
    apply int_arith_inv in Hbits0 as (-> & -> & Hrange).
    exists type, (Z.min (die_get_byte_size type * 8) MAX_BASIC_TYPE_BITS).
    split; [reflexivity|]. split; [exact Hrange|]. split; [reflexivity|].
    set (n := die_get_byte_size type) in *.
    unfold int_to_bool in Hrun.
    destruct (Z.eqb_spec (n * 8) 0) as [Hz|Hnz]; cbn [negb] in Hrun.
    { msimpl_in Hrun. injection Hrun as _ <- _. congruence. }
    assert (Hbits : Z.min (n * 8) MAX_BASIC_TYPE_BITS <> 0 /\
                    Z.min (n * 8) MAX_BASIC_TYPE_BITS mod 8 = 0 /\
                    Z.min (n * 8) MAX_BASIC_TYPE_BITS <= 64 /\
                    (0 < n -> 0 < Z.min (n * 8) MAX_BASIC_TYPE_BITS) /\
                    (n < 0 -> Z.min (n * 8) MAX_BASIC_TYPE_BITS < 0)).
    { unfold MAX_BASIC_TYPE_BITS.
      destruct (Z.min_spec (n * 8) 64) as [[? ->]|[? ->]];
        repeat split; try lia; try reflexivity; apply Z_mod_mult. }
    assert (Hmin : (if n * 8 >? MAX_BASIC_TYPE_BITS
                    then MAX_BASIC_TYPE_BITS else n * 8)
                   = Z.min (n * 8) MAX_BASIC_TYPE_BITS).
    { destruct (Z.gtb_spec (n * 8) MAX_BASIC_TYPE_BITS);
        [rewrite Z.min_r | rewrite Z.min_l]; lia. }
    rewrite <- Hmin.
    destruct (n * 8 >? MAX_BASIC_TYPE_BITS); msimpl_in Hrun;
      (destruct ((_ <? 0) || (_ >=? 16));
       [ injection Hrun as _ <- _; congruence
       | destruct (alloc_ok env _); injection Hrun as <- <- _;
         simpl in Ht; [|discriminate];
         injection Ht as <-; unfold type_tag_of;
         rewrite <- Hmin in Hbits; tauto ]).
  - intros type Hty Hwide Halloc.
    unfold convert_variable_type.
    rewrite (bind_Done _ _ _ _ _ Hty).
    unfold pr_debug. rewrite bind_pr.
    erewrite bind_Done
      by (apply int_arith_ok; unfold INT_MIN, MAX_BASIC_TYPE_BITS in *; lia).
    unfold int_to_bool.
    destruct (Z.eqb_spec (die_get_byte_size type * 8) 0) as [Hz|_];
      [unfold MAX_BASIC_TYPE_BITS in Hwide; lia|]. cbn [negb].
    destruct (Z.gtb_spec (die_get_byte_size type * 8)
                         MAX_BASIC_TYPE_BITS) as [_|Hle]; [|lia].
    unfold type_tag_of.
    destruct (die_is_signed_type type);
      (msimpl;
       match goal with
       | |- context [orb ?a ?b] => change (orb a b) with false
       end;
       cbv beta iota; rewrite Halloc; cbv beta iota;
       eexists; split; [reflexivity|]; cbn [w_log]; left; reflexivity).
Qed.

(** The variable [cpu], an [int] of 4 bytes, and the variable [wide], an
    integer of 16 bytes. *)
Lemma convert_variable_type_width_witness :
  (exists type bits,
     die_get_real_type Fixture.env Fixture.cpu_var Fixture.world
     = Done (Some type) Fixture.world /\
     INT_MIN <= die_get_byte_size type * 8 <= INT_MAX /\
     bits = Z.min (die_get_byte_size type * 8) MAX_BASIC_TYPE_BITS /\
     "s32"%string = type_tag_of type bits /\
     0 = 0 /\ bits <> 0 /\ bits mod 8 = 0 /\ bits <= 64 /\
     (0 < die_get_byte_size type -> 0 < bits) /\
     (die_get_byte_size type < 0 -> bits < 0)) /\
  (exists w',
     convert_variable_type Fixture.env Fixture.wide_var targ_zero Fixture.world
     = Done (0, set_targ_type targ_zero
                  (Some (type_tag_of Fixture.uint128_type 64))) w' /\
     In (clamp_info Fixture.uint128_type) (w_log w')).
Proof.
  split.
  - apply (proj1 (convert_variable_type_width Fixture.env Fixture.cpu_var
                    targ_zero Fixture.world)
             0 (mk_targ None None (Some "s32"%string) None)
             (mk_World [] 1
                [mk_log LDebug "%s type is %s.\n"
                        [AStr (Some "cpu"%string); AStr (Some "int"%string)]])
             "s32"%string).
    + reflexivity.
    + vm_compute. reflexivity.
    + reflexivity.
  - apply (proj2 (convert_variable_type_width Fixture.env Fixture.wide_var
                    targ_zero Fixture.world) Fixture.uint128_type).
    + reflexivity.
    + vm_compute. split; [reflexivity | discriminate].
    + intros k. reflexivity.
Defined.

(** A byte size that is negative as an [int] gives a negative width, which
    is neither cut down nor reported: DW_AT_byte_size 4294967295 is the
    [int] -1 and the tag carries the width -8. *)
Lemma convert_variable_type_negative_width
    (env : Env) (vr_die type : Dwarf_Die) (targ : kprobe_trace_arg)
    (w : World) :
  die_get_real_type env vr_die w = Done (Some type) w ->
  at_byte_size type = Some 4294967295 ->
  (forall k, alloc_ok env k = true) ->
  die_get_byte_size type = -1 /\
  fmt_d (-8) = "-8"%string /\
  exists w',
    convert_variable_type env vr_die targ w
    = Done (0, set_targ_type targ (Some (type_tag_of type (-8)))) w' /\
    ~ In (clamp_info type) (firstn (length (w_log w') - length (w_log w))
                                   (w_log w')).
Proof.
  intros Hty Hsize Halloc.
  assert (Hn : die_get_byte_size type = -1)
    by (unfold die_get_byte_size; now rewrite Hsize).
  split; [exact Hn|]. split; [reflexivity|].
  unfold convert_variable_type.
  rewrite (bind_Done _ _ _ _ _ Hty).
  unfold pr_debug. rewrite bind_pr, Hn.
  change (int_arith (-1 * 8)) with (@ret Z (-8)). rewrite bind_ret_l.
  change (int_to_bool (-8)) with true. cbv iota.
  change (-8 >? MAX_BASIC_TYPE_BITS) with false. cbv iota.
  rewrite bind_ret_l. unfold type_tag_of.
  destruct (die_is_signed_type type);
    (msimpl;
     match goal with
     | |- context [orb ?a ?b] => change (orb a b) with false
     end;
     cbv beta iota; rewrite Halloc; cbv beta iota;
     eexists; split; [reflexivity|]; cbn [w_log length];
     replace (S (length (w_log w)) - length (w_log w))%nat with 1%nat by lia;
     cbn [firstn In]; intros [H|[]]; discriminate H).
Qed.

(** A width [8 * n] that does not fit an [int] is computed by an [int]
    multiplication that C leaves undefined: DW_AT_byte_size 0x20000000 is
    such a size. *)
Lemma convert_variable_type_overflow
    (env : Env) (vr_die type : Dwarf_Die) (targ : kprobe_trace_arg)
    (w : World) :
  die_get_real_type env vr_die w = Done (Some type) w ->
  ~ INT_MIN <= die_get_byte_size type * 8 <= INT_MAX ->
  convert_variable_type env vr_die targ w = Crash SignedOverflow.
Proof.
  intros Hty Hrange. unfold convert_variable_type.
  rewrite (bind_Done _ _ _ _ _ Hty).
  unfold pr_debug. rewrite bind_pr.
  apply bind_Crash. now apply int_arith_overflow.
Qed.

Lemma convert_variable_type_overflow_size (type : Dwarf_Die) :
  at_byte_size type = Some 0x20000000 ->
  ~ INT_MIN <= die_get_byte_size type * 8 <= INT_MAX.
Proof.
  intros Hsize. unfold die_get_byte_size. rewrite Hsize.
  change (to_int 0x20000000) with 0x20000000. unfold INT_MAX. lia.
Qed.

(** C3, as stated, fails: the variable [color], a structure of 3 bytes,
    is emitted with the tag "u24", which is none of the eight basic
    tags. *)
Lemma convert_variable_type_u24 :
  exists w',
    convert_variable_type Fixture.env Fixture.color_var targ_zero Fixture.world
    = Done (0, mk_targ None None (Some "u24"%string) None) w' /\
    ~ In "u24"%string basic_type_tags.
Proof.
  eexists. split; [vm_compute; reflexivity|].
  unfold basic_type_tags. simpl.
  intros H. repeat (destruct H as [H|H]; [discriminate H|]). exact H.
Qed.

(** The same variable through [convert_probe_point]: the event that is
    emitted carries the tag. *)
Lemma convert_probe_point_u24 :
  exists pf' w',
    convert_probe_point Fixture.env None
      (Fixture.finder [Fixture.parg "color" None] 1 0x1000 None) Fixture.world
    = Done (0, pf') w' /\
    pf_tevs pf'
    = [mk_tev (mk_tpoint (Some "kfree"%string) 0 false) 1
              (Some [mk_targ (Some "color"%string) (Some "%bp"%string)
                             (Some "u24"%string) (Some 0%nat)])].
Proof.
  eexists _, _. split; [vm_compute; reflexivity|]. reflexivity.
Qed.

(** ** convert_variable_fields *)

Lemma convert_variable_fields_array_null_ref
    (env : Env) (vr_die : Dwarf_Die) (varname : string)
    (field : perf_probe_arg_field) (w : World) (type elt : Dwarf_Die)
    (Hty : forall w, die_get_real_type env vr_die w = Done (Some type) w)
    (Htag : dwarf_tag type = DW_TAG_array_type)
    (Hidx : name0 (field_name field) = "["%char)
    (Helt : forall w, die_get_real_type env type w = Done (Some elt) w) :
  convert_variable_fields env vr_die varname field None w = Crash NullDeref.
Proof.
  destruct field as [nx nm idx rf]. cbn [field_name] in Hidx.
  unfold convert_variable_fields.
  cbn [field_name field_next field_index field_ref].
  unfold pr_debug, pr_debug2. rewrite bind_pr.
  rewrite (bind_Done _ _ _ _ _ (Hty _)). rewrite bind_pr.
  rewrite Hidx, Htag.
  change (Ascii.eqb "[" "[" &&
          ((DW_TAG_array_type =? DW_TAG_array_type)
           || (DW_TAG_array_type =? DW_TAG_pointer_type))) with true.
  cbv iota.
  rewrite (bind_Done _ _ _ _ _ (Helt _)). rewrite bind_pr.
  change (DW_TAG_array_type =? DW_TAG_pointer_type) with false. cbv iota.
  rewrite bind_ret_l. reflexivity.
Qed.

(** The sibling branch, a member of a structure that lives in a register,
    checks [ref] before it writes. *)
Lemma convert_variable_fields_struct_null_ref
    (env : Env) (vr_die : Dwarf_Die) (varname : string)
    (field : perf_probe_arg_field) (w : World) (type : Dwarf_Die)
    (Hty : forall w, die_get_real_type env vr_die w = Done (Some type) w)
    (Htag : dwarf_tag type = DW_TAG_structure_type)
    (Hidx : name0 (field_name field) <> "["%char)
    (Hdot : field_ref field = false) :
  exists w',
    convert_variable_fields env vr_die varname field None w
    = Done (- ENOTSUP, None, None) w'.
Proof.
  destruct field as [nx nm idx rf]. cbn [field_name field_ref] in *.
  unfold convert_variable_fields.
  cbn [field_name field_next field_index field_ref].
  unfold pr_debug, pr_debug2. rewrite bind_pr.
  rewrite (bind_Done _ _ _ _ _ (Hty _)). rewrite bind_pr.
  rewrite Htag, Hdot.
  destruct (Ascii.eqb_spec (name0 nm) "["%char) as [E|_]; [contradiction|].
  cbn [andb].
  change (DW_TAG_structure_type =? DW_TAG_pointer_type) with false.
  change (DW_TAG_structure_type =? DW_TAG_structure_type) with true.
  cbn [negb]. unfold pr_warning. rewrite bind_pr. eexists. reflexivity.
Qed.

(** C9 fails on the code: for a variable that lives in a register (so
    without a reference node) whose resolved type is an array type, an
    index as the first field step reaches [ref->offset += ...] with [ref]
    NULL. *)
Theorem convert_variable_array_in_register
    (env : Env) (vr_die : Dwarf_Die) (pf : probe_finder) (w : World)
    (N : Z) (regs : string) (field : perf_probe_arg_field)
    (type elt : Dwarf_Die)
    (Hloc : at_location vr_die (pf_addr pf) = Some [mk_op (DW_OP_reg0 + N) 0 0])
    (HN : 0 <= N <= 31)
    (Hreg : get_arch_regstr env N = Some regs)
    (Halloc : forall k, alloc_ok env k = true)
    (Href : targ_ref (pf_tvar pf) = None)
    (Hfield : parg_field (pf_pvar pf) = Some field)
    (Hidx : name0 (field_name field) = "["%char)
    (Hty : forall w, die_get_real_type env vr_die w = Done (Some type) w)
    (Htag : dwarf_tag type = DW_TAG_array_type)
    (Helt : forall w, die_get_real_type env type w = Done (Some elt) w) :
  convert_variable env vr_die pf w = Crash NullDeref.
Proof.
  unfold convert_variable, pr_debug. rewrite bind_pr.
  erewrite bind_Done
    by (eapply convert_variable_location_reg; eassumption).
  cbn [pf_pvar pf_tvar set_tvar set_targ_value targ_ref].
  rewrite Hfield, Href. cbn [Z.eqb].
  apply bind_Crash, bind_Crash.
  now apply convert_variable_fields_array_null_ref
    with (type := type) (elt := elt).
Qed.

Lemma convert_variable_array_in_register_witness :
  convert_variable Fixture.env Fixture.vec_var
    (set_pvar (Fixture.finder [] 1 0x1000 None)
              (Fixture.parg "vec" (Some Fixture.index_1)))
    Fixture.world
  = Crash NullDeref.
Proof.
  apply (convert_variable_array_in_register Fixture.env Fixture.vec_var _
           Fixture.world 0 "%ax"%string Fixture.index_1
           Fixture.int4_type Fixture.int_type).
  - reflexivity.
  - lia.
  - reflexivity.
  - intros k. reflexivity.
  - reflexivity.
  - reflexivity.
  - reflexivity.
  - intros w. reflexivity.
  - reflexivity.
  - intros w. reflexivity.
Defined.

(** The same probe request through [convert_probe_point]. *)
Lemma convert_probe_point_array_in_register :
  convert_probe_point Fixture.env None
    (Fixture.finder [Fixture.parg "vec" (Some Fixture.index_1)] 1 0x1000 None)
    Fixture.world
  = Crash NullDeref.
Proof. vm_compute. reflexivity. Qed.

(** ** convert_probe_point *)

(** C2: once [ntevs] has reached [max_tevs], [convert_probe_point] answers
    -ERANGE for the next candidate and leaves the finder, and with it
    every event already stored, as it was; only a warning is logged. *)
Theorem convert_probe_point_capacity
    (env : Env) (sp_die : option Dwarf_Die) (pf : probe_finder) (w : World)
    (Hfull : pf_ntevs pf = pf_max_tevs pf) :
  exists msg,
    log_lvl msg = LWarning /\
    convert_probe_point env sp_die pf w
    = Done (- ERANGE, pf) (mk_World (w_refs w) (w_nalloc w) (msg :: w_log w)).
Proof.
  unfold convert_probe_point. rewrite Hfull, Z.eqb_refl.
  eexists. split; [|reflexivity]. reflexivity.
Qed.

(** A finder with room for one event: the first candidate is emitted, the
    second is refused. *)
Lemma convert_probe_point_capacity_witness :
  exists w1,
    convert_probe_point Fixture.env None Fixture.pf_cpu Fixture.world
    = Done (0, Fixture.pf_cpu_full) w1 /\
    exists msg,
      log_lvl msg = LWarning /\
      convert_probe_point Fixture.env None Fixture.pf_cpu_full w1
      = Done (- ERANGE, Fixture.pf_cpu_full)
             (mk_World (w_refs w1) (w_nalloc w1) (msg :: w_log w1)).
Proof.
  eexists. split; [vm_compute; reflexivity|].
  apply (convert_probe_point_capacity Fixture.env None Fixture.pf_cpu_full).
  reflexivity.
Defined.

(** An emission writes one slot: the counters apart, a run of
    [convert_probe_point] that returns changes no event but the one at the
    index [ntevs] had on entry. *)

Lemma same_events_refl pf : same_events pf pf.
Proof. repeat split. Qed.

Lemma same_events_set_tvar pf t : same_events pf (set_tvar pf t).
Proof. repeat split. Qed.

Lemma same_events_trans a b c :
  same_events a b -> same_events b c -> same_events a c.
Proof. intros (?&?&?) (?&?&?). repeat split; congruence. Qed.

Lemma convert_variable_location_same_events env vr_die pf w r pf' w' :
  convert_variable_location env vr_die pf w = Done (r, pf') w' ->
  same_events pf pf'.
Proof.
  unfold convert_variable_location, crash. intros H.
  split_run H;
    injection H as <- <- <-;
    first [apply same_events_refl | apply same_events_set_tvar].
Qed.

Lemma convert_variable_same_events env vr_die pf w r pf' w' :
  convert_variable env vr_die pf w = Done (r, pf') w' ->
  same_events pf pf'.
Proof.
  unfold convert_variable, pr_debug. rewrite bind_pr. intros H.
  apply bind_inv in H. destruct H as ([r1 pf1] & w1 & E1 & H).
  apply convert_variable_location_same_events in E1.
  apply (same_events_trans _ _ _ E1). clear E1.
  apply bind_inv in H. destruct H as ([[r2 pf2] d2] & w2 & E2 & H).
  assert (E : same_events pf1 pf2).
  { destruct (parg_field (pf_pvar pf1)) as [field|];
      [destruct (r1 =? 0)|].
    - apply bind_inv in E2. destruct E2 as ([[r3 ref] d3] & w3 & _ & E2).
      injection E2 as _ <- _ _. apply same_events_set_tvar.
    - injection E2 as _ <- _ _. apply same_events_refl.
    - injection E2 as _ <- _ _. apply same_events_refl. }
  apply (same_events_trans _ _ _ E). clear E E2.
  destruct (r2 =? 0); [|injection H as _ <- _; apply same_events_refl].
  destruct (parg_type (pf_pvar pf2)) as [ty|].
  - apply bind_inv in H. destruct H as (t & w3 & _ & H).
    destruct t; injection H as _ <- _; apply same_events_set_tvar.
  - destruct d2 as [d|]; [|discriminate].
    apply bind_inv in H. destruct H as ([r3 t3] & w3 & _ & H).
    injection H as _ <- _. apply same_events_set_tvar.
Qed.

Lemma find_variable_same_events env sp_die pf w r pf' w' :
  find_variable env sp_die pf w = Done (r, pf') w' ->
  same_events pf pf'.
Proof.
  unfold find_variable. intros H.
  apply bind_inv in H. destruct H as (nm & w1 & _ & H).
  destruct nm as [r1|name]; [injection H as _ <- _; apply same_events_refl|].
  destruct name as [name|];
    [|injection H as _ <- _; apply same_events_set_tvar].
  set (pf1 := set_tvar pf _) in H.
  assert (E1 : same_events pf pf1) by apply same_events_set_tvar.
  apply (same_events_trans _ _ _ E1). clear E1.
  destruct (negb (is_c_varname env (parg_var (pf_pvar pf1)))).
  - apply bind_inv in H. destruct H as (v & w2 & _ & H).
    destruct v; injection H as _ <- _; apply same_events_set_tvar.
  - unfold pr_debug in H. rewrite bind_pr in H.
    apply bind_inv in H. destruct H as ([r2 pf2] & w2 & E2 & H).
    apply bind_inv in H. destruct H as (u & w3 & _ & H).
    injection H as _ <- _.
    destruct (die_find_variable sp_die (parg_var (pf_pvar pf1))) as [vr|].
    + now apply convert_variable_same_events in E2.
    + destruct (dwarf_getscopes_die env sp_die) as [[|sc scopes]|];
        try (injection E2 as _ <- _; apply same_events_refl).
      destruct (dwarf_getscopevar env (sc :: scopes) _) as [vr|].
      * now apply convert_variable_same_events in E2.
      * injection E2 as _ <- _. apply same_events_refl.
Qed.

Lemma tev_update_agree pf i f w pf' w' :
  tev_update pf i f w = Done pf' w' ->
  events_agree_except (Z.to_nat i) pf pf'.
Proof.
  unfold tev_update, crash, ret.
  destruct (i <? 0); [discriminate|].
  destruct (pf_tevs pf !! Z.to_nat i) as [tev|]; [|discriminate].
  intros H. injection H as <- _. repeat split; cbn [pf_tevs set_tevs].
  - apply length_insert.
  - intros j Hj. apply list_lookup_insert_ne. congruence.
Qed.

Lemma events_agree_except_refl i pf : events_agree_except i pf pf.
Proof. repeat split. Qed.

Lemma events_agree_except_trans i a b c :
  events_agree_except i a b -> events_agree_except i b c ->
  events_agree_except i a c.
Proof.
  intros (?&?&?&Hab) (?&?&?&Hbc). repeat split; try congruence.
  intros j Hj. rewrite Hbc, Hab by assumption. reflexivity.
Qed.

Lemma same_events_agree i pf pf' :
  same_events pf pf' -> events_agree_except i pf pf'.
Proof. intros (?&?&E). repeat split; try congruence. Qed.

Lemma convert_probe_point_args_agree env n :
  forall i sp_die tev pf w r pf' w',
    convert_probe_point_args env n i sp_die tev pf w = Done (r, pf') w' ->
    events_agree_except (Z.to_nat tev) pf pf'.
Proof.
  induction n as [|n IH]; intros i sp_die tev pf w r pf' w' H; simpl in H.
  - injection H as _ <- _. apply events_agree_except_refl.
  - destruct (pev_args (pf_pev pf) !! i) as [pvar|]; [|discriminate].
    destruct (tev_arg pf tev i) as [tvar|]; [|discriminate].
    apply bind_inv in H. destruct H as ([r1 pf1] & w1 & E1 & H).
    apply find_variable_same_events in E1.
    apply bind_inv in H. destruct H as (pf2 & w2 & E2 & H).
    apply tev_update_agree in E2.
    assert (E : events_agree_except (Z.to_nat tev) pf pf2).
    { eapply events_agree_except_trans; [|exact E2].
      apply same_events_agree.
      eapply same_events_trans; [|exact E1]. repeat split. }
    destruct (negb (r1 =? 0)).
    + injection H as _ <- _. exact E.
    + eapply events_agree_except_trans; [exact E|]. eapply IH, H.
Qed.

Lemma same_events_set_fb_ops pf v : same_events pf (set_fb_ops pf v).
Proof. repeat split. Qed.

Lemma convert_probe_point_emits_one env sp_die pf w r pf' w' :
  pf_ntevs pf <> pf_max_tevs pf ->
  convert_probe_point env sp_die pf w = Done (r, pf') w' ->
  events_agree_except (Z.to_nat (pf_ntevs pf))
    (set_ntevs pf (to_int (pf_ntevs pf + 1))) pf'.
Proof.
  intros Hroom. unfold convert_probe_point.
  destruct (Z.eqb_spec (pf_ntevs pf) (pf_max_tevs pf)); [contradiction|].
  set (tev := pf_ntevs pf). set (pf0 := set_ntevs pf _).
  change (pf_cu_die pf0) with (pf_cu_die pf).
  change (pf_addr pf0) with (pf_addr pf).
  match goal with
  | |- match ?x with _ => _ end w = _ -> _ => destruct x as [sp|]
  end.
  2:{ unfold pr_warning. rewrite bind_pr. intros H. injection H as _ <- _.
      apply events_agree_except_refl. }
  intros H.
  apply bind_inv in H. destruct H as (nm & w1 & E1 & H).
  assert (Hnm : match nm with
                | inl (_, pf1) => events_agree_except (Z.to_nat tev) pf0 pf1
                | inr (pf1, _) => events_agree_except (Z.to_nat tev) pf0 pf1
                end).
  { destruct (dwarf_diename sp) as [name|].
    - destruct (dwarf_entrypc sp) as [eaddr|].
      + apply bind_inv in E1. destruct E1 as (s & w2 & _ & E1).
        apply bind_inv in E1. destruct E1 as (pf1 & w3 & U1 & E1).
        apply tev_update_agree in U1.
        destruct s as [s|].
        * apply bind_inv in E1. destruct E1 as (pf2 & w4 & U2 & E1).
          apply tev_update_agree in U2. injection E1 as <- _.
          eapply events_agree_except_trans; eassumption.
        * injection E1 as <- _. exact U1.
      + unfold pr_warning in E1. rewrite bind_pr in E1.
        injection E1 as <- _. apply events_agree_except_refl.
    - apply bind_inv in E1. destruct E1 as (pf1 & w2 & U1 & E1).
      apply tev_update_agree in U1. injection E1 as <- _. exact U1. }
  destruct nm as [[r1 pf1]|[pf1 offset]];
    [injection H as _ <- _; exact Hnm|].
  eapply events_agree_except_trans; [exact Hnm|]. clear Hnm E1.
  unfold pr_debug in H. rewrite bind_pr in H.
  apply bind_inv in H. destruct H as (fb & w2 & E2 & H).
  assert (Hfb : match fb with
                | inl (_, pf2) => same_events pf1 pf2
                | inr pf2 => same_events pf1 pf2
                end).
  { destruct (at_frame_base sp (pf_addr pf1)) as [[|op0 ops]|];
      try (injection E2 as <- _; apply same_events_set_fb_ops).
    cbn [pf_cfi pf_addr set_fb_ops] in E2.
    destruct ops as [|op1 ops];
      [destruct (pf_cfi pf1) as [cfi|];
       [destruct (atom op0 =? DW_OP_call_frame_cfa);
        [destruct (cfi (pf_addr pf1))|]|]|];
      try (injection E2 as <- _; apply same_events_set_fb_ops).
    injection E2 as <- _. repeat split. }
  destruct fb as [[r2 pf2]|pf2];
    [injection H as _ <- _; now apply same_events_agree|].
  eapply events_agree_except_trans; [apply same_events_agree, Hfb|].
  clear Hfb E2.
  apply bind_inv in H. destruct H as (pf3 & w3 & U3 & H).
  apply tev_update_agree in U3.
  eapply events_agree_except_trans; [exact U3|]. clear U3.
  apply bind_inv in H. destruct H as (ok & w4 & _ & H).
  destruct (negb ok); [injection H as _ <- _; apply events_agree_except_refl|].
  apply bind_inv in H. destruct H as (pf4 & w5 & U4 & H).
  apply tev_update_agree in U4.
  eapply events_agree_except_trans; [exact U4|]. clear U4.
  apply bind_inv in H. destruct H as ([r5 pf5] & w6 & A5 & H).
  apply convert_probe_point_args_agree in A5.
  destruct (negb (r5 =? 0)); injection H as _ <- _; [exact A5|].
  eapply events_agree_except_trans; [exact A5|].
  apply same_events_agree, same_events_set_fb_ops.
Qed.

(** ** find_lazy_match_lines *)

Lemma split_on_first_line (cur data : string) :
  split_on "010"%char cur data =
  match first_line data with
  | (l, None) => [cur +:+ l]
  | (l, Some rest) => (cur +:+ l) :: split_on "010"%char EmptyString rest
  end.
Proof.
  revert cur. induction data as [|c data IH]; intros cur.
  - cbn [split_on first_line]. now rewrite append_nil_r.
  - cbn [split_on first_line]. destruct (Ascii.eqb c "010"%char).
    + now rewrite append_nil_r.
    + rewrite IH. destruct (first_line data) as [l [rest|]];
        now rewrite append_assoc.
Qed.

Lemma first_line_rest_shorter (data l rest : string) :
  first_line data = (l, Some rest) -> (strlen rest < strlen data)%nat.
Proof.
  revert l. induction data as [|c data IH]; intros l; simpl; [discriminate|].
  destruct (Ascii.eqb c "010"%char).
  - intros H. injection H as _ <-. unfold strlen. lia.
  - destruct (first_line data) as [l' o]. intros H. injection H as _ ->.
    specialize (IH l' eq_refl). unfold strlen in *. simpl. lia.
Qed.

Lemma first_line_no_nul (data l rest : string) :
  no_nul data = true -> first_line data = (l, Some rest) -> no_nul rest = true.
Proof.
  revert l. induction data as [|c data IH]; intros l; simpl; [discriminate|].
  intros H. apply andb_prop in H. destruct H as [_ H].
  destruct (Ascii.eqb c "010"%char).
  - intros E. now injection E as _ <-.
  - destruct (first_line data) as [l' o]. intros E. injection E as _ ->.
    now apply (IH l').
Qed.

Lemma first_line_newline_free (s : string) :
  newline_free s -> first_line s = (s, None).
Proof.
  unfold newline_free. induction s as [|c s IH]; simpl; [reflexivity|].
  destruct (Ascii.eqb c "010"%char); [discriminate|].
  intros H. now rewrite (IH H).
Qed.

Lemma first_line_terminated (l rest : string) :
  newline_free l ->
  first_line (l +:+ String "010"%char rest) = (l, Some rest).
Proof.
  unfold newline_free. induction l as [|c l IH].
  - intros _. reflexivity.
  - cbn [strchr]. change (String c l +:+ String "010"%char rest)
      with (String c (l +:+ String "010"%char rest)). cbn [first_line].
    destruct (Ascii.eqb c "010"%char); [discriminate|].
    intros H. now rewrite (IH H).
Qed.

(** The buffer with its two closing bytes gives up its lines one by one. *)
Lemma split_at_newline_buffer (data : string) :
  no_nul data = true ->
  split_at_newline (data +:+ sentinel) =
  match first_line data with
  | (l, None) => Some (l, String zero EmptyString)
  | (l, Some rest) => Some (l, rest +:+ sentinel)
  end.
Proof.
  induction data as [|c data IH]; simpl; [reflexivity|].
  intros H. apply andb_prop in H. destruct H as [Hc H].
  destruct (Ascii.eqb c "010"%char); [reflexivity|].
  apply negb_true_iff in Hc. rewrite Hc, (IH H).
  destruct (first_line data) as [l [rest|]]; reflexivity.
Qed.

Lemma file_lines_terminated (ls : list string) (last : string) :
  Forall newline_free ls -> newline_free last ->
  file_lines (terminated_lines ls +:+ last) = ls ++ [last].
Proof.
  intros Hls Hlast. unfold file_lines.
  induction Hls as [|l ls Hl _ IH]; simpl.
  - rewrite split_on_first_line, first_line_newline_free by assumption.
    reflexivity.
  - rewrite split_on_first_line, append_assoc.
    change (String "010"%char (terminated_lines ls) +:+ last)
      with (String "010"%char (terminated_lines ls +:+ last)).
    rewrite first_line_terminated by assumption. now rewrite IH.
Qed.

Lemma matching_lines_from_ge (env : Env) (pat : string) (lines : list string) :
  forall (n x : Z), In x (matching_lines_from env pat n lines) -> n <= x.
Proof.
  induction lines as [|l lines IH]; intros n x; simpl; [tauto|].
  destruct (strlazymatch env l pat); simpl.
  - intros [<-|H]; [lia|]. specialize (IH _ _ H). lia.
  - intros H. specialize (IH _ _ H). lia.
Qed.

Lemma matching_lines_from_In (env : Env) (pat : string) (lines : list string) :
  forall (n : Z) (i : nat) (l : string),
    lines !! i = Some l ->
    In (n + Z.of_nat i) (matching_lines_from env pat n lines) <->
    strlazymatch env l pat = true.
Proof.
  induction lines as [|l0 lines IH]; intros n i l Hl; [discriminate|].
  destruct i as [|i]; simpl in Hl.
  - injection Hl as ->. simpl. rewrite Z.add_0_r.
    destruct (strlazymatch env l pat) eqn:E.
    + split; [reflexivity | intros _; now left].
    + split; [|discriminate]. intros H. apply matching_lines_from_ge in H. lia.
  - specialize (IH (n + 1) i l Hl).
    replace (n + Z.of_nat (S i)) with (n + 1 + Z.of_nat i) by lia.
    simpl. destruct (strlazymatch env l0 pat); [|exact IH].
    rewrite <- IH. split; [|now right].
    intros [H|H]; [lia | exact H].
Qed.

Section LazyLoop.

Variable env : Env.
Hypothesis Halloc : forall k, alloc_ok env k = true.

(** Line numbers arrive in ascending order, so each lands at the tail. *)
Lemma line_list__add_line_at_tail (head : list Z) (line : Z) (w : World) :
  Forall (fun x => x < line) head ->
  exists w', line_list__add_line env head line w = Done (0, head ++ [line]) w'.
Proof.
  intros Hh. unfold line_list__add_line.
  assert (Hs : line_list__search (rev head) line = Some O).
  { destruct (rev head) as [|y r] eqn:Er; [reflexivity|]. simpl.
    assert (Hy : y < line).
    { apply (proj1 (Forall_forall _ _) Hh). apply list_elem_of_In, in_rev.
      rewrite Er. now left. }
    destruct (Z.ltb_spec y line); [reflexivity | lia]. }
  rewrite Hs. unfold bind, pr_debug, pr, alloc, ret. simpl.
  rewrite Halloc. simpl.
  rewrite Nat.sub_0_r, firstn_all, drop_all. eauto.
Qed.

Lemma find_lazy_match_lines_loop_spec (pat : string) (n : nat) :
  forall (data : string) (fuel : nat) (line nlines : Z) (head : list Z)
         (w : World),
    (strlen data < n)%nat ->
    no_nul data = true ->
    (strlen data + 2 <= fuel)%nat ->
    1 <= line -> 0 <= nlines ->
    line + Z.of_nat (strlen data) + 1 <= INT_MAX ->
    nlines + Z.of_nat (strlen data) + 1 <= INT_MAX ->
    Forall (fun x => x < line) head ->
    let matched := matching_lines_from env pat line (file_lines data) in
    exists w',
      find_lazy_match_lines_loop env fuel (data +:+ sentinel) pat line nlines
        head w
      = Done (nlines + Z.of_nat (length matched), head ++ matched) w'.
Proof.
  induction n as [|n IH];
    intros data fuel line nlines head w Hn Hnul Hfuel Hline Hnl Hov1 Hov2
           Hhead matched; subst matched; [lia|].
  destruct fuel as [|fuel]; [lia|].
  unfold file_lines. rewrite split_on_first_line.
  cbn [find_lazy_match_lines_loop].
  rewrite split_at_newline_buffer by assumption.
  destruct (first_line data) as [l [rest|]] eqn:Efl.
  - pose proof (first_line_rest_shorter _ _ _ Efl) as Hshort.
    pose proof (first_line_no_nul _ _ _ Hnul Efl) as Hnul'.
    cbn [matching_lines_from]. change (EmptyString +:+ l) with l.
    destruct (strlazymatch env l pat).
    + destruct (line_list__add_line_at_tail head line w Hhead) as (w1 & Hw).
      rewrite (bind_Done _ _ _ _ _ Hw).
      rewrite (to_int_small (line + 1)), (to_int_small (nlines + 1)) by lia.
      destruct (IH rest fuel (line + 1) (nlines + 1) (head ++ [line]) w1)
        as (w' & Hw'); try lia; try assumption.
      { apply Forall_app. split; [|repeat constructor; lia].
        eapply Forall_impl; [exact Hhead|]. simpl. intros; lia. }
      exists w'. fold (file_lines rest). rewrite Hw'. cbn [length].
      rewrite <- app_assoc, Nat2Z.inj_succ. cbn [app].
      f_equal. f_equal. lia.
    + rewrite (to_int_small (line + 1)) by lia.
      destruct (IH rest fuel (line + 1) nlines head w)
        as (w' & Hw'); try lia; try assumption.
      { eapply Forall_impl; [exact Hhead|]. simpl. intros; lia. }
      exists w'. exact Hw'.
  - cbn [matching_lines_from]. change (EmptyString +:+ l) with l.
    destruct fuel as [|fuel]; [lia|].
    assert (Hend : split_at_newline (String zero EmptyString) = None)
      by reflexivity.
    destruct (strlazymatch env l pat).
    + destruct (line_list__add_line_at_tail head line w Hhead) as (w1 & Hw).
      rewrite (bind_Done _ _ _ _ _ Hw).
      cbn [find_lazy_match_lines_loop]. rewrite Hend.
      rewrite (to_int_small (nlines + 1)) by lia.
      eexists. reflexivity.
    + cbn [find_lazy_match_lines_loop]. rewrite Hend.
      rewrite Z.add_0_r, app_nil_r. eexists. reflexivity.
Qed.

End LazyLoop.

(** C10: on a file that can be read, holds no NUL byte and fits an [int],
    and with the line cache empty, [find_lazy_match_lines] tests every
    line of the file, the last one also when no newline ends it: it
    returns the number of matching lines and leaves in the list exactly
    their numbers, counted from 1; a line that no newline ends and that
    matches is in the list under the number of the lines before it plus
    one. *)
Theorem find_lazy_match_lines_tests_every_line
    (env : Env) (fname pat : string) (fd : file) (fuel : nat) (w : World)
    (Hopen : sys_open env fname = inr fd)
    (Hstat : f_fstat_errno fd = None)
    (Hread : f_read_errno fd = None)
    (Hnul : no_nul (f_data fd) = true)
    (Halloc : forall k, alloc_ok env k = true)
    (Hsize : Z.of_nat (strlen (f_data fd)) + 2 <= INT_MAX)
    (Hfuel : (strlen (f_data fd) + 2 <= fuel)%nat) :
  let matched := matching_lines_from env pat 1 (file_lines (f_data fd)) in
  (exists w',
     find_lazy_match_lines env fuel [] fname pat w
     = Done (Z.of_nat (length matched), matched) w') /\
  (forall (i : nat) (l : string),
     file_lines (f_data fd) !! i = Some l ->
     In (Z.of_nat i + 1) matched <-> strlazymatch env l pat = true) /\
  (forall (ls : list string) (last : string),
     f_data fd = terminated_lines ls +:+ last ->
     Forall newline_free ls -> newline_free last ->
     strlazymatch env last pat = true ->
     In (Z.of_nat (length ls) + 1) matched).
Proof.
  intros matched.
  assert (Hall : forall (i : nat) (l : string),
             file_lines (f_data fd) !! i = Some l ->
             In (Z.of_nat i + 1) matched <-> strlazymatch env l pat = true).
  { intros i l Hl. rewrite Z.add_comm. now apply matching_lines_from_In. }
  split; [|split; [exact Hall|]].
  - unfold find_lazy_match_lines. rewrite Hopen, Hstat, Hread.
    unfold bind at 1. unfold alloc. rewrite Halloc. cbn [negb].
    destruct (find_lazy_match_lines_loop_spec env Halloc pat
                (S (strlen (f_data fd))) (f_data fd) fuel 1 0 []
                (mk_World (w_refs w) (S (w_nalloc w)) (w_log w)))
      as (w' & Hw'); try lia; try assumption; [constructor|].
    exists w'. exact Hw'.
  - intros ls last Hdata Hls Hlast Hmatch.
    apply (Hall (length ls) last); [|exact Hmatch].
    rewrite Hdata, file_lines_terminated by assumption.
    rewrite lookup_app_r by lia. now rewrite Nat.sub_diag.
Qed.

(** kernel/sched.c of the examples: two lines and a third that no newline
    ends; the third matches and is returned as line 3. *)
Lemma find_lazy_match_lines_tests_every_line_witness :
  (exists w',
     find_lazy_match_lines Fixture.env 64 [] "kernel/sched.c"
       "rq = cpu_rq(cpu);" Fixture.world
     = Done (1, [3]) w') /\
  In 3 (matching_lines_from Fixture.env "rq = cpu_rq(cpu);" 1
          (file_lines (f_data Fixture.sched_c))).
Proof.
  pose proof (find_lazy_match_lines_tests_every_line Fixture.env
                "kernel/sched.c" "rq = cpu_rq(cpu);" Fixture.sched_c 64
                Fixture.world eq_refl eq_refl eq_refl eq_refl
                (fun k => eq_refl)) as H.
  assert (Hsize : Z.of_nat (strlen (f_data Fixture.sched_c)) + 2 <= INT_MAX)
    by (vm_compute; discriminate).
  assert (Hfuel : (strlen (f_data Fixture.sched_c) + 2 <= 64)%nat)
    by (vm_compute; lia).
  destruct (H Hsize Hfuel) as (Hrun & _ & Hlast).
  split.
  - exact Hrun.
  - apply (Hlast ["static void f(void)"; "{"]%string
                 "rq = cpu_rq(cpu);"%string).
    + reflexivity.
    + repeat constructor.
    + reflexivity.
    + reflexivity.
Defined.

(** The condition on NUL bytes: [strchr] ends the scan at the first one,
    so line 2 of this file is never tested. *)
Lemma find_lazy_match_lines_stops_at_nul :
  strlazymatch Fixture.env "b" "b" = true /\
  find_lazy_match_lines Fixture.env 64 [] "nul.c" "b" Fixture.world
  = Done (0, []) (mk_World [] 1 []).
Proof. split; reflexivity. Qed.

(** ** find_perf_probe_point *)






(** With the row of 0x1000 answered for 0x1004, the line 12 of that row is
    not taken: the answer has no file and carries an offset. *)
Lemma find_perf_probe_point_nearest_row :
  dwarf_getsrc_die Fixture.dbg_nearest Fixture.cu_die 0x1004
  = Some (mk_line (Some 0x1000) (Some 12) (Some "mm/slub.c"%string)) /\
  find_perf_probe_point Fixture.env_nearest 3 0x1004 Fixture.ppt_zero
    Fixture.world
  = Done (1, mk_ppoint None (Some "kfree"%string) 0 false None 4)
         (mk_World [] 1 []).
Proof. split; vm_compute; reflexivity. Qed.

(** A difference of lines that does not fit an [int] is computed by an
    [int] subtraction that C leaves undefined. *)
Lemma find_perf_probe_point_line_overflow :
  find_perf_probe_point Fixture.env_nearest 3 0x1004
    (mk_ppoint None None INT_MIN false None 0) Fixture.world
  = Crash SignedOverflow.
Proof. vm_compute. reflexivity. Qed.

(** The condition on the line number: a line table row with line 0 is
    answered by offset. *)
Lemma find_perf_probe_point_line_zero :
  find_perf_probe_point Fixture.env 3 0x100c Fixture.ppt_zero Fixture.world
  = Done (1, mk_ppoint (Some "mm/slub.c"%string) (Some "kfree"%string) 0
               false None 0xc)
         (mk_World [] 2 []).
Proof. vm_compute. reflexivity. Qed.


(** ** strtailcmp, the order of the arguments *)

Lemma ascii_eqb_sym (a b : ascii) : Ascii.eqb a b = Ascii.eqb b a.
Proof.
  destruct (Ascii.eqb_spec a b) as [->|Hne].
  - now rewrite Ascii.eqb_refl.
  - destruct (Ascii.eqb_spec b a) as [->|_]; [contradiction | reflexivity].
Qed.

Lemma strtailcmp_loop_swap (s1 s2 : string) (i1 : nat) :
  forall i2 : nat,
    strtailcmp_loop s2 s1 i2 i1 = - strtailcmp_loop s1 s2 i1 i2.
Proof.
  induction i1 as [|i1 IH]; intros [|i2]; try reflexivity.
  cbn [strtailcmp_loop]. rewrite (ascii_eqb_sym (char_at s2 i2)).
  destruct (Ascii.eqb (char_at s1 i1) (char_at s2 i2)); [apply IH | lia].
Qed.

Lemma strtailcmp_loop_refl (s : string) (i : nat) : strtailcmp_loop s s i i = 0.
Proof.
  induction i as [|i IH]; [reflexivity|].
  cbn [strtailcmp_loop]. now rewrite Ascii.eqb_refl.
Qed.

(** X1: [strtailcmp] does not depend on the order of its arguments but for
    the sign of the answer, a string matches itself, and the empty string
    matches every string. *)
Theorem strtailcmp_swap (s1 s2 : string) :
  strtailcmp s2 s1 = - strtailcmp s1 s2 /\
  strtailcmp s1 s1 = 0 /\
  strtailcmp EmptyString s1 = 0.
Proof.
  split; [apply strtailcmp_loop_swap|].
  split; [apply strtailcmp_loop_refl | reflexivity].
Qed.

(** ** Line number list, membership *)

Lemma line_list__has_line_In (head : list Z) (line : Z) :
  line_list__has_line head line = 1 <-> In line head.
Proof.
  induction head as [|ln rest IH]; simpl.
  - split; [discriminate | contradiction].
  - destruct (Z.eqb_spec ln line) as [->|Hne].
    + split; [now left | reflexivity].
    + rewrite IH. split; [now right | intros [H|H]; [contradiction | exact H]].
Qed.

Lemma line_list__has_line_not_In (head : list Z) (line : Z) :
  line_list__has_line head line = 0 <-> ~ In line head.
Proof.
  induction head as [|ln rest IH]; simpl.
  - split; [intros _ H; exact H | reflexivity].
  - destruct (Z.eqb_spec ln line) as [->|Hne].
    + split; [discriminate | intros H; exfalso; apply H; now left].
    + rewrite IH. split; [intros H [H'|H']; contradiction | intros H H'; apply H; now right].
Qed.

Lemma line_list__has_line_same (h1 h2 : list Z) (line : Z) :
  (In line h1 <-> In line h2) ->
  line_list__has_line h1 line = line_list__has_line h2 line.
Proof.
  intros Hiff.
  destruct (in_dec Z.eq_dec line h1) as [H1|H1].
  - rewrite (proj2 (line_list__has_line_In h1 line) H1).
    symmetry. apply line_list__has_line_In, Hiff, H1.
  - rewrite (proj2 (line_list__has_line_not_In h1 line) H1).
    symmetry. apply line_list__has_line_not_In. intros H2. apply H1, Hiff, H2.
Qed.

Lemma line_list__search_None (r : list Z) (line : Z) :
  line_list__search r line = None -> In line r.
Proof.
  induction r as [|ln r IH]; simpl; [discriminate|].
  destruct (ln <? line); [discriminate|].
  destruct (Z.eqb_spec ln line) as [->|_]; [now left|].
  destruct (line_list__search r line); [discriminate|].
  intros _. right. now apply IH.
Qed.

Lemma In_insert_at (head : list Z) (p : nat) (line l : Z) :
  In l (take p head ++ line :: drop p head) <-> l = line \/ In l head.
Proof.
  rewrite in_app_iff. simpl. rewrite <- (take_drop p head) at 3.
  rewrite in_app_iff. intuition.
Qed.

(** X2: [line_list__add_line] answers 0, 1 or -ENOMEM, and only -ENOMEM
    leaves the line out: after an answer of 0 or 1,
    [line_list__has_line] finds the line.  Whatever the answer, the other
    lines are found exactly as before, and an answer other than 0 leaves
    the list as it was. *)
Theorem line_list__add_line_has_line
    (env : Env) (head : list Z) (line : Z) (w : World) :
  exists r head' w',
    line_list__add_line env head line w = Done (r, head') w' /\
    (r = 0 \/ r = 1 \/ r = - ENOMEM) /\
    (r <> - ENOMEM -> line_list__has_line head' line = 1) /\
    (r <> 0 -> head' = head) /\
    (forall l, l <> line ->
               line_list__has_line head' l = line_list__has_line head l).
Proof.
  unfold line_list__add_line.
  destruct (line_list__search (rev head) line) as [k|] eqn:E.
  - unfold bind, pr_debug, pr, alloc, ret. cbn [w_refs w_nalloc w_log].
    destruct (alloc_ok env (w_nalloc w)); cbn [negb].
    + eexists _, _, _. split; [reflexivity|].
      split; [now left|]. split; [|split].
      * intros _. apply line_list__has_line_In, In_insert_at. now left.
      * intros H. now contradiction H.
      * intros l Hl. apply line_list__has_line_same.
        rewrite In_insert_at. intuition.
    + eexists _, _, _. split; [reflexivity|].
      split; [now right; right|]. split; [|split].
      * intros H. now contradiction H.
      * reflexivity.
      * reflexivity.
  - eexists _, _, _. split; [reflexivity|].
    split; [now right; left|]. split; [|split].
    + intros _. apply line_list__has_line_In, in_rev.
      now apply line_list__search_None.
    + reflexivity.
    + reflexivity.
Qed.

(** ** Searches in the DIE tree *)

(** Induction on a DIE, with the property at hand for its children. *)
Lemma Dwarf_Die_children_ind (P : Dwarf_Die -> Prop)
    (H : forall d, Forall P (die_children d) -> P d) :
  forall d, P d.
Proof.
  fix IH 1. intros d. apply H.
  destruct d as [? ? ? ? ? ? ? ? ? ? ? ? children]. cbn [die_children].
  revert children. fix IHl 1. intros [|c cs].
  - constructor.
  - constructor; [apply IH | apply IHl].
Qed.

Lemma find_app_first {A} (p : A -> bool) (a b : list A) :
  find p (a ++ b) = match find p a with
                    | Some x => Some x
                    | None => find p b
                    end.
Proof.
  induction a as [|x a IH]; [reflexivity|]. simpl.
  destruct (p x); [reflexivity | exact IH].
Qed.

(** The [do ... while] loop of [die_find_child] over a list of siblings. *)

Lemma die_find_child_siblings (rt_die : Dwarf_Die) (callback : Dwarf_Die -> Z) :
  die_find_child rt_die callback
  = die_find_siblings callback (die_children rt_die).
Proof. destruct rt_die. reflexivity. Qed.

(** A callback that answers FOUND or CONTINUE makes the search a
    depth-first walk that stops at the first DIE found. *)
Lemma die_find_child_deep (callback : Dwarf_Die -> Z) :
  (forall d, callback d = DIE_FIND_CB_FOUND \/
             callback d = DIE_FIND_CB_CONTINUE) ->
  forall rt_die,
    die_find_child rt_die callback
    = find (fun d => callback d =? DIE_FIND_CB_FOUND) (descendants rt_die).
Proof.
  intros Hcb. apply Dwarf_Die_children_ind. intros rt_die IH.
  rewrite die_find_child_siblings.
  replace (descendants rt_die)
    with (flat_map (fun c => c :: descendants c) (die_children rt_die))
    by (destruct rt_die; reflexivity).
  induction IH as [|c cs Hc _ IHcs]; [reflexivity|].
  cbn [die_find_siblings flat_map app find].
  destruct (Hcb c) as [E|E]; rewrite E; [reflexivity|].
  cbn [Z.eqb DIE_FIND_CB_CONTINUE DIE_FIND_CB_FOUND Z.land int_to_bool negb
             DIE_FIND_CB_CHILD DIE_FIND_CB_SIBLING Pos.land].
  change (int_to_bool (Z.land 3 1)) with true.
  change (int_to_bool (Z.land 3 2)) with true.
  cbv beta iota. rewrite find_app_first, <- Hc.
  destruct (die_find_child c callback); [reflexivity | exact IHcs].
Qed.

(** A callback that answers FOUND or SIBLING keeps the search on the
    children. *)
Lemma die_find_child_flat (callback : Dwarf_Die -> Z) (rt_die : Dwarf_Die) :
  (forall d, callback d = DIE_FIND_CB_FOUND \/
             callback d = DIE_FIND_CB_SIBLING) ->
  die_find_child rt_die callback
  = find (fun d => callback d =? DIE_FIND_CB_FOUND) (die_children rt_die).
Proof.
  intros Hcb. rewrite die_find_child_siblings.
  induction (die_children rt_die) as [|c cs IH]; [reflexivity|].
  cbn [die_find_siblings find].
  destruct (Hcb c) as [E|E]; rewrite E; [reflexivity|].
  change (2 =? DIE_FIND_CB_FOUND) with false.
  change (int_to_bool (Z.land 2 DIE_FIND_CB_CHILD)) with false.
  change (int_to_bool (Z.land 2 DIE_FIND_CB_SIBLING)) with true.
  cbv beta iota. exact IH.
Qed.

Lemma find_ext_Forall {A} (p q : A -> bool) (l : list A) :
  Forall (fun x => p x = q x) l -> find p l = find q l.
Proof.
  induction 1 as [|x l Hx _ IH]; [reflexivity|]. simpl.
  rewrite Hx. destruct (q x); [reflexivity | exact IH].
Qed.

(** [die_compare_name] answers 0 exactly on the DIEs of that name. *)
Lemma die_compare_name_named (d : Dwarf_Die) (name : string) :
  no_nul name = true -> opt_no_nul (dwarf_diename d) = true ->
  (bool_to_int (die_compare_name d name) =? 0) = named name d.
Proof.
  intros Hname Hd. unfold die_compare_name, named.
  destruct (dwarf_diename d) as [n|]; [|reflexivity].
  simpl in Hd. unfold int_to_bool.
  destruct (String.eqb_spec n name) as [->|Hne].
  - rewrite (proj2 (strcmp_zero_iff name name Hname Hname) eq_refl).
    reflexivity.
  - destruct (Z.eqb_spec (strcmp name n) 0) as [E|_]; [|reflexivity].
    apply strcmp_zero_iff in E; [congruence | assumption | assumption].
Qed.

(** X3: [die_find_member] returns the first child of the structure that
    is a member of that name; it does not look below the children, so a
    member of a nested structure is not found. *)
Theorem die_find_member_first_child (st_die : Dwarf_Die) (name : string)
    (Hname : no_nul name = true)
    (Hdies : names_no_nul (die_children st_die)) :
  die_find_member st_die name
  = find (is_member_named name) (die_children st_die).
Proof.
  unfold die_find_member. rewrite die_find_child_flat.
  - apply find_ext_Forall. eapply Forall_impl; [exact Hdies|].
    intros d Hd. cbv beta in *.
    unfold __die_find_member_cb, is_member_named.
    rewrite (die_compare_name_named d name Hname Hd).
    now destruct ((dwarf_tag d =? DW_TAG_member) && named name d).
  - intros d. unfold __die_find_member_cb.
    destruct (_ && _); [now left | now right].
Qed.

(** struct task_struct of the examples: [parent] is its second member. *)
Lemma die_find_member_first_child_witness :
  die_find_member Fixture.task_type "parent"
  = find (is_member_named "parent") (die_children Fixture.task_type) /\
  find (is_member_named "parent") (die_children Fixture.task_type)
  = Some Fixture.parent_member.
Proof.
  split.
  - apply (die_find_member_first_child Fixture.task_type "parent").
    + reflexivity.
    + repeat constructor.
  - reflexivity.
Defined.

(** X4: [die_find_variable] returns the first variable or formal parameter
    of that name that a depth-first walk below the DIE meets, nested
    scopes included. *)
Theorem die_find_variable_first_descendant (sp_die : Dwarf_Die) (name : string)
    (Hname : no_nul name = true)
    (Hdies : names_no_nul (descendants sp_die)) :
  die_find_variable sp_die name
  = find (is_variable_named name) (descendants sp_die).
Proof.
  unfold die_find_variable. rewrite die_find_child_deep.
  - apply find_ext_Forall. eapply Forall_impl; [exact Hdies|].
    intros d Hd. cbv beta in *.
    unfold __die_find_variable_cb, is_variable_named.
    rewrite (die_compare_name_named d name Hname Hd).
    now destruct (_ && named name d).
  - intros d. unfold __die_find_variable_cb.
    destruct (_ && _); [now left | now right].
Qed.

(** do_fork of the examples: [nr] is found in the nested block. *)
Lemma die_find_variable_first_descendant_witness :
  die_find_variable Fixture.do_fork_die "nr"
  = find (is_variable_named "nr") (descendants Fixture.do_fork_die) /\
  find (is_variable_named "nr") (descendants Fixture.do_fork_die)
  = Some Fixture.nr_var.
Proof.
  split.
  - apply (die_find_variable_first_descendant Fixture.do_fork_die "nr").
    + reflexivity.
    + repeat constructor.
  - reflexivity.
Defined.

(** X5: [die_find_inlinefunc] returns the first inline instance covering
    the address that a depth-first walk below the DIE meets, a DIE before
    the DIEs below it: of two nested instances that cover the address, the
    outer one. *)
Theorem die_find_inlinefunc_first_descendant
    (sp_die : Dwarf_Die) (addr : Dwarf_Addr) :
  die_find_inlinefunc sp_die addr
  = find (is_inline_at addr) (descendants sp_die).
Proof.
  unfold die_find_inlinefunc. rewrite die_find_child_deep.
  - apply find_ext_Forall, Forall_forall. intros d _.
    unfold __die_find_inline_cb, is_inline_at, int_to_bool.
    now destruct (_ && _).
  - intros d. unfold __die_find_inline_cb.
    destruct (_ && _); [now left | now right].
Qed.

Lemma dwarf_getfuncs_from_search (addr : Dwarf_Addr) (dies : list Dwarf_Die) :
  dwarf_getfuncs_from dies __die_search_func_cb (mk_ad addr None)
  = match find (is_subprogram_at addr) dies with
    | Some d => (1, mk_ad addr (Some d))
    | None => (0, mk_ad addr None)
    end.
Proof.
  induction dies as [|d dies IH]; [reflexivity|].
  cbn [dwarf_getfuncs_from find].
  unfold is_subprogram_at at 1, __die_search_func_cb at 1, int_to_bool.
  cbn [ad_addr].
  destruct (dwarf_tag d =? DW_TAG_subprogram); cbn [andb]; [|exact IH].
  destruct (negb (dwarf_haspc d addr =? 0)); [reflexivity|].
  cbn [Z.eqb DWARF_CB_OK]. exact IH.
Qed.

(** X6: [die_find_real_subprogram] returns the first child of the CU that
    is a subprogram covering the address; subprograms nested deeper are
    not looked at. *)
Theorem die_find_real_subprogram_first_child
    (cu_die : Dwarf_Die) (addr : Dwarf_Addr) :
  die_find_real_subprogram cu_die addr
  = find (is_subprogram_at addr) (die_children cu_die).
Proof.
  unfold die_find_real_subprogram, dwarf_getfuncs.
  rewrite dwarf_getfuncs_from_search.
  now destruct (find (is_subprogram_at addr) (die_children cu_die)).
Qed.

(** ** die_get_real_type *)

Lemma die_get_real_type_loop_spec (env : Env) (fuel : nat) :
  forall (vr_die type : Dwarf_Die) (w w' : World),
    die_get_real_type_loop env fuel vr_die w = Done (Some type) w' <->
    w' = w /\
    exists quals,
      (length quals < fuel)%nat /\
      type_path env vr_die quals type /\
      Forall (fun q => is_qualifier_tag (dwarf_tag q) = true) quals /\
      is_qualifier_tag (dwarf_tag type) = false.
Proof.
  induction fuel as [|fuel IH]; intros vr_die type w w'.
  - split; [discriminate|]. intros (_ & quals & Hlen & _). lia.
  - cbn [die_get_real_type_loop].
    destruct (at_type vr_die) as [off|] eqn:Eoff.
    2:{ split; [discriminate|]. intros (_ & [|q quals] & _ & Hp & _).
        - destruct Hp as (o & Ho & _). congruence.
        - destruct Hp as ((o & Ho & _) & _). congruence. }
    destruct (dwarf_formref_die env off) as [die_mem|] eqn:Eref.
    2:{ split; [discriminate|]. intros (_ & [|q quals] & _ & Hp & _).
        - destruct Hp as (o & Ho & Hr). congruence.
        - destruct Hp as ((o & Ho & Hr) & _). congruence. }
    destruct (is_qualifier_tag (dwarf_tag die_mem)) eqn:Eq.
    + rewrite IH. split.
      * intros (-> & quals & Hlen & Hp & Hq & Ht). split; [reflexivity|].
        exists (die_mem :: quals). cbn [length type_path].
        split; [lia|]. split; [|split; [constructor; assumption | exact Ht]].
        split; [exists off; split; assumption | exact Hp].
      * intros (-> & quals & Hlen & Hp & Hq & Ht). split; [reflexivity|].
        destruct quals as [|q quals].
        -- destruct Hp as (o & Ho & Hr).
           assert (die_mem = type) by congruence. subst. congruence.
        -- destruct Hp as ((o & Ho & Hr) & Hp).
           assert (die_mem = q) by congruence. subst q.
           exists quals. cbn [length] in Hlen. split; [lia|].
           split; [exact Hp|]. split; [now inversion Hq | exact Ht].
    + unfold ret. split.
      * intros H. injection H as <- <-. split; [reflexivity|].
        exists []. cbn [length type_path]. split; [lia|].
        split; [exists off; split; assumption|]. split; [constructor | exact Eq].
      * intros (-> & quals & Hlen & Hp & Hq & Ht).
        destruct quals as [|q quals].
        -- destruct Hp as (o & Ho & Hr).
           assert (die_mem = type) by congruence. now subst.
        -- destruct Hp as ((o & Ho & Hr) & Hp).
           assert (die_mem = q) by congruence. subst q.
           inversion Hq; subst. congruence.
Qed.

(** X7: [die_get_real_type] returns a type exactly when the type
    attributes lead from the DIE to it through const, restrict, volatile,
    shared and typedef DIEs only, fewer of them than the bound on the
    chain, and the type itself is none of these; it changes nothing. *)
Theorem die_get_real_type_skips_qualifiers
    (env : Env) (vr_die type : Dwarf_Die) (w w' : World) :
  die_get_real_type env vr_die w = Done (Some type) w' <->
  w' = w /\
  exists quals,
    (length quals < type_chain_bound env)%nat /\
    type_path env vr_die quals type /\
    Forall (fun q => is_qualifier_tag (dwarf_tag q) = true) quals /\
    is_qualifier_tag (dwarf_tag type) = false.
Proof. apply die_get_real_type_loop_spec. Qed.

(** ** convert_variable_location, its answers *)

Lemma set_tvar_self (pf : probe_finder) : pf = set_tvar pf (pf_tvar pf).
Proof. now destruct pf. Qed.

(** X8: [convert_variable_location] answers 0, -ENOENT, -ENOMEM, -ENOTSUP
    or -ERANGE.  It writes to the argument under conversion only, and
    there to the value and the reference; after the answer 0 the value is
    set; an answer other than 0 and -ENOMEM comes with no write and no
    allocation at all. *)
Theorem convert_variable_location_answers
    (env : Env) (vr_die : Dwarf_Die) (pf pf' : probe_finder) (w w' : World)
    (r : Z)
    (Hrun : convert_variable_location env vr_die pf w = Done (r, pf') w') :
  In r location_answers /\
  pf' = set_tvar pf (pf_tvar pf') /\
  targ_name (pf_tvar pf') = targ_name (pf_tvar pf) /\
  targ_type (pf_tvar pf') = targ_type (pf_tvar pf) /\
  (r = 0 -> targ_value (pf_tvar pf') <> None) /\
  (r <> 0 -> r <> - ENOMEM ->
   pf' = pf /\ w_refs w' = w_refs w /\ w_nalloc w' = w_nalloc w).
Proof.
  unfold convert_variable_location, crash in Hrun.
  split_run Hrun; injection Hrun as <- <- <-.
  all: repeat match goal with
       | H : (if ?c then _ else _) _ = Done _ _ |- _ => destruct c
       | H : match ?x with _ => _ end _ = Done _ _ |- _ =>
           destruct x; try discriminate H
       | H : Done _ _ = Done _ _ |- _ => injection H as ? ?; subst
       | H : inl _ = inl _ |- _ => injection H as ?; subst
       | H : inr _ = inl _ |- _ => discriminate H
       | H : inl _ = inr _ |- _ => discriminate H
       | H : inr _ = inr _ |- _ => injection H as ? ? ?; subst
       end.
  all: split; [unfold location_answers; cbn [In]; auto 10|].
  all: split; [first [apply set_tvar_self | reflexivity]|].
  all: split; [reflexivity|]; split; [reflexivity|].
  all: split; [first [discriminate | intros _; discriminate]|].
  all: intros H0 H1; first [now contradiction H0 | now contradiction H1
                           | repeat split].
Qed.

(** kfree of the examples: [cpu] at 8 bytes over the frame base. *)
Lemma convert_variable_location_answers_witness :
  let pf := Fixture.finder [] 1 0x1000 (Some Fixture.frame_bp) in
  let pf' := set_tvar pf (mk_targ None (Some "%bp"%string) None (Some 0%nat)) in
  let w' := mk_World [mk_ref None 24] 2 [] in
  convert_variable_location Fixture.env Fixture.cpu_var pf Fixture.world
  = Done (0, pf') w' /\
  In 0 location_answers /\
  pf' = set_tvar pf (pf_tvar pf') /\
  targ_name (pf_tvar pf') = targ_name (pf_tvar pf) /\
  targ_type (pf_tvar pf') = targ_type (pf_tvar pf) /\
  (0 = 0 -> targ_value (pf_tvar pf') <> None) /\
  (0 <> 0 -> 0 <> - ENOMEM ->
   pf' = pf /\ w_refs w' = w_refs Fixture.world /\
   w_nalloc w' = w_nalloc Fixture.world).
Proof.
  intros pf pf' w'.
  assert (Hrun : convert_variable_location Fixture.env Fixture.cpu_var pf
                   Fixture.world = Done (0, pf') w')
    by (vm_compute; reflexivity).
  split; [exact Hrun|].
  exact (convert_variable_location_answers Fixture.env Fixture.cpu_var pf pf'
           Fixture.world w' 0 Hrun).
Defined.

(** X9: a variable at a fixed address (DW_OP_addr) becomes the symbol
    reference [@name] with one indirection frame of offset 0: the address
    in the location is not used.  The value and the frame are allocated in
    this order; when the DIE has no name, its name is read through a NULL
    pointer. *)
Theorem convert_variable_location_static
    (env : Env) (vr_die : Dwarf_Die) (pf : probe_finder) (w : World)
    (addr n2 : Z) (ops : list Dwarf_Op)
    (Hloc : at_location vr_die (pf_addr pf)
            = Some (mk_op DW_OP_addr addr n2 :: ops)) :
  (forall name : string,
     dwarf_diename vr_die = Some name ->
     alloc_ok env (w_nalloc w) = true ->
     alloc_ok env (S (w_nalloc w)) = true ->
     convert_variable_location env vr_die pf w
     = Done (0, set_tvar pf
                  (mk_targ (targ_name (pf_tvar pf)) (Some ("@" +:+ name))
                           (targ_type (pf_tvar pf))
                           (Some (length (w_refs w)))))
            (mk_World (w_refs w ++ [mk_ref None 0]) (S (S (w_nalloc w)))
                      (w_log w))) /\
  (dwarf_diename vr_die = None ->
   convert_variable_location env vr_die pf w = Crash NullDeref).
Proof.
  unfold convert_variable_location. rewrite Hloc. cbn [atom].
  rewrite Z.eqb_refl. split.
  - intros name Hname H1 H2. rewrite Hname. msimpl.
    rewrite H1. cbn [negb]. cbv beta iota. cbn [w_refs w_nalloc w_log].
    rewrite H2. cbv beta iota. cbn [w_refs w_nalloc w_log].
    unfold ref_set_offset, ref_update. cbn [w_refs w_nalloc w_log].
    rewrite lookup_app_r, Nat.sub_diag by lia. cbn [lookup list_lookup].
    rewrite insert_app_r_alt, Nat.sub_diag by lia. reflexivity.
  - intros ->. reflexivity.
Qed.

(** do_fork of the examples: the static [jiffies]. *)
Lemma convert_variable_location_static_witness :
  convert_variable_location Fixture.src_env Fixture.jiffies_var
    (Fixture.finder [] 1 0x3000 None) Fixture.world
  = Done (0, set_tvar (Fixture.finder [] 1 0x3000 None)
               (mk_targ None (Some "@jiffies"%string) None (Some 0%nat)))
         (mk_World [mk_ref None 0] 2 []).
Proof.
  apply (proj1 (convert_variable_location_static Fixture.src_env
                  Fixture.jiffies_var (Fixture.finder [] 1 0x3000 None)
                  Fixture.world 0xffffffff81a00000 0 [] eq_refl)
           "jiffies"%string); reflexivity.
Defined.

(** ** convert_variable_fields, the access operators *)

(** The start of a step: the report, and the resolved type of the
    variable. *)
Ltac field_start Hty :=
  unfold convert_variable_fields;
  cbn [field_name field_next field_index field_ref];
  unfold pr_debug, pr_debug2; rewrite bind_pr;
  rewrite (bind_Done _ _ _ _ _ (Hty _)); rewrite bind_pr.

(** X10: a field step that does not fit the type of the variable is
    refused with -EINVAL before anything is allocated or written: '.' on
    a pointer, '->' on a structure, an index on a structure, and any step
    into a type that is neither a pointer nor a structure. *)
Theorem convert_variable_fields_operator_mismatch
    (env : Env) (vr_die type : Dwarf_Die) (varname : string)
    (field : perf_probe_arg_field) (ref_ptr : option nat) (w : World)
    (Hty : forall w, die_get_real_type env vr_die w = Done (Some type) w)
    (Hbad :
       (dwarf_tag type = DW_TAG_pointer_type /\
        name0 (field_name field) <> "["%char /\ field_ref field = false) \/
       (dwarf_tag type = DW_TAG_structure_type /\
        (name0 (field_name field) = "["%char \/ field_ref field = true)) \/
       (dwarf_tag type <> DW_TAG_pointer_type /\
        dwarf_tag type <> DW_TAG_structure_type /\
        name0 (field_name field) <> "["%char)) :
  exists w',
    convert_variable_fields env vr_die varname field ref_ptr w
    = Done (- EINVAL, ref_ptr, None) w' /\
    w_refs w' = w_refs w /\ w_nalloc w' = w_nalloc w.
Proof.
  destruct field as [nx nm idx rf]. cbn [field_name field_ref] in Hbad.
  field_start Hty.
  destruct Hbad as [(Htag & Hidx & Href)|[(Htag & Hor)|(Hp & Hs & Hidx)]].
  - rewrite Htag, Href.
    destruct (Ascii.eqb_spec (name0 nm) "["%char) as [E|_]; [contradiction|].
    cbn [andb].
    change (DW_TAG_pointer_type =? DW_TAG_pointer_type) with true.
    cbn [negb]. unfold pr_err. rewrite bind_pr. eexists.
    split; [reflexivity|]. split; reflexivity.
  - rewrite Htag.
    change (DW_TAG_structure_type =? DW_TAG_array_type) with false.
    change (DW_TAG_structure_type =? DW_TAG_pointer_type) with false.
    change (DW_TAG_structure_type =? DW_TAG_structure_type) with true.
    rewrite andb_false_r. cbn [orb negb].
    destruct (Ascii.eqb (name0 nm) "["%char) eqn:E.
    + unfold pr_err. rewrite bind_pr. eexists.
      split; [reflexivity|]. split; reflexivity.
    + destruct Hor as [Hidx|Href].
      * rewrite Hidx in E. discriminate E.
      * rewrite Href. unfold pr_err. rewrite bind_pr. eexists.
        split; [reflexivity|]. split; reflexivity.
  - destruct (Ascii.eqb_spec (name0 nm) "["%char) as [E|_]; [contradiction|].
    cbn [andb].
    destruct (Z.eqb_spec (dwarf_tag type) DW_TAG_pointer_type);
      [contradiction|].
    destruct (Z.eqb_spec (dwarf_tag type) DW_TAG_structure_type);
      [contradiction|].
    cbn [negb]. unfold pr_warning. rewrite bind_pr. eexists.
    split; [reflexivity|]. split; reflexivity.
Qed.

(** do_fork of the examples: [p] is a pointer, so [p.pid] is refused. *)
Lemma convert_variable_fields_operator_mismatch_witness :
  exists w',
    convert_variable_fields Fixture.src_env Fixture.p_var "p"
      (mk_field None "pid" 0 false) (Some 0%nat)
      (mk_World [mk_ref None 40] 2 [])
    = Done (- EINVAL, Some 0%nat, None) w' /\
    w_refs w' = [mk_ref None 40] /\ w_nalloc w' = 2%nat.
Proof.
  apply (convert_variable_fields_operator_mismatch Fixture.src_env
           Fixture.p_var Fixture.task_ptr_type).
  - intros w. reflexivity.
  - left. split; [reflexivity|]. split; [discriminate | reflexivity].
Defined.

Lemma die_get_data_member_location_offset
    (mb_die : Dwarf_Die) (offs : Z) (w : World) :
  member_offset mb_die = Some offs ->
  die_get_data_member_location mb_die w = Done (0, Some offs) w.
Proof.
  unfold member_offset, die_get_data_member_location.
  destruct (at_data_member_location mb_die) as [[o|[[|e [|e' rest]]|]]|];
    try discriminate.
  - intros H. injection H as ->. reflexivity.
  - destruct (atom e =? DW_OP_plus_uconst); [|discriminate].
    intros H. injection H as <-. reflexivity.
Qed.

Lemma to_long_idem (z : Z) : to_long (to_long z) = to_long z.
Proof.
  unfold to_long, wrap_signed.
  replace ((z + 2 ^ (64 - 1)) mod 2 ^ 64 - 2 ^ (64 - 1) + 2 ^ (64 - 1))
    with ((z + 2 ^ (64 - 1)) mod 2 ^ 64) by lia.
  now rewrite Z.mod_mod by lia.
Qed.

Lemma to_long_add_r (a b : Z) : to_long (a + to_long b) = to_long (a + b).
Proof.
  unfold to_long, wrap_signed.
  replace (a + ((b + 2 ^ (64 - 1)) mod 2 ^ 64 - 2 ^ (64 - 1)) + 2 ^ (64 - 1))
    with (a + (b + 2 ^ (64 - 1)) mod 2 ^ 64) by lia.
  rewrite Z.add_mod_idemp_r by lia. f_equal. f_equal. lia.
Qed.

Lemma bind_ext_run {A B} (m : M A) (k k' : A -> M B) (w : World) :
  (forall a w1, m w = Done a w1 -> k a w1 = k' a w1) ->
  bind m k w = bind m k' w.
Proof. unfold bind. intros H. destruct (m w); auto. Qed.

(** X11: what the two member operators do to the chain of indirection
    frames.  [var.member] on a structure in memory adds the offset of the
    member to the last frame, the sum being one that a [long] holds.
    [var->member] on a pointer to a structure
    allocates a new frame that holds the offset of the member, and hangs it
    behind the last frame, or makes it the first frame when the pointer
    lives in a register. *)
Theorem convert_variable_fields_member
    (env : Env) (vr_die type mb_die : Dwarf_Die) (varname : string)
    (field : perf_probe_arg_field) (w : World) (offs : Z)
    (Hty : forall w, die_get_real_type env vr_die w = Done (Some type) w)
    (Hidx : name0 (field_name field) <> "["%char)
    (Hlast : field_next field = None)
    (Hoffs : member_offset mb_die = Some offs) :
  (* var.member *)
  (forall (a : nat) (node : kprobe_trace_arg_ref),
     dwarf_tag type = DW_TAG_structure_type ->
     field_ref field = false ->
     die_find_member type (field_name field) = Some mb_die ->
     w_refs w !! a = Some node ->
     - 2 ^ 63 <= ref_offset node + to_long offs < 2 ^ 63 ->
     exists w',
       convert_variable_fields env vr_die varname field (Some a) w
       = Done (0, Some a, Some mb_die) w' /\
       w_nalloc w' = w_nalloc w /\
       w_refs w'
       = <[a := mk_ref (ref_next node) (ref_offset node + to_long offs)]>
           (w_refs w)) /\
  (* var->member *)
  (forall (st_die : Dwarf_Die),
     dwarf_tag type = DW_TAG_pointer_type ->
     field_ref field = true ->
     (forall w, die_get_real_type env type w = Done (Some st_die) w) ->
     dwarf_tag st_die = DW_TAG_structure_type ->
     die_find_member st_die (field_name field) = Some mb_die ->
     alloc_ok env (w_nalloc w) = true ->
     let new := length (w_refs w) in
     (forall (a : nat) (node : kprobe_trace_arg_ref),
        w_refs w !! a = Some node ->
        exists w',
          convert_variable_fields env vr_die varname field (Some a) w
          = Done (0, Some a, Some mb_die) w' /\
          w_refs w'
          = <[a := mk_ref (Some new) (ref_offset node)]> (w_refs w)
            ++ [mk_ref None (to_long offs)]) /\
     (exists w',
        convert_variable_fields env vr_die varname field None w
        = Done (0, Some new, Some mb_die) w' /\
        w_refs w' = w_refs w ++ [mk_ref None (to_long offs)])).
Proof.
  destruct field as [nx nm idx rf].
  cbn [field_name field_ref field_next] in *. subst nx.
  split.
  - intros a node Htag Href Hmem Hnode Hfit.
    field_start Hty. rewrite Htag, Href.
    destruct (Ascii.eqb_spec (name0 nm) "["%char) as [E|_]; [contradiction|].
    cbn [andb].
    change (DW_TAG_structure_type =? DW_TAG_pointer_type) with false.
    change (DW_TAG_structure_type =? DW_TAG_structure_type) with true.
    cbn [negb]. rewrite Hmem.
    rewrite (bind_Done _ _ _ _ _
               (die_get_data_member_location_offset mb_die offs _ Hoffs)).
    cbn [Z.ltb Z.compare default]. change (0 <? 0) with false. cbv iota.
    unfold ref_add_offset, ref_update, bind, ret.
    cbn [w_refs w_nalloc w_log]. rewrite Hnode.
    eexists. split; [reflexivity|]. split; [reflexivity|].
    cbn [w_refs ref_next ref_offset]. unfold id.
    now rewrite (to_long_small _ Hfit).
  - intros st_die Htag Href Hst Hsttag Hmem Halloc.
    assert (Hstart : forall ref_ptr,
      convert_variable_fields env vr_die varname (mk_field None nm idx rf)
        ref_ptr w
      = (l <- link_new_ref env ref_ptr ;;
         match fst l with
         | None => ret (- ENOMEM, snd l, None)
         | Some _ =>
             ref_add_offset (fst l) (to_long offs) ;;;
             ret (0, snd l, Some mb_die)
         end)
          (mk_World (w_refs w) (w_nalloc w)
             (mk_log LDebug "Var real type: (%x)\n"
                     [AInt (to_uint (dwarf_dieoffset type))]
              :: mk_log LDebug "converting %s in %s\n"
                        [AStr (Some nm); AStr (Some varname)] :: w_log w))).
    { intros ref_ptr. field_start Hty. rewrite Htag, Href.
      destruct (Ascii.eqb_spec (name0 nm) "["%char) as [E|_]; [contradiction|].
      cbn [andb].
      change (DW_TAG_pointer_type =? DW_TAG_pointer_type) with true.
      cbn [negb]. rewrite (bind_Done _ _ _ _ _ (Hst _)).
      rewrite Hsttag.
      change (DW_TAG_structure_type =? DW_TAG_structure_type) with true.
      cbn [negb]. apply bind_ext_run. intros [[r|] rp] w1 _; [|reflexivity].
      cbn [fst snd]. rewrite Hmem.
      rewrite (bind_Done _ _ _ _ _
                 (die_get_data_member_location_offset mb_die offs _ Hoffs)).
      change (0 <? 0) with false. cbv iota. reflexivity. }
    split.
    + intros a node Hnode. rewrite Hstart.
      unfold link_new_ref, zalloc_ref, alloc, bind at 1 2 3.
      cbn [w_refs w_nalloc w_log]. rewrite Halloc. cbv beta iota.
      cbn [w_refs w_nalloc w_log].
      unfold ref_set_next, ref_update, bind at 1. cbn [w_refs w_nalloc w_log].
      rewrite lookup_app_l by (apply lookup_lt_Some in Hnode; exact Hnode).
      rewrite Hnode. unfold ret at 1. cbn [fst snd].
      unfold ref_add_offset, ref_update, bind, ret.
      cbn [w_refs w_nalloc w_log].
      assert (Ha : (a < length (w_refs w))%nat)
        by (apply lookup_lt_Some in Hnode; exact Hnode).
      rewrite insert_app_l by exact Ha.
      rewrite lookup_app_r by (rewrite length_insert; lia).
      rewrite length_insert, Nat.sub_diag. cbn [lookup list_lookup].
      eexists. split; [reflexivity|]. cbn [w_refs].
      rewrite insert_app_r_alt by (rewrite length_insert; lia).
      rewrite length_insert, Nat.sub_diag. cbn [list_insert ref_next ref_offset].
      rewrite to_long_add_r. reflexivity.
    + rewrite Hstart.
      unfold link_new_ref, zalloc_ref, alloc, bind at 1 2 3.
      cbn [w_refs w_nalloc w_log]. rewrite Halloc. cbv beta iota.
      cbn [w_refs w_nalloc w_log]. unfold ret at 1. cbn [fst snd].
      unfold ref_add_offset, ref_update, bind, ret.
      cbn [w_refs w_nalloc w_log].
      rewrite lookup_app_r, Nat.sub_diag by lia. cbn [lookup list_lookup].
      eexists. split; [reflexivity|]. cbn [w_refs].
      rewrite insert_app_r_alt, Nat.sub_diag by lia.
      cbn [list_insert ref_next ref_offset].
      rewrite to_long_add_r. reflexivity.
Qed.

(** do_fork of the examples: [t.pid] with [t] at 48 bytes over the frame
    base, and [p->pid] with the pointer [p] stored at 40 bytes over it;
    [pid] lies 8 bytes into the structure. *)
Lemma convert_variable_fields_member_witness :
  (exists w',
     convert_variable_fields Fixture.src_env Fixture.t_var "t"
       (mk_field None "pid" 0 false) (Some 0%nat)
       (mk_World [mk_ref None 48] 2 [])
     = Done (0, Some 0%nat, Some Fixture.pid_member) w' /\
     w_nalloc w' = 2%nat /\
     w_refs w' = [mk_ref None 56]) /\
  (exists w',
     convert_variable_fields Fixture.src_env Fixture.p_var "p"
       (mk_field None "pid" 0 true) (Some 0%nat)
       (mk_World [mk_ref None 40] 2 [])
     = Done (0, Some 0%nat, Some Fixture.pid_member) w' /\
     w_refs w' = [mk_ref (Some 1%nat) 40; mk_ref None 8]).
Proof.
  split.
  - exact (proj1 (convert_variable_fields_member Fixture.src_env
                    Fixture.t_var Fixture.task_type Fixture.pid_member "t"
                    (mk_field None "pid" 0 false)
                    (mk_World [mk_ref None 48] 2 []) 8
                    (fun w => eq_refl) ltac:(discriminate) eq_refl eq_refl)
             0%nat (mk_ref None 48) eq_refl eq_refl eq_refl eq_refl
             ltac:(vm_compute; split; [discriminate | reflexivity])).
  - exact (proj1 (proj2 (convert_variable_fields_member Fixture.src_env
                    Fixture.p_var Fixture.task_ptr_type Fixture.pid_member
                    "p" (mk_field None "pid" 0 true)
                    (mk_World [mk_ref None 40] 2 []) 8
                    (fun w => eq_refl) ltac:(discriminate) eq_refl eq_refl)
                   Fixture.task_type eq_refl eq_refl (fun w => eq_refl)
                   eq_refl eq_refl eq_refl)
             0%nat (mk_ref None 40) eq_refl).
Defined.

(** ** find_variable, raw parameters *)

(** X12: an argument whose variable is not a C variable name (a register,
    a stack slot) is copied as it is: [find_variable] answers 0 with the
    name of the argument and the text of the variable as its value, and
    the debug information is not consulted.  Neither a type nor a
    reference is set, also when the argument asks for a type.  An argument
    without a name is named after its synthesized text, the first ':' of
    which becomes '_'; when the text cannot be synthesized, the error is
    handed on and nothing is written. *)
Theorem find_variable_raw_parameter
    (env : Env) (sp_die : Dwarf_Die) (pf : probe_finder) (w : World)
    (Hraw : is_c_varname env (parg_var (pf_pvar pf)) = false) :
  let copied (name : string) :=
    Done (0, set_tvar pf
               (mk_targ (Some name) (Some (parg_var (pf_pvar pf)))
                        (targ_type (pf_tvar pf)) (targ_ref (pf_tvar pf))))
         (mk_World (w_refs w) (S (S (w_nalloc w))) (w_log w)) in
  (alloc_ok env (w_nalloc w) = true ->
   alloc_ok env (S (w_nalloc w)) = true ->
   (forall name, parg_name (pf_pvar pf) = Some name ->
                 find_variable env sp_die pf w = copied name) /\
   (forall r buf,
      parg_name (pf_pvar pf) = None ->
      synthesize_perf_probe_arg env (pf_pvar pf) = (r, buf) ->
      0 <= r ->
      find_variable env sp_die pf w = copied (replace_first_colon buf))) /\
  (forall r buf,
     parg_name (pf_pvar pf) = None ->
     synthesize_perf_probe_arg env (pf_pvar pf) = (r, buf) ->
     r < 0 ->
     find_variable env sp_die pf w = Done (r, pf) w).
Proof.
  intros copied. subst copied. unfold find_variable. split.
  - intros H1 H2. split.
    + intros name Hn. rewrite Hn. msimpl. rewrite H1. cbv beta iota.
      cbn [pf_pvar set_tvar]. rewrite Hraw. cbn [negb w_nalloc].
      rewrite H2. reflexivity.
    + intros r buf Hn Hs Hr. rewrite Hn, Hs.
      destruct (Z.ltb_spec r 0); [lia|]. msimpl. rewrite H1. cbv beta iota.
      cbn [pf_pvar set_tvar]. rewrite Hraw. cbn [negb w_nalloc].
      rewrite H2. reflexivity.
  - intros r buf Hn Hs Hr. rewrite Hn, Hs.
    destruct (Z.ltb_spec r 0); [|lia]. reflexivity.
Qed.

(** The register [%ax] as the argument [ax]. *)
Lemma find_variable_raw_parameter_witness :
  find_variable Fixture.src_env Fixture.do_fork_die
    (set_pvar (Fixture.finder [] 1 0x3000 None)
              (mk_parg (Some "ax"%string) "%ax" (Some "u16"%string) None))
    Fixture.world
  = Done (0, set_tvar
               (set_pvar (Fixture.finder [] 1 0x3000 None)
                  (mk_parg (Some "ax"%string) "%ax" (Some "u16"%string) None))
               (mk_targ (Some "ax"%string) (Some "%ax"%string) None None))
         (mk_World [] 2 []).
Proof.
  exact (proj1 (proj1 (find_variable_raw_parameter Fixture.src_env
                         Fixture.do_fork_die
                         (set_pvar (Fixture.finder [] 1 0x3000 None)
                            (mk_parg (Some "ax"%string) "%ax"
                                     (Some "u16"%string) None))
                         Fixture.world eq_refl)
                  eq_refl eq_refl)
           "ax"%string eq_refl).
Defined.

(** ** convert_probe_point, the slot of an event *)

Lemma to_int_succ (n : Z) : 0 <= n < INT_MAX -> to_int (n + 1) = n + 1.
Proof. intros H. apply to_int_small. lia. Qed.

(** The frame of an emission in terms of [finder_extends]. *)
Lemma convert_probe_point_extends env sp_die pf w r pf' w' :
  finder_in_bounds pf ->
  convert_probe_point env sp_die pf w = Done (r, pf') w' ->
  finder_extends pf pf' /\ finder_in_bounds pf'.
Proof.
  intros ((H0 & H1) & H2) Hrun.
  destruct (Z.eq_dec (pf_ntevs pf) (pf_max_tevs pf)) as [Hfull|Hroom].
  - unfold convert_probe_point in Hrun. rewrite Hfull, Z.eqb_refl in Hrun.
    unfold pr_warning in Hrun. rewrite bind_pr in Hrun.
    injection Hrun as _ <- _.
    split; [|repeat split; assumption].
    repeat split; try reflexivity; lia.
  - destruct (convert_probe_point_emits_one _ _ _ _ _ _ _ Hroom Hrun)
      as (Hn & Hm & Hl & Hj).
    cbn [pf_ntevs pf_max_tevs pf_tevs set_ntevs] in *.
    rewrite to_int_succ in Hn by lia.
    split; [|repeat split; lia].
    repeat split; try assumption; try lia.
    intros j Hlt. apply Hj. lia.
Qed.

(** X13: below capacity, a run of [convert_probe_point] that returns has
    taken one slot, whatever it answers: [ntevs] is one more than before,
    also after an error, the capacity and the events in use before are as
    they were, and the only event written is the one in the slot taken. *)
Theorem convert_probe_point_takes_slot
    (env : Env) (sp_die : option Dwarf_Die) (pf pf' : probe_finder)
    (w w' : World) (r : Z)
    (Hbounds : finder_in_bounds pf)
    (Hroom : pf_ntevs pf <> pf_max_tevs pf)
    (Hrun : convert_probe_point env sp_die pf w = Done (r, pf') w') :
  pf_ntevs pf' = pf_ntevs pf + 1 /\
  pf_max_tevs pf' = pf_max_tevs pf /\
  length (pf_tevs pf') = length (pf_tevs pf) /\
  (forall j : nat, j <> Z.to_nat (pf_ntevs pf) ->
                   pf_tevs pf' !! j = pf_tevs pf !! j) /\
  finder_in_bounds pf'.
Proof.
  destruct Hbounds as ((H0 & H1) & H2).
  destruct (convert_probe_point_emits_one _ _ _ _ _ _ _ Hroom Hrun)
    as (Hn & Hm & Hl & Hj).
  cbn [pf_ntevs pf_max_tevs pf_tevs set_ntevs] in *.
  rewrite to_int_succ in Hn by lia.
  split; [exact Hn|]. split; [exact Hm|]. split; [exact Hl|].
  split; [exact Hj|]. repeat split; lia.
Qed.

(** kfree of the examples: room for one event, and [cpu] is found. *)
Lemma convert_probe_point_takes_slot_witness :
  pf_ntevs Fixture.pf_cpu_full = pf_ntevs Fixture.pf_cpu + 1 /\
  pf_max_tevs Fixture.pf_cpu_full = pf_max_tevs Fixture.pf_cpu /\
  length (pf_tevs Fixture.pf_cpu_full) = length (pf_tevs Fixture.pf_cpu) /\
  (forall j : nat, j <> Z.to_nat (pf_ntevs Fixture.pf_cpu) ->
                   pf_tevs Fixture.pf_cpu_full !! j
                   = pf_tevs Fixture.pf_cpu !! j) /\
  finder_in_bounds Fixture.pf_cpu_full.
Proof.
  eapply (convert_probe_point_takes_slot Fixture.env None Fixture.pf_cpu
            Fixture.pf_cpu_full Fixture.world _ 0).
  - repeat split; vm_compute; discriminate.
  - discriminate.
  - vm_compute. reflexivity.
Defined.

(** ** find_perf_probe_point, its answers *)

(** X14: [find_perf_probe_point] answers 1, 0, -EBADF, -EINVAL, -ENOMEM,
    or the -1 of a failing [dwarf_decl_line].  With 0, -EBADF or -EINVAL
    the probe point is as it was and nothing was allocated; with 1 the
    file or the function is set; -ENOMEM needs a failing allocation. *)
Theorem find_perf_probe_point_answers
    (env : Env) (fd addr : Z) (ppt ppt' : perf_probe_point) (w w' : World)
    (r : Z)
    (Hrun : find_perf_probe_point env fd addr ppt w = Done (r, ppt') w') :
  In r reverse_answers /\
  (r = 0 \/ r = - EBADF \/ r = - EINVAL -> ppt' = ppt /\ w' = w) /\
  (r = 1 -> pp_file ppt' <> None \/ pp_function ppt' <> None) /\
  (r = - ENOMEM -> exists k, alloc_ok env k = false).
Proof.
  unfold find_perf_probe_point in Hrun.
  split_run Hrun.
  all: repeat match goal with
       | H : (if ?c then _ else _) _ = Done _ _ |- _ => destruct c eqn:?
       | H : match ?x with _ => _ end _ = Done _ _ |- _ =>
           destruct x eqn:?; try discriminate H
       | H : Done _ _ = Done _ _ |- _ => injection H as ? ?; subst
       | H : inl _ = inl _ |- _ => injection H as ?; subst
       | H : inr _ = inl _ |- _ => discriminate H
       | H : inl _ = inr _ |- _ => discriminate H
       | H : inr _ = inr _ |- _ => injection H as ? ?; subst
       | H : (_, _) = (_, _) |- _ => injection H as ? ?; subst
       end.
  all: try match goal with
       | H : (- _ >=? 0) = true |- _ => discriminate H
       | H : (0 >=? 0) = false |- _ => discriminate H
       end.
  all: try (injection Hrun as <- <- <-).
  all: split; [unfold reverse_answers; cbn [In]; auto 10|].
  all: split; [intros [Hr|[Hr|Hr]]; try discriminate Hr;
               try (split; [first [reflexivity | now destruct ppt]
                           | first [reflexivity | now destruct w]])|].
  all: split; [intros Hr; try discriminate Hr;
               cbn [pp_file pp_function set_ppt_function set_ppt_file
                    set_ppt_line set_ppt_offset];
               first [now left | now right]|].
  all: intros Hr; try discriminate Hr.
  all: match goal with
       | H : (if alloc_ok ?e ?n then _ else _) = None |- _ =>
           exists n; destruct (alloc_ok e n); [discriminate H | reflexivity]
       end.
Qed.

(** mm/slub.c of the examples, at the entry of kfree. *)
Lemma find_perf_probe_point_answers_witness :
  let ppt' := ppt_relative Fixture.ppt_zero "mm/slub.c" "kfree" 0 in
  let w' := mk_World [] 2 [] in
  In 1 reverse_answers /\
  (1 = 0 \/ 1 = - EBADF \/ 1 = - EINVAL ->
   ppt' = Fixture.ppt_zero /\ w' = Fixture.world) /\
  (1 = 1 -> pp_file ppt' <> None \/ pp_function ppt' <> None) /\
  (1 = - ENOMEM -> exists k, alloc_ok Fixture.env k = false).
Proof.
  intros ppt' w'.
  apply (find_perf_probe_point_answers Fixture.env 3 0x1000 Fixture.ppt_zero
           ppt' Fixture.world w' 1).
  vm_compute. reflexivity.
Defined.

(** ** get_real_path, the path handed back *)

Lemma is_tail_of_refl (s : string) : is_tail_of s s.
Proof. now exists EmptyString. Qed.

Lemma is_tail_of_trans (a b c : string) :
  is_tail_of a b -> is_tail_of b c -> is_tail_of a c.
Proof.
  intros (p & ->) (q & ->). exists (q +:+ p). now rewrite append_assoc.
Qed.

Lemma get_real_path_loop_result (env : Env) (prefix : string) (fuel : nat) :
  forall (raw : string) (w w' : World) (r : Z) (new_path : option string),
    get_real_path_loop env fuel prefix raw w = Done (r, new_path) w' ->
    w' = w /\
    (r = 0 <-> new_path <> None) /\
    forall p, new_path = Some p ->
              access_R_OK env p = 0 /\
              exists t, is_tail_of t raw /\ p = prefix +:+ "/" +:+ t.
Proof.
  induction fuel as [|fuel IH]; intros raw w w' r new_path; [discriminate|].
  cbn [get_real_path_loop].
  destruct (get_real_path_step env prefix raw) as [r0 np|raw'|] eqn:Estep;
    [| |discriminate].
  - intros H. injection H as <- <- <-. split; [reflexivity|].
    unfold get_real_path_step in Estep.
    destruct (Z.eqb_spec (access_R_OK env (prefix +:+ "/" +:+ raw)) 0)
      as [Hok|Hno].
    + injection Estep as <- <-. split; [split; [discriminate | reflexivity]|].
      intros p H. injection H as <-. split; [exact Hok|].
      exists raw. split; [apply is_tail_of_refl | reflexivity].
    + assert (Hr0 : r0 <> 0 /\ np = None).
      { destruct (_ || _).
        - destruct raw as [|c raw1]; [discriminate|].
          destruct (strchr raw1 "/"%char); [discriminate|].
          injection Estep as <- <-. split; [discriminate | reflexivity].
        - injection Estep as <- <-. split; [lia | reflexivity]. }
      destruct Hr0 as (Hr0 & ->).
      split; [split; [intros H; contradiction | intros H; now contradiction H]|].
      discriminate.
  - intros H. destruct (IH _ _ _ _ _ H) as (-> & Hiff & Hp).
    split; [reflexivity|]. split; [exact Hiff|].
    intros p Hnp. destruct (Hp p Hnp) as (Hok & t & Ht & ->).
    split; [exact Hok|]. exists t. split; [|reflexivity].
    apply (is_tail_of_trans _ raw'); [exact Ht|].
    destruct (get_real_path_step_retry env prefix raw raw' Estep)
      as (_ & (c & first & rest & Hraw & _) & _).
    exists (String c first). exact Hraw.
Qed.

(** X15: a path that [get_real_path] hands back can be read, and is the
    raw path itself when no source prefix is configured, and else the
    prefix, a '/' and a tail of the raw path.  With a prefix the answer
    is 0 exactly when a path is handed back; without one the answer is 0
    also when the copy of the path could not be allocated, and no path is
    handed back then. *)
Theorem get_real_path_result
    (env : Env) (fuel : nat) (raw_path : string) (w w' : World) (r : Z)
    (new_path : option string)
    (Hrun : get_real_path env fuel raw_path w = Done (r, new_path) w') :
  (forall p, new_path = Some p ->
             r = 0 /\ access_R_OK env p = 0 /\
             match source_prefix env with
             | None => p = raw_path
             | Some prefix =>
                 exists t, is_tail_of t raw_path /\ p = prefix +:+ "/" +:+ t
             end) /\
  (source_prefix env <> None -> r = 0 -> new_path <> None) /\
  (source_prefix env = None ->
   (r = 0 <-> access_R_OK env raw_path = 0) /\
   (new_path = None <->
    access_R_OK env raw_path <> 0 \/ alloc_ok env (w_nalloc w) = false)).
Proof.
  unfold get_real_path in Hrun.
  destruct (source_prefix env) as [prefix|].
  - unfold bind, alloc in Hrun. cbn [w_nalloc] in Hrun.
    destruct (alloc_ok env (w_nalloc w)); cbn [negb] in Hrun.
    + destruct (get_real_path_loop_result _ _ _ _ _ _ _ _ Hrun)
        as (_ & Hiff & Hp).
      split; [|split; [intros _; apply Hiff | discriminate]].
      intros p Hnp. destruct (Hp p Hnp) as (Hok & Ht).
      split; [apply Hiff; congruence|]. split; assumption.
    + injection Hrun as <- <- _.
      split; [discriminate|]. split; [discriminate | discriminate].
  - destruct (Z.eqb_spec (access_R_OK env raw_path) 0) as [Hok|Hno].
    + msimpl_in Hrun. injection Hrun as <- <- _.
      split; [|split; [intros H; now contradiction H|]].
      * intros p Hp. destruct (alloc_ok env (w_nalloc w)); [|discriminate].
        injection Hp as <-. auto.
      * intros _. split; [tauto|].
        destruct (alloc_ok env (w_nalloc w)); split;
          try discriminate; try tauto.
        intros [H|H]; [contradiction | discriminate].
    + injection Hrun as <- <- _.
      split; [discriminate|]. split; [intros H; now contradiction H|].
      intros _. split; [split; [lia | contradiction] | tauto].
Qed.

(** The source tree of the examples: of /build/linux/mm/slub.c, the tail
    /mm/slub.c is found under the prefix. *)
Lemma get_real_path_result_witness :
  (forall p, Some "/usr/src/linux//mm/slub.c"%string = Some p ->
             0 = 0 /\ access_R_OK Fixture.src_env p = 0 /\
             exists t, is_tail_of t "/build/linux/mm/slub.c" /\
                       p = ("/usr/src/linux" +:+ "/" +:+ t)%string) /\
  (source_prefix Fixture.src_env <> None -> 0 = 0 ->
   Some "/usr/src/linux//mm/slub.c"%string <> None) /\
  (source_prefix Fixture.src_env = None ->
   (0 = 0 <-> access_R_OK Fixture.src_env "/build/linux/mm/slub.c" = 0) /\
   (Some "/usr/src/linux//mm/slub.c"%string = None <->
    access_R_OK Fixture.src_env "/build/linux/mm/slub.c" <> 0 \/
    alloc_ok Fixture.src_env (w_nalloc Fixture.world) = false)).
Proof.
  apply (get_real_path_result Fixture.src_env 30 "/build/linux/mm/slub.c"
           Fixture.world (mk_World [] 1 []) 0
           (Some "/usr/src/linux//mm/slub.c"%string)).
  vm_compute. reflexivity.
Defined.

(** ** cu_find_realpath *)

Lemma strtailcmp_tail_match (s1 s2 : string) :
  strtailcmp s1 s2 = 0 <-> tail_match s1 s2.
Proof.
  unfold strtailcmp, tail_match.
  rewrite strtailcmp_loop_spec by lia.
  rewrite !strlen_list, !firstn_all, !is_tail_of_suffix,
          !suffix_prefix_reverse.
  reflexivity.
Qed.

Lemma cu_find_realpath_loop_spec (files : list string) (fname src : string) :
  cu_find_realpath_loop files fname = Some src <->
  exists before after,
    files = before ++ src :: after /\
    tail_match src fname /\
    Forall (fun f => ~ tail_match f fname) before.
Proof.
  induction files as [|f files IH]; cbn [cu_find_realpath_loop].
  - split; [discriminate|]. intros ([|? ?] & ? & H & _); discriminate H.
  - destruct (Z.eqb_spec (strtailcmp f fname) 0) as [E|E].
    + apply strtailcmp_tail_match in E. split.
      * intros H. injection H as <-. exists [], files. auto.
      * intros ([|f' before] & after & H & Hm & Hb).
        -- injection H as -> _. reflexivity.
        -- injection H as -> _. inversion Hb; subst. contradiction.
    + rewrite IH. split.
      * intros (before & after & -> & Hm & Hb).
        exists (f :: before), after. split; [reflexivity|].
        split; [exact Hm|]. constructor; [|exact Hb].
        intros H. apply E, strtailcmp_tail_match, H.
      * intros ([|f' before] & after & H & Hm & Hb).
        -- injection H as -> _. exfalso.
           apply E, strtailcmp_tail_match, Hm.
        -- injection H as -> ->. inversion Hb; subst.
           exists before, after. auto.
Qed.

(** X16: [cu_find_realpath] returns the first source file of the CU of
    which the requested name is a tail, or which is a tail of the
    requested name; it returns nothing when no file is requested, when
    the files of the CU cannot be read, and when no file matches.  The
    empty name matches the first file. *)
Theorem cu_find_realpath_first_match
    (dw : Libdw) (cu_die : Dwarf_Die) (fname : string) :
  (forall src,
     cu_find_realpath dw cu_die (Some fname) = Some src <->
     exists files before after,
       dwarf_getsrcfiles dw cu_die = Some files /\
       files = before ++ src :: after /\
       tail_match src fname /\
       Forall (fun f => ~ tail_match f fname) before) /\
  cu_find_realpath dw cu_die None = None /\
  (forall src files,
     dwarf_getsrcfiles dw cu_die = Some (src :: files) ->
     cu_find_realpath dw cu_die (Some EmptyString) = Some src).
Proof.
  split; [|split; [reflexivity|]].
  - intros src. unfold cu_find_realpath.
    destruct (dwarf_getsrcfiles dw cu_die) as [files|].
    + rewrite cu_find_realpath_loop_spec. split.
      * intros (before & after & H). exists files, before, after. auto.
      * intros (files' & before & after & H & H'). injection H as <-.
        exists before, after. exact H'.
    + split; [discriminate|]. intros (? & ? & ? & H & _). discriminate H.
  - intros src files Hf. unfold cu_find_realpath. rewrite Hf.
    cbn [cu_find_realpath_loop].
    replace (strtailcmp src EmptyString) with 0; [reflexivity|].
    unfold strtailcmp. cbn [strlen String.length].
    now destruct (strlen src).
Qed.

(** ** The forward search: what a conversion leaves alone *)

Lemma same_search_refl pf : same_search pf pf.
Proof. repeat split. Qed.

Lemma same_search_trans a b c :
  same_search a b -> same_search b c -> same_search a c.
Proof.
  intros (?&?&?&?&?&?&?) (?&?&?&?&?&?&?). repeat split; congruence.
Qed.

Lemma same_search_set_tvar pf t : same_search pf (set_tvar pf t).
Proof. repeat split. Qed.

Lemma same_search_set_pvar pf t : same_search pf (set_pvar pf t).
Proof. repeat split. Qed.

Lemma same_search_set_fb_ops pf v : same_search pf (set_fb_ops pf v).
Proof. repeat split. Qed.

Lemma same_search_set_ntevs pf v : same_search pf (set_ntevs pf v).
Proof. repeat split. Qed.

Lemma convert_variable_location_same_search env vr_die pf w r pf' w' :
  convert_variable_location env vr_die pf w = Done (r, pf') w' ->
  same_search pf pf'.
Proof.
  unfold convert_variable_location, crash. intros H.
  split_run H;
    injection H as <- <- <-;
    first [apply same_search_refl | apply same_search_set_tvar].
Qed.

Lemma convert_variable_same_search env vr_die pf w r pf' w' :
  convert_variable env vr_die pf w = Done (r, pf') w' ->
  same_search pf pf'.
Proof.
  unfold convert_variable, pr_debug. rewrite bind_pr. intros H.
  apply bind_inv in H. destruct H as ([r1 pf1] & w1 & E1 & H).
  apply convert_variable_location_same_search in E1.
  apply (same_search_trans _ _ _ E1). clear E1.
  apply bind_inv in H. destruct H as ([[r2 pf2] d2] & w2 & E2 & H).
  assert (E : same_search pf1 pf2).
  { destruct (parg_field (pf_pvar pf1)) as [field|];
      [destruct (r1 =? 0)|].
    - apply bind_inv in E2. destruct E2 as ([[r3 ref] d3] & w3 & _ & E2).
      injection E2 as _ <- _ _. apply same_search_set_tvar.
    - injection E2 as _ <- _ _. apply same_search_refl.
    - injection E2 as _ <- _ _. apply same_search_refl. }
  apply (same_search_trans _ _ _ E). clear E E2.
  destruct (r2 =? 0); [|injection H as _ <- _; apply same_search_refl].
  destruct (parg_type (pf_pvar pf2)) as [ty|].
  - apply bind_inv in H. destruct H as (t & w3 & _ & H).
    destruct t; injection H as _ <- _; apply same_search_set_tvar.
  - destruct d2 as [d|]; [|discriminate].
    apply bind_inv in H. destruct H as ([r3 t3] & w3 & _ & H).
    injection H as _ <- _. apply same_search_set_tvar.
Qed.

Lemma find_variable_same_search env sp_die pf w r pf' w' :
  find_variable env sp_die pf w = Done (r, pf') w' ->
  same_search pf pf'.
Proof.
  unfold find_variable. intros H.
  apply bind_inv in H. destruct H as (nm & w1 & _ & H).
  destruct nm as [r1|name]; [injection H as _ <- _; apply same_search_refl|].
  destruct name as [name|];
    [|injection H as _ <- _; apply same_search_set_tvar].
  set (pf1 := set_tvar pf _) in H.
  assert (E1 : same_search pf pf1) by apply same_search_set_tvar.
  apply (same_search_trans _ _ _ E1). clear E1.
  destruct (negb (is_c_varname env (parg_var (pf_pvar pf1)))).
  - apply bind_inv in H. destruct H as (v & w2 & _ & H).
    destruct v; injection H as _ <- _; apply same_search_set_tvar.
  - unfold pr_debug in H. rewrite bind_pr in H.
    apply bind_inv in H. destruct H as ([r2 pf2] & w2 & E2 & H).
    apply bind_inv in H. destruct H as (u & w3 & _ & H).
    injection H as _ <- _.
    destruct (die_find_variable sp_die (parg_var (pf_pvar pf1))) as [vr|].
    + now apply convert_variable_same_search in E2.
    + destruct (dwarf_getscopes_die env sp_die) as [[|sc scopes]|];
        try (injection E2 as _ <- _; apply same_search_refl).
      destruct (dwarf_getscopevar env (sc :: scopes) _) as [vr|].
      * now apply convert_variable_same_search in E2.
      * injection E2 as _ <- _. apply same_search_refl.
Qed.

Lemma tev_update_same_search pf i f w pf' w' :
  tev_update pf i f w = Done pf' w' -> same_search pf pf'.
Proof.
  unfold tev_update, crash, ret.
  destruct (i <? 0); [discriminate|].
  destruct (pf_tevs pf !! Z.to_nat i) as [tev|]; [|discriminate].
  intros H. injection H as <- _. repeat split.
Qed.

Lemma convert_probe_point_args_same_search env n :
  forall i sp_die tev pf w r pf' w',
    convert_probe_point_args env n i sp_die tev pf w = Done (r, pf') w' ->
    same_search pf pf'.
Proof.
  induction n as [|n IH]; intros i sp_die tev pf w r pf' w' H; simpl in H.
  - injection H as _ <- _. apply same_search_refl.
  - destruct (pev_args (pf_pev pf) !! i) as [pvar|]; [|discriminate].
    destruct (tev_arg pf tev i) as [tvar|]; [|discriminate].
    apply bind_inv in H. destruct H as ([r1 pf1] & w1 & E1 & H).
    apply find_variable_same_search in E1.
    apply bind_inv in H. destruct H as (pf2 & w2 & E2 & H).
    apply tev_update_same_search in E2.
    assert (E : same_search pf pf2).
    { eapply same_search_trans; [|exact E2].
      eapply same_search_trans; [|exact E1]. repeat split. }
    destruct (negb (r1 =? 0)).
    + injection H as _ <- _. exact E.
    + eapply same_search_trans; [exact E|]. eapply IH, H.
Qed.

Lemma convert_probe_point_same_search env sp_die pf w r pf' w' :
  convert_probe_point env sp_die pf w = Done (r, pf') w' ->
  same_search pf pf'.
Proof.
  unfold convert_probe_point.
  destruct (pf_ntevs pf =? pf_max_tevs pf).
  { unfold pr_warning. rewrite bind_pr. intros H. injection H as _ <- _.
    apply same_search_refl. }
  set (tev := pf_ntevs pf). set (pf0 := set_ntevs pf _).
  assert (E0 : same_search pf pf0) by apply same_search_set_ntevs.
  intros H. apply (same_search_trans _ _ _ E0). clear E0. revert H.
  change (pf_cu_die pf0) with (pf_cu_die pf).
  change (pf_addr pf0) with (pf_addr pf).
  match goal with
  | |- match ?x with _ => _ end w = _ -> _ => destruct x as [sp|]
  end.
  2:{ unfold pr_warning. rewrite bind_pr. intros H. injection H as _ <- _.
      apply same_search_refl. }
  intros H.
  apply bind_inv in H. destruct H as (nm & w1 & E1 & H).
  assert (Hnm : match nm with
                | inl (_, pf1) => same_search pf0 pf1
                | inr (pf1, _) => same_search pf0 pf1
                end).
  { destruct (dwarf_diename sp) as [name|].
    - destruct (dwarf_entrypc sp) as [eaddr|].
      + apply bind_inv in E1. destruct E1 as (s & w2 & _ & E1).
        apply bind_inv in E1. destruct E1 as (pf1 & w3 & U1 & E1).
        apply tev_update_same_search in U1.
        destruct s as [s|].
        * apply bind_inv in E1. destruct E1 as (pf2 & w4 & U2 & E1).
          apply tev_update_same_search in U2. injection E1 as <- _.
          eapply same_search_trans; eassumption.
        * injection E1 as <- _. exact U1.
      + unfold pr_warning in E1. rewrite bind_pr in E1.
        injection E1 as <- _. apply same_search_refl.
    - apply bind_inv in E1. destruct E1 as (pf1 & w2 & U1 & E1).
      apply tev_update_same_search in U1. injection E1 as <- _. exact U1. }
  destruct nm as [[r1 pf1]|[pf1 offset]];
    [injection H as _ <- _; exact Hnm|].
  eapply same_search_trans; [exact Hnm|]. clear Hnm E1.
  unfold pr_debug in H. rewrite bind_pr in H.
  apply bind_inv in H. destruct H as (fb & w2 & E2 & H).
  assert (Hfb : match fb with
                | inl (_, pf2) => same_search pf1 pf2
                | inr pf2 => same_search pf1 pf2
                end).
  { destruct (at_frame_base sp (pf_addr pf1)) as [[|op0 ops]|];
      try (injection E2 as <- _; apply same_search_set_fb_ops).
    cbn [pf_cfi pf_addr set_fb_ops] in E2.
    destruct ops as [|op1 ops];
      [destruct (pf_cfi pf1) as [cfi|];
       [destruct (atom op0 =? DW_OP_call_frame_cfa);
        [destruct (cfi (pf_addr pf1))|]|]|];
      try (injection E2 as <- _; apply same_search_set_fb_ops).
    injection E2 as <- _. repeat split. }
  destruct fb as [[r2 pf2]|pf2];
    [injection H as _ <- _; exact Hfb|].
  eapply same_search_trans; [exact Hfb|].
  clear Hfb E2.
  apply bind_inv in H. destruct H as (pf3 & w3 & U3 & H).
  apply tev_update_same_search in U3.
  eapply same_search_trans; [exact U3|]. clear U3.
  apply bind_inv in H. destruct H as (ok & w4 & _ & H).
  destruct (negb ok); [injection H as _ <- _; apply same_search_refl|].
  apply bind_inv in H. destruct H as (pf4 & w5 & U4 & H).
  apply tev_update_same_search in U4.
  eapply same_search_trans; [exact U4|]. clear U4.
  apply bind_inv in H. destruct H as ([r5 pf5] & w6 & A5 & H).
  apply convert_probe_point_args_same_search in A5.
  destruct (negb (r5 =? 0)); injection H as _ <- _; [exact A5|].
  eapply same_search_trans; [exact A5|].
  apply same_search_set_fb_ops.
Qed.

Lemma same_search_set_addr pf v : same_search pf (set_addr pf v).
Proof. repeat split. Qed.

(** ** The forward search: the events in use *)

Lemma finder_extends_refl pf : finder_in_bounds pf -> finder_extends pf pf.
Proof. intros ((? & ?) & ?). repeat split; try reflexivity; lia. Qed.

Lemma finder_extends_trans a b c :
  finder_extends a b -> finder_extends b c -> finder_extends a c.
Proof.
  intros (Hm & Hl & Hn & Hj) (Hm' & Hl' & Hn' & Hj').
  repeat split; try congruence; try lia.
  intros j Hlt. rewrite Hj', Hj by lia. reflexivity.
Qed.

Lemma finder_extends_in_bounds a b :
  finder_in_bounds a -> finder_extends a b -> finder_in_bounds b.
Proof.
  intros ((? & ?) & ?) (Hm & _ & Hn & _). repeat split; try lia.
Qed.

Lemma finder_grows_refl pf : finder_grows pf pf.
Proof. intros H. now apply finder_extends_refl. Qed.

Lemma finder_grows_trans a b c :
  finder_grows a b -> finder_grows b c -> finder_grows a c.
Proof.
  intros Hab Hbc Ha. eapply finder_extends_trans; [apply Hab, Ha|].
  apply Hbc. eapply finder_extends_in_bounds; [exact Ha | apply Hab, Ha].
Qed.

(** Writes to the members of a finder that are not the events. *)
Lemma finder_grows_same_events a b : same_events a b -> finder_grows a b.
Proof.
  intros (Hn & Hm & Ht) ((? & ?) & ?).
  repeat split; try congruence; try lia.
Qed.

Lemma finder_grows_set_addr pf v : finder_grows pf (set_addr pf v).
Proof. apply finder_grows_same_events. repeat split. Qed.
Lemma finder_grows_set_lno pf v : finder_grows pf (set_lno pf v).
Proof. apply finder_grows_same_events. repeat split. Qed.
Lemma finder_grows_set_fname pf v : finder_grows pf (set_fname pf v).
Proof. apply finder_grows_same_events. repeat split. Qed.
Lemma finder_grows_set_cu_die pf v : finder_grows pf (set_cu_die pf v).
Proof. apply finder_grows_same_events. repeat split. Qed.
Lemma finder_grows_set_lcache pf v : finder_grows pf (set_lcache pf v).
Proof. apply finder_grows_same_events. repeat split. Qed.

Lemma convert_probe_point_grows env sp_die pf w r pf' w' :
  convert_probe_point env sp_die pf w = Done (r, pf') w' ->
  finder_grows pf pf'.
Proof.
  intros Hrun Hb.
  now destruct (convert_probe_point_extends _ _ _ _ _ _ _ Hb Hrun).
Qed.

(** One call of [convert_probe_point] takes at most one slot, and it takes
    one when it answers 0. *)
Lemma convert_probe_point_count env sp_die pf w r pf' w' :
  finder_in_bounds pf ->
  convert_probe_point env sp_die pf w = Done (r, pf') w' ->
  pf_ntevs pf' <= pf_ntevs pf + 1 /\ (r = 0 -> pf_ntevs pf' = pf_ntevs pf + 1).
Proof.
  intros ((H0 & H1) & H2) Hrun.
  destruct (Z.eq_dec (pf_ntevs pf) (pf_max_tevs pf)) as [Hfull|Hroom].
  - unfold convert_probe_point in Hrun. rewrite Hfull, Z.eqb_refl in Hrun.
    unfold pr_warning in Hrun. rewrite bind_pr in Hrun.
    injection Hrun as <- <- _. split; [lia | discriminate].
  - destruct (convert_probe_point_emits_one _ _ _ _ _ _ _ Hroom Hrun)
      as (Hn & _).
    cbn [pf_ntevs set_ntevs] in Hn. rewrite to_int_succ in Hn by lia. lia.
Qed.

(** ** find_probe_point_by_line *)

Lemma line_hits_same_search pf pf' lines :
  same_search pf pf' -> line_hits pf' lines = line_hits pf lines.
Proof. intros (_ & _ & Hl & Hf & _). unfold line_hits. now rewrite Hl, Hf. Qed.

Lemma line_hits_cons pf line lines :
  line_hits pf (line :: lines)
  = (if line_at (pf_lno pf) (pf_fname pf) line then 1 else 0)
    + line_hits pf lines.
Proof.
  unfold line_hits. cbn [List.filter].
  destruct (line_at _ _ line); cbn [length]; lia.
Qed.

Lemma line_hits_nonneg pf lines : 0 <= line_hits pf lines.
Proof. unfold line_hits. lia. Qed.

Lemma find_probe_point_by_line_loop_spec (env : Env) (lines : list Dwarf_Line) :
  forall i r pf w r' pf' w',
    find_probe_point_by_line_loop env lines i r pf w = Done (r', pf') w' ->
    same_search pf pf' /\ finder_grows pf pf' /\
    (r <> 0 -> r' = r /\ pf' = pf /\ w' = w) /\
    (finder_in_bounds pf -> r = 0 ->
     pf_ntevs pf' - pf_ntevs pf <= line_hits pf lines /\
     (r' = 0 -> pf_ntevs pf' - pf_ntevs pf = line_hits pf lines) /\
     (line_hits pf lines = 0 -> r' = 0 /\ pf' = pf /\ w' = w)).
Proof.
  induction lines as [|line lines IH]; intros i r pf w r' pf' w' Hrun;
    cbn [find_probe_point_by_line_loop] in Hrun.
  - injection Hrun as <- <- <-.
    split; [apply same_search_refl|]. split; [apply finder_grows_refl|].
    split; [auto|]. intros _ ->. unfold line_hits. cbn. repeat split; lia.
  - destruct (Z.eqb_spec r 0) as [->|Hr]; cbn [negb] in Hrun.
    2:{ injection Hrun as <- <- <-.
        split; [apply same_search_refl|]. split; [apply finder_grows_refl|].
        split; [auto|]. intros _ H. contradiction. }
    assert (Hskip :
      line_at (pf_lno pf) (pf_fname pf) line = false ->
      find_probe_point_by_line_loop env lines (i + 1) 0 pf w
      = Done (r', pf') w' ->
      same_search pf pf' /\ finder_grows pf pf' /\
      (0 <> 0 -> r' = 0 /\ pf' = pf /\ w' = w) /\
      (finder_in_bounds pf -> 0 = 0 ->
       pf_ntevs pf' - pf_ntevs pf <= line_hits pf (line :: lines) /\
       (r' = 0 -> pf_ntevs pf' - pf_ntevs pf = line_hits pf (line :: lines)) /\
       (line_hits pf (line :: lines) = 0 -> r' = 0 /\ pf' = pf /\ w' = w))).
    { intros Hno H. rewrite line_hits_cons, Hno, Z.add_0_l.
      exact (IH _ _ _ _ _ _ _ H). }
    unfold line_at in Hskip.
    destruct (dwarf_lineno line) as [lineno|] eqn:Eno; [|now apply Hskip].
    destruct (Z.eqb_spec lineno (pf_lno pf)) as [Hlno|Hlno];
      cbn [negb andb] in *.
    2:{ apply Hskip; [|exact Hrun].
        now destruct (dwarf_linesrc line), (pf_fname pf). }
    unfold strtailcmp_ptr in Hrun.
    destruct (dwarf_linesrc line) as [src|] eqn:Esrc; [|discriminate].
    destruct (pf_fname pf) as [fname|] eqn:Efname; [|discriminate].
    rewrite bind_ret_l in Hrun.
    destruct (Z.eqb_spec (strtailcmp src fname) 0) as [Hc|Hc];
      cbn [negb] in Hrun; [|now apply Hskip].
    clear Hskip.
    assert (Hhit : line_hits pf (line :: lines) = 1 + line_hits pf lines).
    { rewrite line_hits_cons. unfold line_at.
      rewrite Eno, Esrc, Efname, Hlno, Z.eqb_refl, Hc. reflexivity. }
    pose proof (line_hits_nonneg pf lines) as Hnn.
    destruct (dwarf_lineaddr line) as [addr|].
    2:{ unfold pr_warning in Hrun. rewrite bind_pr in Hrun.
        injection Hrun as <- <- _.
        split; [apply same_search_refl|]. split; [apply finder_grows_refl|].
        split; [intros H; now contradiction H|]. intros _ _. rewrite Hhit.
        split; [lia|]. split; [discriminate | lia]. }
    unfold pr_debug in Hrun. rewrite bind_pr in Hrun.
    apply bind_inv in Hrun. destruct Hrun as ([r1 pf1] & w1 & Hcpp & Hrun).
    pose proof (convert_probe_point_same_search _ _ _ _ _ _ _ Hcpp) as Hs1.
    pose proof (convert_probe_point_grows _ _ _ _ _ _ _ Hcpp) as Hg1.
    assert (Hs : same_search pf pf1)
      by (eapply same_search_trans; [apply same_search_set_addr | exact Hs1]).
    assert (Hg : finder_grows pf pf1)
      by (eapply finder_grows_trans; [apply finder_grows_set_addr | exact Hg1]).
    destruct (IH _ _ _ _ _ _ _ Hrun) as (Hs2 & Hg2 & Hstop & Hgo).
    split; [eapply same_search_trans; eassumption|].
    split; [eapply finder_grows_trans; eassumption|].
    split; [intros H; now contradiction H|]. intros Hb _. rewrite Hhit.
    destruct (convert_probe_point_count env None (set_addr pf addr)
                _ _ _ _ Hb Hcpp) as (Hle & Hone).
    cbn [pf_ntevs set_addr] in Hle, Hone.
    assert (Hb1 : finder_in_bounds pf1)
      by (eapply finder_extends_in_bounds; [exact Hb | exact (Hg Hb)]).
    rewrite (line_hits_same_search _ _ _ Hs) in Hgo.
    destruct (Z.eq_dec r1 0) as [->|Hr1].
    + destruct (Hgo Hb1 eq_refl) as (H1 & H2 & _).
      specialize (Hone eq_refl).
      split; [lia|]. split; [intros H; specialize (H2 H); lia | lia].
    + destruct (Hstop Hr1) as (-> & -> & ->).
      split; [lia|]. split; [intros H; contradiction | lia].
Qed.

(** X17: [find_probe_point_by_line] emits at most one event for each row
    of the line table whose line is the one searched and whose file
    matches, and when it answers 0 it has emitted exactly one for each.
    It keeps the events that were in use and what is searched for; when
    no row is taken, it answers 0 and nothing has changed. *)
Theorem find_probe_point_by_line_emits
    (env : Env) (dw : Libdw) (pf pf' : probe_finder) (w w' : World) (r : Z)
    (lines : list Dwarf_Line)
    (Hbounds : finder_in_bounds pf)
    (Hlines : dwarf_getsrclines dw (pf_cu_die pf) = Some lines)
    (Hrun : find_probe_point_by_line env dw pf w = Done (r, pf') w') :
  pf_ntevs pf' - pf_ntevs pf <= line_hits pf lines /\
  (r = 0 -> pf_ntevs pf' - pf_ntevs pf = line_hits pf lines) /\
  (line_hits pf lines = 0 -> r = 0 /\ pf' = pf /\ w' = w) /\
  finder_extends pf pf' /\ same_search pf pf'.
Proof.
  unfold find_probe_point_by_line in Hrun. rewrite Hlines in Hrun.
  destruct (find_probe_point_by_line_loop_spec _ _ _ _ _ _ _ _ _ Hrun)
    as (Hs & Hg & _ & Hgo).
  destruct (Hgo Hbounds eq_refl) as (H1 & H2 & H3).
  split; [exact H1|]. split; [exact H2|]. split; [exact H3|].
  split; [exact (Hg Hbounds) | exact Hs].
Qed.

(** mm/slub.c of the examples: one row of the line table has line 14, at
    0x1008 in kfree, and one event is emitted for it. *)
Lemma find_probe_point_by_line_emits_witness :
  exists pf' w',
    find_probe_point_by_line Fixture.env Fixture.libdw Fixture.pf_line14
      Fixture.world = Done (0, pf') w' /\
    line_hits Fixture.pf_line14 Fixture.src_lines = 1 /\
    pf_ntevs pf' - pf_ntevs Fixture.pf_line14
    <= line_hits Fixture.pf_line14 Fixture.src_lines /\
    (0 = 0 -> pf_ntevs pf' - pf_ntevs Fixture.pf_line14
              = line_hits Fixture.pf_line14 Fixture.src_lines) /\
    (line_hits Fixture.pf_line14 Fixture.src_lines = 0 ->
     0 = 0 /\ pf' = Fixture.pf_line14 /\ w' = Fixture.world) /\
    finder_extends Fixture.pf_line14 pf' /\
    same_search Fixture.pf_line14 pf'.
Proof.
  eexists _, _. split; [vm_compute; reflexivity|].
  split; [reflexivity|].
  apply (find_probe_point_by_line_emits Fixture.env Fixture.libdw
           Fixture.pf_line14 _ Fixture.world _ 0 Fixture.src_lines).
  - repeat split; vm_compute; discriminate.
  - reflexivity.
  - vm_compute. reflexivity.
Defined.

(** ** find_probe_point_lazy *)

Lemma find_probe_point_lazy_loop_spec
    (env : Env) (sp_die : option Dwarf_Die) (lines : list Dwarf_Line) :
  forall i r pf w r' pf' w',
    find_probe_point_lazy_loop env sp_die lines i r pf w = Done (r', pf') w' ->
    same_search pf pf' /\ finder_grows pf pf'.
Proof.
  induction lines as [|line lines IH]; intros i r pf w r' pf' w' Hrun;
    cbn [find_probe_point_lazy_loop] in Hrun.
  - injection Hrun as _ <- _.
    split; [apply same_search_refl | apply finder_grows_refl].
  - destruct (negb (r >=? 0)).
    { injection Hrun as _ <- _.
      split; [apply same_search_refl | apply finder_grows_refl]. }
    destruct (dwarf_lineno line) as [lineno|]; [|exact (IH _ _ _ _ _ _ _ Hrun)].
    destruct (negb (int_to_bool (line_list__has_line (pf_lcache pf) lineno)));
      [exact (IH _ _ _ _ _ _ _ Hrun)|].
    apply bind_inv in Hrun. destruct Hrun as (c & w1 & _ & Hrun).
    destruct (negb (c =? 0)); [exact (IH _ _ _ _ _ _ _ Hrun)|].
    destruct (dwarf_lineaddr line) as [addr|].
    2:{ unfold pr_debug in Hrun. rewrite bind_pr in Hrun.
        exact (IH _ _ _ _ _ _ _ Hrun). }
    match type of Hrun with
    | (if ?c then _ else _) _ = _ => destruct c
    end; [exact (IH _ _ _ _ _ _ _ Hrun)|].
    unfold pr_debug in Hrun. rewrite bind_pr in Hrun.
    apply bind_inv in Hrun. destruct Hrun as ([r1 pf1] & w2 & Hcpp & Hrun).
    pose proof (convert_probe_point_same_search _ _ _ _ _ _ _ Hcpp) as Hs1.
    pose proof (convert_probe_point_grows _ _ _ _ _ _ _ Hcpp) as Hg1.
    destruct (IH _ _ _ _ _ _ _ Hrun) as (Hs2 & Hg2).
    split.
    + eapply same_search_trans; [apply (same_search_set_addr pf addr)|].
      eapply same_search_trans; eassumption.
    + eapply finder_grows_trans; [apply (finder_grows_set_addr pf addr)|].
      eapply finder_grows_trans; eassumption.
Qed.

Lemma find_probe_point_lazy_grows env dw fuel sp_die pf w r pf' w' :
  find_probe_point_lazy env dw fuel sp_die pf w = Done (r, pf') w' ->
  finder_grows pf pf'.
Proof.
  unfold find_probe_point_lazy. intros Hrun.
  apply bind_inv in Hrun. destruct Hrun as (x & w1 & Hx & Hrun).
  assert (Hx' : match x with
                | inl (_, pf1) => finder_grows pf pf1
                | inr (_, pf1) => finder_grows pf pf1
                end).
  { destruct (pf_lcache pf).
    - apply bind_inv in Hx. destruct Hx as ([r1 lcache] & w2 & _ & Hx).
      destruct (r1 =? 0).
      + unfold pr_debug in Hx. rewrite bind_pr in Hx. injection Hx as <- _.
        apply finder_grows_set_lcache.
      + destruct (r1 <? 0); injection Hx as <- _;
          apply finder_grows_set_lcache.
    - injection Hx as <- _. apply finder_grows_refl. }
  destruct x as [[r1 pf1]|[r1 pf1]].
  - injection Hrun as _ <- _. exact Hx'.
  - destruct (dwarf_getsrclines dw (pf_cu_die pf1)) as [lines|].
    + eapply finder_grows_trans; [exact Hx'|].
      now destruct (find_probe_point_lazy_loop_spec _ _ _ _ _ _ _ _ _ _ Hrun).
    + unfold pr_warning in Hrun. rewrite bind_pr in Hrun.
      injection Hrun as _ <- _. exact Hx'.
Qed.

(** What [find_lazy_match_lines] leaves in an empty list, as for the claim
    on the lines it tests. *)
Lemma find_lazy_match_lines_matched
    (env : Env) (fname pat : string) (fd : file) (fuel : nat) (w : World) :
  sys_open env fname = inr fd ->
  f_fstat_errno fd = None ->
  f_read_errno fd = None ->
  no_nul (f_data fd) = true ->
  (forall k, alloc_ok env k = true) ->
  Z.of_nat (strlen (f_data fd)) + 2 <= INT_MAX ->
  (strlen (f_data fd) + 2 <= fuel)%nat ->
  let matched := matching_lines_from env pat 1 (file_lines (f_data fd)) in
  exists w',
    find_lazy_match_lines env fuel [] fname pat w
    = Done (Z.of_nat (length matched), matched) w'.
Proof.
  intros Hopen Hstat Hread Hnul Halloc Hsize Hfuel matched.
  unfold find_lazy_match_lines. rewrite Hopen, Hstat, Hread.
  unfold bind at 1. unfold alloc. rewrite Halloc. cbn [negb].
  destruct (find_lazy_match_lines_loop_spec env Halloc pat
              (S (strlen (f_data fd))) (f_data fd) fuel 1 0 []
              (mk_World (w_refs w) (S (w_nalloc w)) (w_log w)))
    as (w' & Hw'); try lia; try assumption; [constructor|].
  exists w'. exact Hw'.
Qed.

Lemma set_lcache_self (pf : probe_finder) : set_lcache pf (pf_lcache pf) = pf.
Proof. now destruct pf. Qed.

(** X18: with an empty line cache, [find_probe_point_lazy] reads the
    source file and fills the cache with the numbers of the lines that
    match the pattern; whatever it answers, the cache holds exactly these
    afterwards.  When no line matches, it answers 0, emits nothing and the
    line table of the CU is not looked at; the cache stays empty, so the
    file is read again for the next CU. *)
Theorem find_probe_point_lazy_fills_cache
    (env : Env) (dw : Libdw) (fuel : nat) (sp_die : option Dwarf_Die)
    (pf : probe_finder) (w : World) (fname pat : string) (fd : file)
    (Hcache : pf_lcache pf = [])
    (Hfname : pf_fname pf = Some fname)
    (Hpat : pp_lazy_line (pev_point (pf_pev pf)) = Some pat)
    (Hopen : sys_open env fname = inr fd)
    (Hstat : f_fstat_errno fd = None)
    (Hread : f_read_errno fd = None)
    (Hnul : no_nul (f_data fd) = true)
    (Halloc : forall k, alloc_ok env k = true)
    (Hsize : Z.of_nat (strlen (f_data fd)) + 2 <= INT_MAX)
    (Hfuel : (strlen (f_data fd) + 2 <= fuel)%nat) :
  let matched := matching_lines_from env pat 1 (file_lines (f_data fd)) in
  (forall r pf' w',
     find_probe_point_lazy env dw fuel sp_die pf w = Done (r, pf') w' ->
     pf_lcache pf' = matched) /\
  (matched = [] ->
   exists w', find_probe_point_lazy env dw fuel sp_die pf w = Done (0, pf) w').
Proof.
  intros matched.
  assert (Hstart : forall w0, exists w1,
            find_lazy_match_lines env fuel (pf_lcache pf) fname pat w0
            = Done (Z.of_nat (length matched), matched) w1).
  { intros w0. rewrite Hcache.
    now apply find_lazy_match_lines_matched with (fd := fd). }
  destruct (Hstart w) as (w1 & Hw1).
  unfold find_probe_point_lazy. rewrite Hcache, Hfname, Hpat.
  rewrite Hcache in Hw1. split.
  - intros r pf' w' H.
    apply bind_inv in H. destruct H as (x & w2 & Hx & H).
    rewrite (bind_Done _ _ _ _ _ Hw1) in Hx.
    destruct (Z.eqb_spec (Z.of_nat (length matched)) 0) as [E|E].
    + unfold pr_debug in Hx. rewrite bind_pr in Hx. injection Hx as <- _.
      injection H as _ <- _. cbn [pf_lcache set_lcache].
      destruct matched; [reflexivity | discriminate E].
    + destruct (Z.ltb_spec (Z.of_nat (length matched)) 0); [lia|].
      injection Hx as <- _.
      destruct (dwarf_getsrclines dw _) as [lines|].
      * destruct (find_probe_point_lazy_loop_spec _ _ _ _ _ _ _ _ _ _ H)
          as ((_ & _ & _ & _ & _ & Hl & _) & _).
        exact Hl.
      * unfold pr_warning in H. rewrite bind_pr in H. injection H as _ <- _.
        reflexivity.
  - intros Hnone. unfold bind at 1. rewrite (bind_Done _ _ _ _ _ Hw1).
    rewrite Hnone. cbn [length]. change (Z.of_nat 0 =? 0) with true.
    cbv iota. unfold pr_debug. rewrite bind_pr.
    unfold ret. rewrite <- Hcache, set_lcache_self. eexists. reflexivity.
Qed.

(** kernel/sched.c of the examples: the third line matches, the line
    table of mm/slub.c has no row for it, and the answer is the number of
    matching lines. *)
Lemma find_probe_point_lazy_fills_cache_witness :
  (forall r pf' w',
     find_probe_point_lazy Fixture.env Fixture.libdw 64 None Fixture.pf_lazy
       Fixture.world = Done (r, pf') w' ->
     pf_lcache pf' = [3]) /\
  exists w',
    find_probe_point_lazy Fixture.env Fixture.libdw 64 None Fixture.pf_lazy
      Fixture.world = Done (1, set_lcache Fixture.pf_lazy [3]) w'.
Proof.
  split.
  - apply (proj1 (find_probe_point_lazy_fills_cache Fixture.env
                    Fixture.libdw 64 None Fixture.pf_lazy Fixture.world
                    "kernel/sched.c" "rq = cpu_rq(cpu);" Fixture.sched_c
                    eq_refl eq_refl eq_refl eq_refl eq_refl eq_refl eq_refl
                    (fun k => eq_refl)
                    ltac:(vm_compute; discriminate)
                    ltac:(vm_compute; lia))).
  - eexists. vm_compute. reflexivity.
Defined.

(** ** The walks over functions and inline instances *)

Section Walk.

Context {S : Type} (R : S -> S -> Prop).
Hypothesis R_refl : forall a, R a a.
Hypothesis R_trans : forall a b c, R a b -> R b c -> R a c.
Variable callback : Dwarf_Die -> S -> M (Z * S).
Hypothesis R_callback :
  forall d a w r a' w', callback d a w = Done (r, a') w' -> R a a'.

Lemma dwarf_getfuncs_M_from_keeps (dies : list Dwarf_Die) :
  forall a w r a' w',
    dwarf_getfuncs_M_from dies callback a w = Done (r, a') w' -> R a a'.
Proof.
  induction dies as [|d dies IH]; intros a w r a' w' H;
    cbn [dwarf_getfuncs_M_from] in H.
  - injection H as _ <- _. apply R_refl.
  - destruct (dwarf_tag d =? DW_TAG_subprogram); [|exact (IH _ _ _ _ _ H)].
    apply bind_inv in H. destruct H as ([r1 a1] & w1 & Hcb & H).
    apply R_callback in Hcb.
    destruct (r1 =? DWARF_CB_OK).
    + eapply R_trans; [exact Hcb | exact (IH _ _ _ _ _ H)].
    + injection H as _ <- _. exact Hcb.
Qed.

Lemma dwarf_func_inline_instances_from_keeps (dies : list Dwarf_Die) :
  forall a w r a' w',
    dwarf_func_inline_instances_from dies callback a w = Done (r, a') w' ->
    R a a'.
Proof.
  induction dies as [|d dies IH]; intros a w r a' w' H;
    cbn [dwarf_func_inline_instances_from] in H.
  - injection H as _ <- _. apply R_refl.
  - apply bind_inv in H. destruct H as ([r1 a1] & w1 & Hcb & H).
    apply R_callback in Hcb.
    destruct (r1 =? DWARF_CB_OK).
    + eapply R_trans; [exact Hcb | exact (IH _ _ _ _ _ H)].
    + injection H as _ <- _. exact Hcb.
Qed.

End Walk.

(** ** find_probe_point_by_func *)

Lemma find_probe_point_by_line_grows env dw pf w r pf' w' :
  find_probe_point_by_line env dw pf w = Done (r, pf') w' ->
  finder_grows pf pf'.
Proof.
  unfold find_probe_point_by_line.
  destruct (dwarf_getsrclines dw (pf_cu_die pf)) as [lines|].
  - intros H.
    now destruct (find_probe_point_by_line_loop_spec _ _ _ _ _ _ _ _ _ H)
      as (_ & Hg & _).
  - unfold pr_warning. rewrite bind_pr. intros H. injection H as _ <- _.
    apply finder_grows_refl.
Qed.

Lemma probe_point_inline_cb_grows env dw fuel in_die a w r a' w' :
  probe_point_inline_cb env dw fuel in_die a w = Done (r, a') w' ->
  param_grows a a'.
Proof.
  unfold probe_point_inline_cb, param_grows. intros H.
  destruct (pp_lazy_line _) as [pat|].
  - apply bind_inv in H. destruct H as ([r1 pf1] & w1 & Hl & H).
    injection H as _ <- _. cbn [param_data].
    exact (find_probe_point_lazy_grows _ _ _ _ _ _ _ _ _ Hl).
  - destruct (dwarf_entrypc in_die) as [addr|].
    + unfold pr_debug in H. rewrite bind_pr in H.
      apply bind_inv in H. destruct H as ([r1 pf1] & w1 & Hc & H).
      apply convert_probe_point_grows in Hc.
      assert (Hg : finder_grows (param_data a) pf1).
      { eapply finder_grows_trans; [apply finder_grows_set_addr|].
        eapply finder_grows_trans; [apply finder_grows_set_addr|exact Hc]. }
      destruct (r1 <? 0); injection H as _ <- _; exact Hg.
    + unfold pr_warning in H. rewrite bind_pr in H. injection H as _ <- _.
      apply finder_grows_refl.
Qed.

Lemma param_grows_refl a : param_grows a a.
Proof. apply finder_grows_refl. Qed.

Lemma param_grows_trans a b c :
  param_grows a b -> param_grows b c -> param_grows a c.
Proof. apply finder_grows_trans. Qed.

Lemma probe_point_search_cb_grows env dw fuel sp_die a w r a' w' :
  probe_point_search_cb env dw fuel sp_die a w = Done (r, a') w' ->
  param_grows a a'.
Proof.
  unfold probe_point_search_cb, param_grows. intros H.
  apply bind_inv in H. destruct H as (differs & w1 & _ & H).
  destruct differs; [injection H as _ <- _; apply finder_grows_refl|].
  apply bind_inv in H. destruct H as (p & w2 & Hp & H).
  injection H as _ <- _.
  set (pf0 := set_fname (param_data a) _) in Hp.
  apply (finder_grows_trans _ pf0); [apply finder_grows_set_fname|].
  destruct (int_to_bool (pp_line _)).
  - apply bind_inv in Hp. destruct Hp as ([r1 pf1] & w3 & Hl & Hp).
    injection Hp as <- _. cbn [param_data].
    apply find_probe_point_by_line_grows in Hl.
    eapply finder_grows_trans; [apply finder_grows_set_lno|].
    eapply finder_grows_trans; [apply finder_grows_set_lno | exact Hl].
  - destruct (negb (int_to_bool (dwarf_func_inline dw sp_die))).
    + destruct (pp_lazy_line _) as [pat|].
      * apply bind_inv in Hp. destruct Hp as ([r1 pf1] & w3 & Hl & Hp).
        injection Hp as <- _. cbn [param_data].
        exact (find_probe_point_lazy_grows _ _ _ _ _ _ _ _ _ Hl).
      * destruct (dwarf_entrypc sp_die) as [eaddr|].
        -- apply bind_inv in Hp. destruct Hp as ([r1 pf1] & w3 & Hc & Hp).
           injection Hp as <- _. cbn [param_data].
           apply convert_probe_point_grows in Hc.
           eapply finder_grows_trans; [apply finder_grows_set_addr|].
           eapply finder_grows_trans; [apply finder_grows_set_addr|exact Hc].
        -- unfold pr_warning in Hp. rewrite bind_pr in Hp.
           injection Hp as <- _. apply finder_grows_refl.
    + apply bind_inv in Hp. destruct Hp as ([r1 p1] & w3 & Hi & Hp).
      injection Hp as <- _. unfold dwarf_func_inline_instances in Hi.
      exact (dwarf_func_inline_instances_from_keeps param_grows
               param_grows_refl param_grows_trans _
               (probe_point_inline_cb_grows env dw fuel) _ _ _ _ _ _ Hi).
Qed.

Lemma find_probe_point_by_func_grows env dw fuel pf w r pf' w' :
  find_probe_point_by_func env dw fuel pf w = Done (r, pf') w' ->
  finder_grows pf pf'.
Proof.
  unfold find_probe_point_by_func, dwarf_getfuncs_M. intros H.
  apply bind_inv in H. destruct H as ([r1 p1] & w1 & Hw & H).
  injection H as _ <- _.
  exact (dwarf_getfuncs_M_from_keeps param_grows
           param_grows_refl param_grows_trans _
           (probe_point_search_cb_grows env dw fuel) _ _ _ _ _ _ Hw).
Qed.

(** A callback that is reached with a subprogram of the requested name
    stops the walk. *)
Lemma probe_point_search_cb_answer env dw fuel sp_die a w r a' w' name :
  pp_function (pev_point (pf_pev (param_data a))) = Some name ->
  probe_point_search_cb env dw fuel sp_die a w = Done (r, a') w' ->
  if (dwarf_tag sp_die =? DW_TAG_subprogram) &&
     (bool_to_int (die_compare_name sp_die name) =? 0)
  then r = DWARF_CB_ABORT
  else r = DWARF_CB_OK /\ a' = a /\ w' = w.
Proof.
  unfold probe_point_search_cb. intros Hname H. rewrite Hname in H.
  destruct (dwarf_tag sp_die =? DW_TAG_subprogram); cbn [negb andb] in *.
  - unfold die_compare_name_ptr in H. rewrite !bind_ret_l in H.
    destruct (bool_to_int (die_compare_name sp_die name) =? 0);
      cbn [negb] in H.
    + apply bind_inv in H. destruct H as (p & w2 & _ & H).
      now injection H as <- _ _.
    + injection H as <- <- <-. auto.
  - rewrite bind_ret_l in H. injection H as <- <- <-. auto.
Qed.

Lemma dwarf_getfuncs_M_from_first env dw fuel (name : string)
    (dies : list Dwarf_Die) (a : dwarf_callback_param probe_finder)
    (w : World) :
  pp_function (pev_point (pf_pev (param_data a))) = Some name ->
  no_nul name = true ->
  names_no_nul dies ->
  dwarf_getfuncs_M_from dies (probe_point_search_cb env dw fuel) a w
  = match List.find (is_function_named name) dies with
    | None => Done (0, a) w
    | Some sp_die =>
        (x <- probe_point_search_cb env dw fuel sp_die a ;; ret (1, snd x)) w
    end.
Proof.
  intros Hfunction Hname Hdies.
  induction Hdies as [|d dies Hd _ IH];
    cbn [dwarf_getfuncs_M_from List.find]; [reflexivity|].
  unfold is_function_named at 1.
  rewrite <- (die_compare_name_named d name Hname Hd).
  destruct (dwarf_tag d =? DW_TAG_subprogram) eqn:Etag; cbn [andb];
    [|exact IH].
  destruct (bool_to_int (die_compare_name d name) =? 0) eqn:Ecmp.
  - apply bind_ext_run. intros [r a'] w1 Hcb.
    pose proof (probe_point_search_cb_answer _ _ _ _ _ _ _ _ _ _
                  Hfunction Hcb) as Hr.
    rewrite Etag, Ecmp in Hr. cbn [andb] in Hr. subst r. reflexivity.
  - assert (Hcb : probe_point_search_cb env dw fuel d a w
                  = Done (DWARF_CB_OK, a) w).
    { unfold probe_point_search_cb. rewrite Hfunction, Etag. cbn [negb].
      unfold die_compare_name_ptr. rewrite !bind_ret_l, Ecmp. reflexivity. }
    rewrite (bind_Done _ _ _ _ _ Hcb). exact IH.
Qed.

(** X19: [find_probe_point_by_func] hands the first subprogram of the CU
    that has the requested name to [probe_point_search_cb], and no other:
    the subprograms behind it are not visited.  When the CU has no
    subprogram of that name, it answers 0 and nothing has changed. *)
Theorem find_probe_point_by_func_first
    (env : Env) (dw : Libdw) (fuel : nat) (pf : probe_finder) (w : World)
    (name : string)
    (Hfunction : pp_function (pev_point (pf_pev pf)) = Some name)
    (Hname : no_nul name = true)
    (Hdies : names_no_nul (die_children (pf_cu_die pf))) :
  find_probe_point_by_func env dw fuel pf w
  = match List.find (is_function_named name) (die_children (pf_cu_die pf)) with
    | None => Done (0, pf) w
    | Some sp_die =>
        (x <- probe_point_search_cb env dw fuel sp_die (mk_param pf 0) ;;
         ret (param_retval (snd x), param_data (snd x))) w
    end.
Proof.
  unfold find_probe_point_by_func, dwarf_getfuncs_M. unfold bind at 1.
  rewrite (dwarf_getfuncs_M_from_first env dw fuel name) by assumption.
  destruct (List.find _ _) as [sp_die|]; [|reflexivity].
  unfold bind.
  now destruct (probe_point_search_cb env dw fuel sp_die _ w) as [[r a'] w1| |].
Qed.

(** mm/slub.c of the examples: kfree is the first function of the CU, and
    a request for a function that it does not have changes nothing. *)
Lemma find_probe_point_by_func_first_witness :
  find_probe_point_by_func Fixture.env Fixture.libdw 64
    (Fixture.finder [] 1 0 None) Fixture.world
  = (x <- probe_point_search_cb Fixture.env Fixture.libdw 64 Fixture.kfree_die
            (mk_param (Fixture.finder [] 1 0 None) 0) ;;
     ret (param_retval (snd x), param_data (snd x))) Fixture.world.
Proof.
  rewrite (find_probe_point_by_func_first Fixture.env Fixture.libdw 64
             (Fixture.finder [] 1 0 None) Fixture.world "kfree"
             eq_refl eq_refl).
  - change (List.find (is_function_named "kfree")
              (die_children (pf_cu_die (Fixture.finder [] 1 0 None))))
      with (Some Fixture.kfree_die).
    reflexivity.
  - repeat constructor.
Defined.
